(** * Corzz Optimizer loader (CorzzLoader_CLI.py): a shallow embedding

    The action layer of the console loader is embedded as executable
    Rocq definitions: the logger, the command runner, the power-plan
    manager, the temp cleaner, the CPU benchmark and the startup
    manager.  Everything outside the Python process (the powercfg
    tool, the clock, file permissions) appears as explicit state or as
    an oracle carried by that state.

    Modelling conventions
    - Python [str] is [string]; characters are code points below 256.
    - Python [int] is [Z]; timestamps and rates are exact rationals
      ([Q]) instead of binary floats, and of the float arithmetic only
      the [OverflowError] of converting a large [int] is kept.
    - A Python function with effects is a function
      [world -> result A * world]; [Raise] is an exception derived
      from Python's [Exception] class ([KeyboardInterrupt] and the
      like are outside the model).
    - The file system is a tree of directories and plain files, with
      names compared exactly and no symbolic links.  The log file and
      the state file are kept apart from that tree: the tree is the
      disk outside the loader's own directory, which the temp targets
      are taken not to cover.
    - The registry is seen at the level of the values [winreg]
      exchanges with Python, on a machine where the loader runs
      elevated, as [main] requires; the module [Guarded] has the same
      calls for a system that can refuse them. *)

From Stdlib Require Import ZArith QArith Znumtheory Ascii String List Lia Bool.
From stdpp Require Import gmap strings list.
From Equations Require Import Equations.

Local Open Scope Z_scope.

(** String concatenation unfolds under [simpl] in this development. *)
#[local] Arguments String.append !_ _ / : simpl nomatch.

(** ** Python strings *)

Module PyStr.

Definition ord (c : ascii) : N := N_of_ascii c.

Definition between (lo hi : N) (c : ascii) : bool :=
  ((lo <=? ord c) && (ord c <=? hi))%N.

(** [str.isspace] / the regex class [\s] on code points below 256. *)
Definition is_space (c : ascii) : bool :=
  between 9 13 c || between 28 32 c || (ord c =? 133)%N || (ord c =? 160)%N.

(** The line boundaries of [str.splitlines] below 256. *)
Definition is_linebreak (c : ascii) : bool :=
  between 10 13 c || between 28 30 c || (ord c =? 133)%N.

(** The regex class [[a-fA-F0-9\-]]. *)
Definition guid_char (c : ascii) : bool :=
  between 97 102 c || between 65 70 c || between 48 57 c || (ord c =? 45)%N.

Definition lower_char (c : ascii) : ascii :=
  if between 65 90 c || (between 192 222 c && negb (ord c =? 215)%N)
  then ascii_of_N (ord c + 32) else c.

Fixpoint lower (s : string) : string :=
  match s with
  | EmptyString => EmptyString
  | String c s' => String (lower_char c) (lower s')
  end.

Fixpoint all_chars (p : ascii -> bool) (s : string) : bool :=
  match s with
  | EmptyString => true
  | String c s' => p c && all_chars p s'
  end.

(** [s.startswith(p)] *)
Fixpoint startswith (p s : string) : bool :=
  match p, s with
  | EmptyString, _ => true
  | String a p', String b s' => Ascii.eqb a b && startswith p' s'
  | String _ _, EmptyString => false
  end.

(** [needle in hay] *)
Fixpoint contains (needle hay : string) : bool :=
  startswith needle hay ||
  match hay with
  | EmptyString => false
  | String _ hay' => contains needle hay'
  end.

Fixpoint lstrip (s : string) : string :=
  match s with
  | EmptyString => EmptyString
  | String c s' => if is_space c then lstrip s' else s
  end.

Fixpoint rstrip (s : string) : string :=
  match s with
  | EmptyString => EmptyString
  | String c s' =>
      match rstrip s' with
      | EmptyString => if is_space c then EmptyString else String c EmptyString
      | r => String c r
      end
  end.

(** [s.strip()] *)
Definition strip (s : string) : string := lstrip (rstrip s).

Definition CR : ascii := ascii_of_N 13.
Definition LF : ascii := ascii_of_N 10.

(** [s.splitlines()]: a carriage return followed by a line feed is one
    boundary, and a final boundary opens no empty last line. *)
Fixpoint splitlines (s : string) : list string :=
  match s with
  | EmptyString => []
  | String c s' =>
      if is_linebreak c then
        match s' with
        | String c2 s'' =>
            if Ascii.eqb c CR && Ascii.eqb c2 LF
            then EmptyString :: splitlines s''
            else EmptyString :: splitlines s'
        | EmptyString => [EmptyString]
        end
      else
        match splitlines s' with
        | [] => [String c EmptyString]
        | l :: ls => String c l :: ls
        end
  end.

(** The text after the first occurrence of [sep]: element 1 of
    [s.split(sep, 1)], absent when [sep] does not occur. *)
Fixpoint after_first (sep : ascii) (s : string) : option string :=
  match s with
  | EmptyString => None
  | String c s' => if Ascii.eqb c sep then Some s' else after_first sep s'
  end.

(** Truth value of a string. *)
Definition nonempty (s : string) : bool :=
  match s with EmptyString => false | _ => true end.

(** *** The pattern [GUID:\s*([a-fA-F0-9\-]{36})]

    [\s*] is greedy; since no whitespace character belongs to the
    capture class, giving whitespace back can never make the capture
    succeed, so the matcher commits to the longest whitespace run. *)

Fixpoint drop_prefix (p s : string) : option string :=
  match p, s with
  | EmptyString, _ => Some s
  | String a p', String b s' => if Ascii.eqb a b then drop_prefix p' s' else None
  | String _ _, EmptyString => None
  end.

Fixpoint take_class (n : nat) (s : string) : option string :=
  match n with
  | O => Some EmptyString
  | S n' =>
      match s with
      | String c s' =>
          if guid_char c then String c <$> take_class n' s' else None
      | EmptyString => None
      end
  end.

(** The pattern anchored at the start of [s]; the result is group 1. *)
Definition match_at (s : string) : option string :=
  r ← drop_prefix "GUID:" s; take_class 36 (lstrip r).

(** [re.search]: the match at the leftmost position that has one. *)
Fixpoint re_search_guid (s : string) : option string :=
  match match_at s with
  | Some g => Some g
  | None =>
      match s with
      | EmptyString => None
      | String _ s' => re_search_guid s'
      end
  end.

End PyStr.

(** ** Python values, exceptions and results *)

(** The values a power-scheme variable holds: [None] or a string. *)
Inductive pyval : Type :=
  | PyNone
  | PyStr (s : string).

Definition truthy (v : pyval) : bool :=
  match v with
  | PyNone => false
  | PyStr s => PyStr.nonempty s
  end.

Inductive exn_class : Type :=
  | TimeoutExpired
  | FileNotFoundError
  | PermissionError
  | OSError
  | IndexError
  | ZeroDivisionError
  | OverflowError
  | OtherException.

#[global] Instance exn_class_eq_dec : EqDecision exn_class.
Proof. solve_decision. Defined.

(** An exception object: its class and the text [str(e)] gives. *)
Record exn : Type := Exn { exn_cls : exn_class; exn_text : string }.

Inductive result (A : Type) : Type :=
  | Ok (a : A)
  | Raise (e : exn).
Arguments Ok {A} a.
Arguments Raise {A} e.

#[global] Instance result_ret : MRet result := λ A a, Ok a.
#[global] Instance result_bind : MBind result := λ A B f r,
  match r with
  | Ok a => f a
  | Raise e => Raise e
  end.

(** ** The machine the loader runs on *)

Definition path : Type := list string.

(** A file as the cleaner sees it: its metadata, and whether [stat],
    [chmod] and [unlink] on it succeed. *)
Record file : Type := File {
  f_name : string;
  f_mtime : Q;
  f_size : Z;
  f_stat_ok : bool;
  f_chmod_ok : bool;
  f_unlink_ok : bool
}.

(** A directory: its files and subdirectories, whether it can be
    listed, and whether the system lets it be removed once empty. *)
#[local] Unset Elimination Schemes.
Inductive dir : Type :=
  | Dir (name : string) (files : list file) (subdirs : list dir)
        (listable : bool) (removable : bool).
#[local] Set Elimination Schemes.

Definition d_name (d : dir) : string := let 'Dir n _ _ _ _ := d in n.
Definition d_files (d : dir) : list file := let 'Dir _ fs _ _ _ := d in fs.
Definition d_subdirs (d : dir) : list dir := let 'Dir _ _ ds _ _ := d in ds.
Definition d_listable (d : dir) : bool := let 'Dir _ _ _ l _ := d in l.
Definition d_removable (d : dir) : bool := let 'Dir _ _ _ _ r := d in r.

(** Registry data as [winreg] hands it to Python, with the value type
    ([REG_SZ], [REG_DWORD], ...) as its integer code. *)
Inductive reg_data : Type :=
  | RegNone
  | RegInt (n : Z)
  | RegStr (s : string)
  | RegMulti (l : list string)
  | RegBytes (b : list ascii).

Definition reg_value : Type := (reg_data * Z)%type.

Inductive hive : Type := HKEY_CURRENT_USER | HKEY_LOCAL_MACHINE.

(** One hive: key path to the values stored under that key. *)
Record registry : Type := Registry {
  hkcu : gmap string (gmap string reg_value);
  hklm : gmap string (gmap string reg_value)
}.

(** What a finished child process reports. *)
Record completed : Type := Completed {
  returncode : Z;
  stdout : string;
  stderr : string
}.

(** The lines of the log file, without their timestamps;
    [LTempCleaned freed] is the line that renders [freed] with
    [size_fmt]. *)
Inductive log_entry : Type :=
  | LRun (cmd : list string)
  | LStdout (s : string)
  | LStderr (s : string)
  | LTimeout
  | LError (text : string)
  | LUltimate (ok : bool)
  | LTempCleaned (freed : Z)
  | LFatal (text : string).

(** The parts of the surroundings the loader only reads. *)
Record environment : Type := Environment {
  clock : nat -> Q;             (* the n-th reading of [time.time()] *)
  env_TEMP : option path;       (* [os.environ.get("TEMP")] *)
  gettempdir : path;            (* [tempfile.gettempdir()] *)
  home : path;                  (* [Path.home()] *)
  log_dir_creatable : bool;     (* does [LOG_DIR.mkdir] succeed *)
  state_readable : bool;        (* may the state file be read *)
  state_writable : bool;        (* may the state file be written *)
  winreg_importable : bool      (* does [import winreg] succeed *)
}.

(** ** The prime-counting loops of [bench_cpu] (lines 198-207) *)

(** The [while] loop for one candidate [i], entered with divisor [j];
    the result is the final value of [prime].  The loop ends because
    [j <= j*j <= i] holds whenever the body runs, and [j] grows. *)
Equations? trial_division (i j : Z) : bool by wf (Z.to_nat (i + 1 - j)) lt :=
  trial_division i j with Z_le_dec (j * j) i := {
    | left _ => if i mod j =? 0 then false else trial_division i (j + 1)
    | right _ => true }.
Proof. nia. Qed.

(** [range(a, b)] *)
Definition range (a b : Z) : list Z := seqZ a (b - a).

(** The [for] loop, from the running [count]. *)
Fixpoint count_loop (candidates : list Z) (count : Z) : Z :=
  match candidates with
  | [] => count
  | i :: rest =>
      count_loop rest (if trial_division i 2 then count + 1 else count)
  end.

Definition count_primes (n : Z) : Z := count_loop (range 2 n) 0.

(** ** The loader *)

Section Loader.

(** The state of the operating system that external commands read
    and change (among it the active power scheme), and
    [subprocess.run] on it: the command either completes or the call
    raises. *)
Context {Machine : Type}.
Variable spawn :
  list string -> bool -> Z -> Machine -> result completed * Machine.

Record world : Type := World {
  w_machine : Machine;
  w_commands : list (list string);  (* commands launched so far, oldest first *)
  w_log : list log_entry;           (* corzz_loader.log *)
  w_log_faults : list bool;         (* does the next append to the log fail *)
  w_state : option string;          (* state_cli.ini; [None] when absent *)
  w_fs : dir;                       (* the root of the file system *)
  w_ticks : nat;                    (* clock readings taken so far *)
  w_registry : registry;
  w_env : environment
}.

Definition set_machine (m : Machine) (w : world) : world :=
  {| w_machine := m; w_commands := w_commands w; w_log := w_log w;
     w_log_faults := w_log_faults w; w_state := w_state w; w_fs := w_fs w;
     w_ticks := w_ticks w; w_registry := w_registry w; w_env := w_env w |}.

Definition set_commands (c : list (list string)) (w : world) : world :=
  {| w_machine := w_machine w; w_commands := c; w_log := w_log w;
     w_log_faults := w_log_faults w; w_state := w_state w; w_fs := w_fs w;
     w_ticks := w_ticks w; w_registry := w_registry w; w_env := w_env w |}.

Definition set_log (l : list log_entry) (w : world) : world :=
  {| w_machine := w_machine w; w_commands := w_commands w; w_log := l;
     w_log_faults := w_log_faults w; w_state := w_state w; w_fs := w_fs w;
     w_ticks := w_ticks w; w_registry := w_registry w; w_env := w_env w |}.

Definition set_log_faults (f : list bool) (w : world) : world :=
  {| w_machine := w_machine w; w_commands := w_commands w; w_log := w_log w;
     w_log_faults := f; w_state := w_state w; w_fs := w_fs w;
     w_ticks := w_ticks w; w_registry := w_registry w; w_env := w_env w |}.

Definition set_state (s : option string) (w : world) : world :=
  {| w_machine := w_machine w; w_commands := w_commands w; w_log := w_log w;
     w_log_faults := w_log_faults w; w_state := s; w_fs := w_fs w;
     w_ticks := w_ticks w; w_registry := w_registry w; w_env := w_env w |}.

Definition set_fs (d : dir) (w : world) : world :=
  {| w_machine := w_machine w; w_commands := w_commands w; w_log := w_log w;
     w_log_faults := w_log_faults w; w_state := w_state w; w_fs := d;
     w_ticks := w_ticks w; w_registry := w_registry w; w_env := w_env w |}.

Definition set_ticks (n : nat) (w : world) : world :=
  {| w_machine := w_machine w; w_commands := w_commands w; w_log := w_log w;
     w_log_faults := w_log_faults w; w_state := w_state w; w_fs := w_fs w;
     w_ticks := n; w_registry := w_registry w; w_env := w_env w |}.

Definition set_registry (r : registry) (w : world) : world :=
  {| w_machine := w_machine w; w_commands := w_commands w; w_log := w_log w;
     w_log_faults := w_log_faults w; w_state := w_state w; w_fs := w_fs w;
     w_ticks := w_ticks w; w_registry := r; w_env := w_env w |}.

(** *** Effects: state and exceptions *)

Definition M (A : Type) : Type := world -> result A * world.

#[local] Instance M_ret : MRet M := λ A a w, (Ok a, w).
#[local] Instance M_bind : MBind M := λ A B f m w,
  match m w with
  | (Ok a, w') => f a w'
  | (Raise e, w') => (Raise e, w')
  end.

Definition raise {A : Type} (e : exn) : M A := λ w, (Raise e, w).

(** [try: body except Exception as e: handler e]; what the body did
    before it raised stays done. *)
Definition try_except {A : Type} (body : M A) (handler : exn -> M A) : M A :=
  λ w, match body w with
       | (Ok a, w') => (Ok a, w')
       | (Raise e, w') => handler e w'
       end.

Definition pass : M unit := mret tt.

(** *** Logger (lines 16-32) *)

(** Module level: [LOG_DIR.mkdir(parents=True, exist_ok=True)]. *)
Definition make_log_dir : M unit :=
  λ w, if log_dir_creatable (w_env w) then (Ok tt, w)
       else (Raise (Exn PermissionError "Access is denied"), w).

(** [open(LOG_PATH, "a")] and [f.write(line)]. *)
Definition append_log (line : log_entry) : M unit :=
  λ w, match w_log_faults w with
       | true :: faults =>
           (Raise (Exn OSError "cannot write log"), set_log_faults faults w)
       | false :: faults =>
           (Ok tt, set_log (w_log w ++ [line]) (set_log_faults faults w))
       | [] => (Ok tt, set_log (w_log w ++ [line]) w)
       end.

Definition log (msg : log_entry) : M unit :=
  try_except (append_log msg) (λ _, pass).

(** The script from top to bottom: the module-level statements of
    lines 16-20 run first, and [main()] runs under the handler of
    lines 406-412, which logs and re-raises. *)
Definition script (main : M unit) : M unit :=
  make_log_dir;;
  try_except main (λ e, log (LFatal (exn_text e));; raise e).

(** *** Command runner (lines 47-61) *)

Definition subprocess_run (cmd : list string) (shell : bool) (timeout : Z)
  : M completed :=
  λ w, let '(r, m) := spawn cmd shell timeout (w_machine w) in
       (r, set_machine m (set_commands (w_commands w ++ [cmd]) w)).

Definition run (cmd : list string) (shell : bool) (timeout : Z)
  : M (Z * string * string) :=
  log (LRun cmd);;
  try_except
    (p ← subprocess_run cmd shell timeout;
     (if PyStr.nonempty (stdout p)
      then log (LStdout (PyStr.strip (stdout p))) else pass);;
     (if PyStr.nonempty (stderr p)
      then log (LStderr (PyStr.strip (stderr p))) else pass);;
     mret (returncode p, stdout p, stderr p))
    (λ e, match exn_cls e with
          | TimeoutExpired => log LTimeout;; mret (1, "", "Timeout")
          | _ => log (LError (exn_text e));; mret (1, "", exn_text e)
          end).

(** [run(cmd)] with the defaults [shell=False, timeout=120]. *)
Definition run_default (cmd : list string) : M (Z * string * string) :=
  run cmd false 120.

(** *** Power plan (lines 22, 65-103) *)

Definition POWER_ULTIMATE_GUID : string :=
  "e9a42b02-d5df-448d-aa00-03f14749eb61".

Definition get_active_power_scheme_guid : M pyval :=
  '(rc, out, err) ← run_default ["powercfg"; "/getactivescheme"];
  if (rc =? 0) && PyStr.nonempty out then
    match PyStr.re_search_guid out with
    | Some g => mret (PyStr g)
    | None => mret PyNone
    end
  else mret PyNone.

(** The state file [state_cli.ini]. *)
Definition state_exists : M bool :=
  λ w, (Ok (bool_decide (is_Some (w_state w))), w).

Definition state_write_text (text : string) : M unit :=
  λ w, if state_writable (w_env w) then (Ok tt, set_state (Some text) w)
       else (Raise (Exn PermissionError "Permission denied"), w).

Definition state_read_text : M string :=
  λ w, match w_state w with
       | None => (Raise (Exn FileNotFoundError "No such file or directory"), w)
       | Some text =>
           if state_readable (w_env w) then (Ok text, w)
           else (Raise (Exn PermissionError "Permission denied"), w)
       end.

(** [f"previous_scheme={prev}\n"] *)
Definition state_line (prev : string) : string :=
  "previous_scheme=" +:+ prev +:+ String PyStr.LF "".

(** How an f-string renders a scheme value. *)
Definition format_pyval (v : pyval) : string :=
  match v with
  | PyNone => "None"
  | PyStr s => s
  end.

(** Lines 75-77: make sure the Ultimate Performance scheme is listed. *)
Definition ensure_ultimate_listed : M unit :=
  '(rc, out, err) ← run_default ["powercfg"; "/list"];
  if negb (PyStr.contains (PyStr.lower POWER_ULTIMATE_GUID)
                          (PyStr.lower (out +:+ err)))
  then run_default ["powercfg"; "/duplicatescheme"; POWER_ULTIMATE_GUID];; pass
  else pass.

(** Lines 79-83: persist the scheme found active, if one was found. *)
Definition save_previous (prev : pyval) : M unit :=
  if truthy prev
  then try_except (state_write_text (state_line (format_pyval prev)))
                  (λ _, pass)
  else pass.

(** Lines 84-87. *)
Definition activate_ultimate : M bool :=
  '(rc, out, err) ← run_default ["powercfg"; "/setactive"; POWER_ULTIMATE_GUID];
  let ok := rc =? 0 in
  log (LUltimate ok);;
  mret ok.

Definition enable_ultimate : M bool :=
  ensure_ultimate_listed;;
  prev ← get_active_power_scheme_guid;
  save_previous prev;;
  activate_ultimate.

(** [line.split("=",1)[1]]; the index raises when there is no ["="]. *)
Definition split_eq_item1 (line : string) : result string :=
  match PyStr.after_first "=" line with
  | Some rest => Ok rest
  | None => Raise (Exn IndexError "list index out of range")
  end.

(** The loop over the lines of the state file (lines 95-97). *)
Fixpoint scan_previous (lines : list string) (prev : pyval) : result pyval :=
  match lines with
  | [] => Ok prev
  | line :: rest =>
      if PyStr.startswith "previous_scheme=" line
      then item ← split_eq_item1 line;
           scan_previous rest (PyStr (PyStr.strip item))
      else scan_previous rest prev
  end.

Definition lift {A : Type} (r : result A) : M A := λ w, (r, w).

Definition restore_power : M bool :=
  try_except
    (present ← state_exists;
     if negb present then mret false
     else
       text ← state_read_text;
       prev ← lift (scan_previous (PyStr.splitlines text) PyNone);
       match prev with
       | PyStr g =>
           if PyStr.nonempty g
           then '(rc, out, err) ← run_default ["powercfg"; "/setactive"; g];
                mret (rc =? 0)
           else mret false
       | PyNone => mret false
       end)
    (λ _, mret false).

(** *** Temp cleaner (lines 131-161) *)

Definition time_time : M Q :=
  λ w, (Ok (clock (w_env w) (w_ticks w)), set_ticks (S (w_ticks w)) w).

Record stat_result : Type := StatResult { st_mtime : Q; st_size : Z }.

Definition stat (f : file) : result stat_result :=
  if f_stat_ok f then Ok {| st_mtime := f_mtime f; st_size := f_size f |}
  else Raise (Exn PermissionError "stat: access denied").

Definition chmod (f : file) : result unit :=
  if f_chmod_ok f then Ok tt
  else Raise (Exn PermissionError "chmod: access denied").

(** [fp.unlink(missing_ok=True)] on a file the walk has just listed. *)
Definition unlink (f : file) : result unit :=
  if f_unlink_ok f then Ok tt
  else Raise (Exn PermissionError "unlink: file in use").

(** Truth value of [cutoff]: neither [None] nor zero. *)
Definition cutoff_set (cutoff : option Q) : option Q :=
  match cutoff with
  | Some c => if Qeq_bool c 0 then None else Some c
  | None => None
  end.

(** How the body of the [try] at lines 146-151 ends when nothing
    raises: with [continue] at line 147, or past line 151. *)
Inductive try_end : Type :=
  | Continue
  | Unlinked (sz : Z).

Definition delete_attempt (cutoff : option Q) (f : file) : result try_end :=
  recent ← match cutoff_set cutoff with
           | Some c => st ← stat f; mret (negb (Qle_bool (st_mtime st) c))
           | None => mret false
           end;
  if recent : bool then mret Continue
  else st ← stat f;
       chmod f;;
       unlink f;;
       mret (Unlinked (st_size st)).

(** What happened to a visited file. *)
Inductive outcome : Type :=
  | TooRecent
  | Failed (e : exn)
  | Deleted (sz : Z).

Record visit : Type := Visit {
  v_path : path;
  v_file : file;
  v_outcome : outcome
}.

(** The loop over [files] of one directory; returns the files left in
    the directory, the running total and the visits made. *)
Fixpoint clean_files (cutoff : option Q) (root : path) (files : list file)
  (freed : Z) : list file * Z * list visit :=
  match files with
  | [] => ([], freed, [])
  | f :: rest =>
      let fp := root ++ [f_name f] in
      match delete_attempt cutoff f with
      | Ok (Unlinked sz) =>
          let '(kept, freed', vs) := clean_files cutoff root rest (freed + sz) in
          (kept, freed', Visit fp f (Deleted sz) :: vs)
      | Ok Continue =>
          let '(kept, freed', vs) := clean_files cutoff root rest freed in
          (f :: kept, freed', Visit fp f TooRecent :: vs)
      | Raise e =>
          let '(kept, freed', vs) := clean_files cutoff root rest freed in
          (f :: kept, freed', Visit fp f (Failed e) :: vs)
      end
  end.

(** [dp.rmdir()]: only an empty directory goes. *)
Definition rmdir (d : dir) : result unit :=
  match d_files d, d_subdirs d with
  | [], [] =>
      if d_removable d then Ok tt
      else Raise (Exn PermissionError "rmdir: access denied")
  | _, _ => Raise (Exn OSError "rmdir: directory not empty")
  end.

(** The loop over [subdirs] of one directory (lines 154-159). *)
Fixpoint remove_subdirs (subdirs : list dir) : list dir :=
  match subdirs with
  | [] => []
  | d :: rest =>
      match rmdir d with
      | Ok _ => remove_subdirs rest
      | Raise _ => d :: remove_subdirs rest
      end
  end.

(** [os.walk(d, topdown=False)] with the loop body applied to each
    triple it yields: the subdirectories are walked first, then the
    directory's own files are cleaned and its subdirectories removed.
    A directory that cannot be listed yields nothing. *)
Fixpoint walk_clean (cutoff : option Q) (root : path) (d : dir) (freed : Z)
  {struct d} : dir * Z * list visit :=
  match d with
  | Dir name files subdirs listable removable =>
      if negb listable then (d, freed, [])
      else
        let fix walk_subdirs (l : list dir) (freed : Z)
          : list dir * Z * list visit :=
          match l with
          | [] => ([], freed, [])
          | c :: l' =>
              let '(c', freed1, vs1) :=
                walk_clean cutoff (root ++ [d_name c]) c freed in
              let '(l'', freed2, vs2) := walk_subdirs l' freed1 in
              (c' :: l'', freed2, vs1 ++ vs2)
          end in
        let '(subdirs', freed1, vs1) := walk_subdirs subdirs freed in
        let '(files', freed2, vs2) := clean_files cutoff root files freed1 in
        (Dir name files' (remove_subdirs subdirs') listable removable,
         freed2, vs1 ++ vs2)
  end.

Definition named (n : string) (d : dir) : bool := String.eqb (d_name d) n.

(** The directory at [p] below [d], if there is one. *)
Fixpoint lookup_dir (p : path) (d : dir) : option dir :=
  match p with
  | [] => Some d
  | n :: p' => c ← List.find (named n) (d_subdirs d); lookup_dir p' c
  end.

Fixpoint update_first (n : string) (f : dir -> dir) (l : list dir) : list dir :=
  match l with
  | [] => []
  | c :: l' => if named n c then f c :: l' else c :: update_first n f l'
  end.

(** The tree [d] with the directory at [p] replaced by [new]. *)
Fixpoint replace_dir (p : path) (new : dir) (d : dir) : dir :=
  match p with
  | [] => new
  | n :: p' =>
      Dir (d_name d) (d_files d)
          (update_first n (replace_dir p' new) (d_subdirs d))
          (d_listable d) (d_removable d)
  end.

(** The loop over [targets] (lines 139-159) on the file system [fs]. *)
Fixpoint clean_targets (cutoff : option Q) (targets : list path) (fs : dir)
  (freed : Z) : dir * Z * list visit :=
  match targets with
  | [] => (fs, freed, [])
  | t :: rest =>
      match lookup_dir t fs with
      | None => clean_targets cutoff rest fs freed
      | Some d =>
          let '(d', freed1, vs1) := walk_clean cutoff t d freed in
          let '(fs', freed2, vs2) :=
            clean_targets cutoff rest (replace_dir t d' fs) freed1 in
          (fs', freed2, vs1 ++ vs2)
      end
  end.

Definition temp_targets (env : environment) (include_system aggressive : bool)
  : list path :=
  [default (gettempdir env) (env_TEMP env);
   home env ++ ["AppData"; "Local"; "Temp"]]
  ++ (if include_system then [["C:"; "Windows"; "Temp"]] else [])
  ++ (if aggressive then [["C:"; "Windows"; "Prefetch"]] else []).

(** The conversion of an [int] operand that [float - int] makes
    first: it raises from 2^1024 - 2^970 on, the least magnitude that
    rounds beyond the largest double.  Below it the value is kept as
    it is, times being rationals here. *)
Definition FLOAT_LIMIT : Z := 2 ^ 1024 - 2 ^ 970.

Definition float_of_int (x : Z) : result Q :=
  if Z.abs x <? FLOAT_LIMIT then Ok (inject_Z x)
  else Raise (Exn OverflowError "int too large to convert to float").

(** [time.time() - older_days*86400 if older_days else None]: the
    clock is read before the product is converted. *)
Definition compute_cutoff (older_days : Z) : M (option Q) :=
  if older_days =? 0 then mret None
  else now ← time_time;
       span ← lift (float_of_int (older_days * 86400));
       mret (Some (now - span)%Q).

(** The walk as a step on the world. *)
Definition walk_targets (cutoff : option Q) (targets : list path) : M Z :=
  λ w, let '(fs', freed, _) := clean_targets cutoff targets (w_fs w) 0 in
       (Ok freed, set_fs fs' w).

Definition clean_temp (include_system aggressive : bool) (older_days : Z)
  : M Z :=
  λ w,
    let targets := temp_targets (w_env w) include_system aggressive in
    (cutoff ← compute_cutoff older_days;
     freed ← walk_targets cutoff targets;
     log (LTempCleaned freed);;
     mret freed) w.

(** *** CPU benchmark (lines 195-209) *)

Definition bench_cpu (n : Z) : M Q :=
  t0 ← time_time;
  let count := count_primes n in
  t1 ← time_time;
  let elapsed := (t1 - t0)%Q in
  if Qeq_bool elapsed 0
  then raise (Exn ZeroDivisionError "float division by zero")
  else mret (inject_Z count / elapsed)%Q.

(** *** Startup manager (lines 239-257) *)

(** An open registry key. *)
Definition hkey : Type := (hive * string)%type.

Definition hive_keys (h : hive) (r : registry)
  : gmap string (gmap string reg_value) :=
  match h with
  | HKEY_CURRENT_USER => hkcu r
  | HKEY_LOCAL_MACHINE => hklm r
  end.

Definition set_hive_keys (h : hive) (ks : gmap string (gmap string reg_value))
  (r : registry) : registry :=
  match h with
  | HKEY_CURRENT_USER => {| hkcu := ks; hklm := hklm r |}
  | HKEY_LOCAL_MACHINE => {| hkcu := hkcu r; hklm := ks |}
  end.

Definition not_found {A : Type} : M A :=
  raise (Exn FileNotFoundError "The system cannot find the file specified").

Definition OpenKey (h : hive) (sub_key : string) : M hkey :=
  λ w, match hive_keys h (w_registry w) !! sub_key with
       | Some _ => (Ok (h, sub_key), w)
       | None => not_found w
       end.

Definition CreateKey (h : hive) (sub_key : string) : M hkey :=
  λ w, match hive_keys h (w_registry w) !! sub_key with
       | Some _ => (Ok (h, sub_key), w)
       | None =>
           (Ok (h, sub_key),
            set_registry
              (set_hive_keys h (<[sub_key := ∅]> (hive_keys h (w_registry w)))
                             (w_registry w)) w)
       end.

Definition QueryValueEx (k : hkey) (name : string) : M reg_value :=
  λ w, match hive_keys k.1 (w_registry w) !! k.2 with
       | Some values =>
           match values !! name with
           | Some v => (Ok v, w)
           | None => not_found w
           end
       | None => not_found w
       end.

Definition SetValueEx (k : hkey) (name : string) (vtype : Z) (value : reg_data)
  : M unit :=
  λ w, match hive_keys k.1 (w_registry w) !! k.2 with
       | Some values =>
           (Ok tt,
            set_registry
              (set_hive_keys k.1
                 (<[k.2 := <[name := (value, vtype)]> values]>
                    (hive_keys k.1 (w_registry w)))
                 (w_registry w)) w)
       | None => not_found w
       end.

Definition DeleteValue (k : hkey) (name : string) : M unit :=
  λ w, match hive_keys k.1 (w_registry w) !! k.2 with
       | Some values =>
           match values !! name with
           | Some _ =>
               (Ok tt,
                set_registry
                  (set_hive_keys k.1
                     (<[k.2 := delete name values]>
                        (hive_keys k.1 (w_registry w)))
                     (w_registry w)) w)
           | None => not_found w
           end
       | None => not_found w
       end.

(** [try: body except FileNotFoundError: handler]; any other exception
    goes on to the caller. *)
Definition try_except_not_found {A : Type} (body handler : M A) : M A :=
  try_except body
    (λ e, match exn_cls e with
          | FileNotFoundError => handler
          | _ => raise e
          end).

Definition RUN_KEY : string :=
  "Software\Microsoft\Windows\CurrentVersion\Run".

(** Line 244. *)
Definition hive_of (hive_str : string) : hive :=
  if String.eqb hive_str "HKCU" then HKEY_CURRENT_USER else HKEY_LOCAL_MACHINE.

(** Line 246: the key that holds the disabled entries. *)
Definition SHADOW_KEY : string := RUN_KEY +:+ "_Disabled_By_Corzz".

(** The [try] of lines 249-253; [None] stands for the early
    [return False]. *)
Definition find_value (hive : hive) (src name : string)
  : M (option reg_value) :=
  try_except_not_found
    (src_key ← OpenKey hive src;
     v ← QueryValueEx src_key name;
     mret (Some v))
    (mret None).

(** Lines 249-257: read the value under [src], copy it to [dst], then
    delete it from [src]. *)
Definition move_value (hive : hive) (src dst name : string) : M bool :=
  found ← find_value hive src name;
  match found with
  | None => mret false
  | Some (value, vtype) =>
      dst_key ← CreateKey hive dst;
      SetValueEx dst_key name vtype value;;
      del_key ← OpenKey hive src;
      DeleteValue del_key name;;
      mret true
  end.

Definition toggle_startup (name hive_str : string) (disable : bool) : M bool :=
  λ w,
    if negb (winreg_importable (w_env w)) then (Ok false, w)
    else
      let hive := hive_of hive_str in
      let base := RUN_KEY in
      let backup := SHADOW_KEY in
      let src := if negb disable then backup else base in
      let dst := if negb disable then base else backup in
      move_value hive src dst name w.

End Loader.

Arguments World {Machine}.
Arguments world : clear implicits.

(** ** Vocabulary of the statements *)

Section Vocabulary.

Context {Machine : Type}.

(** [frame w w']: going from [w] to [w'] touched neither the state
    file, the file system, the registry, the clock nor the
    surroundings; the log, the list of commands and the machine may
    have changed. *)
Definition frame (w w' : world Machine) : Prop :=
  w_state w' = w_state w /\ w_fs w' = w_fs w /\ w_ticks w' = w_ticks w /\
  w_registry w' = w_registry w /\ w_env w' = w_env w.

(** The world after [log msg]. *)
Definition logged (msg : log_entry) (w : world Machine) : world Machine :=
  match w_log_faults w with
  | true :: faults => set_log_faults faults w
  | false :: faults => set_log (w_log w ++ [msg]) (set_log_faults faults w)
  | [] => set_log (w_log w ++ [msg]) w
  end.

(** The triple [run] hands back for each way [subprocess.run] can end. *)
Definition run_result (r : result completed) : Z * string * string :=
  match r with
  | Ok p => (returncode p, stdout p, stderr p)
  | Raise e =>
      match exn_cls e with
      | TimeoutExpired => (1, "", "Timeout")
      | _ => (1, "", exn_text e)
      end
  end.

(** [g] is captured by the pattern [GUID:\s*([a-fA-F0-9\-]{36})]
    somewhere in [out]. *)
Definition guid_match (out g : string) : Prop :=
  exists pre ws post : string,
    out = pre +:+ "GUID:" +:+ ws +:+ g +:+ post /\
    PyStr.all_chars PyStr.is_space ws = true /\
    String.length g = 36%nat /\
    PyStr.all_chars PyStr.guid_char g = true.

(** What lines 67-71 make of the triple [run] returned. *)
Definition parse_active (r : Z * string * string) : pyval :=
  let '(rc, out, err) := r in
  if (rc =? 0) && PyStr.nonempty out then
    match PyStr.re_search_guid out with
    | Some g => PyStr g
    | None => PyNone
    end
  else PyNone.

Definition QUERY : list string := ["powercfg"; "/getactivescheme"].

Definition SETACTIVE (g : string) : list string := ["powercfg"; "/setactive"; g].

(** The values stored under key [k] of hive [h], if the key exists. *)
Definition key_values (h : hive) (k : string) (w : world Machine)
  : option (gmap string reg_value) :=
  hive_keys h (w_registry w) !! k.

(** A step on the registry that sets key [k] of hive [h] to [vals]
    and touches nothing else of that hive. *)
Definition key_set (h : hive) (k : string) (vals : gmap string reg_value)
  (w w' : world Machine) : Prop :=
  key_values h k w' = Some vals /\
  (forall k', k' <> k -> key_values h k' w' = key_values h k' w) /\
  w_env w' = w_env w.

(** The time [bench_cpu] measures, between the next two clock readings. *)
Definition elapsed (w : world Machine) : Q :=
  (clock (w_env w) (S (w_ticks w)) - clock (w_env w) (w_ticks w))%Q.

(** *** Temp cleaner *)

(** The loop of [walk_clean] over the subdirectories, by itself. *)
Definition walk_subdirs (cutoff : option Q) (root : path)
  : list dir -> Z -> list dir * Z * list visit :=
  fix walk_subdirs (l : list dir) (freed : Z) : list dir * Z * list visit :=
    match l with
    | [] => ([], freed, [])
    | c :: l' =>
        let '(c', freed1, vs1) :=
          walk_clean cutoff (root ++ [d_name c]) c freed in
        let '(l'', freed2, vs2) := walk_subdirs l' freed1 in
        (c' :: l'', freed2, vs1 ++ vs2)
    end.

(** The files below [d] in the order a bottom-up walk meets them;
    nothing below a directory that cannot be listed. *)
Fixpoint all_files (d : dir) : list file :=
  match d with
  | Dir _ files subdirs listable _ =>
      if negb listable then []
      else concat (map all_files subdirs) ++ files
  end.

(** The same files, each with the path the walk of [d] at [root] gives
    it. *)
Fixpoint all_entries (root : path) (d : dir) : list (path * file) :=
  match d with
  | Dir _ files subdirs listable _ =>
      if negb listable then []
      else concat (map (λ c, all_entries (root ++ [d_name c]) c) subdirs)
           ++ map (λ f, (root ++ [f_name f], f)) files
  end.

(** Where and on which file a visit was made. *)
Definition v_entry (v : visit) : path * file := (v_path v, v_file v).

(** The outcome the loop body records for each way lines 146-151 end. *)
Definition outcome_of (r : result try_end) : outcome :=
  match r with
  | Ok (Unlinked sz) => Deleted sz
  | Ok Continue => TooRecent
  | Raise e => Failed e
  end.

(** Do [stat], [chmod] and [unlink] all succeed on [f]. *)
Definition can_delete (f : file) : bool :=
  f_stat_ok f && f_chmod_ok f && f_unlink_ok f.

(** The bytes of the files whose deletion went through. *)
Fixpoint deleted_bytes (vs : list visit) : Z :=
  match vs with
  | [] => 0
  | v :: vs' =>
      match v_outcome v with
      | Deleted sz => sz + deleted_bytes vs'
      | _ => deleted_bytes vs'
      end
  end.

(** What a run over some files and directories must satisfy: the
    total grew by the bytes of the deleted files, every visit records
    how the attempt on its file ended, and the files visited are
    [expected]. *)
Definition run_ok (cutoff : option Q) (freed freed' : Z) (vs : list visit)
  (expected : list file) : Prop :=
  freed' = freed + deleted_bytes vs /\
  Forall (λ v, v_outcome v = outcome_of (delete_attempt cutoff (v_file v))) vs /\
  map v_file vs = expected.

(** Is [older_days*86400] too large for line 137 to subtract it. *)
Definition span_overflows (older_days : Z) : bool :=
  negb (older_days =? 0) && (2 ^ 1024 - 2 ^ 970 <=? Z.abs (older_days * 86400)).

(** The cutoff [clean_temp] computes in world [w] when line 137 goes
    through. *)
Definition cutoff_of (older_days : Z) (w : world Machine) : option Q :=
  if older_days =? 0 then None
  else Some (clock (w_env w) (w_ticks w) - inject_Z (older_days * 86400))%Q.

(** The visits [clean_temp] makes in world [w]: none when line 137
    raises, the walk of the targets otherwise. *)
Definition visits (include_system aggressive : bool) (older_days : Z)
  (w : world Machine) : list visit :=
  if span_overflows older_days then []
  else (clean_targets (cutoff_of older_days w)
          (temp_targets (w_env w) include_system aggressive) (w_fs w) 0).2.

Definition LIST : list string := ["powercfg"; "/list"].

Definition DUPLICATE : list string :=
  ["powercfg"; "/duplicatescheme"; POWER_ULTIMATE_GUID].

(** What the theorems on undoing assume of the [powercfg] tool, where
    [active] reads the active scheme off the machine, as the GUID the
    query prints for it: listing, duplicating and querying leave the
    active scheme alone, a query that prints a GUID prints the active
    one, and a successful [/setactive g] makes [g] the active scheme
    when [g] is the Ultimate GUID of line 22 or a GUID as the query
    prints it.  Nothing is assumed of [/setactive] on any other
    argument, such as a GUID in other letter case or an alias. *)
Record powercfg_behaves
  (spawn : list string -> bool -> Z -> Machine -> result completed * Machine)
  (active : Machine -> string) : Prop := {
  list_keeps_active : forall shell t m,
    active (spawn LIST shell t m).2 = active m;
  duplicate_keeps_active : forall shell t m,
    active (spawn DUPLICATE shell t m).2 = active m;
  query_keeps_active : forall shell t m,
    active (spawn QUERY shell t m).2 = active m;
  query_reports_active : forall shell t m p g,
    (spawn QUERY shell t m).1 = Ok p -> returncode p = 0 ->
    PyStr.re_search_guid (stdout p) = Some g -> g = active m;
  setactive_activates : forall g shell t m p,
    g = POWER_ULTIMATE_GUID \/ (exists m0, g = active m0) ->
    (spawn (SETACTIVE g) shell t m).1 = Ok p -> returncode p = 0 ->
    active (spawn (SETACTIVE g) shell t m).2 = g
}.

End Vocabulary.

(** Primality is decidable, so the primes of a list can be counted. *)
#[global] Instance prime_decision (p : Z) : Decision (Z.prime p).
Proof. destruct (prime_dec p) as [H|H]; [left|right]; now rewrite prime_alt. Defined.

(** Induction on a directory tree, with the property at hand for
    every subdirectory. *)
Fixpoint dir_tree_ind (P : dir -> Prop)
  (step : forall name files subdirs listable removable,
      Forall P subdirs -> P (Dir name files subdirs listable removable))
  (d : dir) : P d :=
  match d with
  | Dir name files subdirs listable removable =>
      step name files subdirs listable removable
        ((fix each (l : list dir) : Forall P l :=
            match l with
            | [] => @List.Forall_nil dir P
            | c :: l' =>
                @List.Forall_cons dir P c l' (dir_tree_ind P step c) (each l')
            end) subdirs)
  end.

(** ** A small machine to run the loader on

    Four power schemes and a [powercfg] that knows them; the figures
    below are used by the examples that follow the theorems. *)

Module Toy.

Inductive scheme : Type := Balanced | HighPerformance | PowerSaver | Ultimate.

Definition guid_of (s : scheme) : string :=
  match s with
  | Balanced => "381b4222-f694-41f0-9685-ff5bb260df2e"
  | HighPerformance => "8c5e7fda-e8bf-4a96-9a85-a6e23a8c635c"
  | PowerSaver => "a1841308-3541-4fab-bc81-f71556f20b4a"
  | Ultimate => POWER_ULTIMATE_GUID
  end.

Definition scheme_of_guid (g : string) : option scheme :=
  List.find (λ s, String.eqb (guid_of s) g)
            [Balanced; HighPerformance; PowerSaver; Ultimate].

Record machine : Type := Machine {
  active_scheme : scheme;
  ultimate_listed : bool;   (* has the hidden scheme been duplicated *)
  query_works : bool        (* does [/getactivescheme] succeed *)
}.

Definition active (m : machine) : string := guid_of (active_scheme m).

Definition banner (s : scheme) : string :=
  "Power Scheme GUID: " +:+ guid_of s +:+ "  (scheme)".

Definition listing (m : machine) : string :=
  banner Balanced +:+ String PyStr.LF (banner HighPerformance)
  +:+ String PyStr.LF (banner PowerSaver)
  +:+ (if ultimate_listed m then String PyStr.LF (banner Ultimate) else "").

Definition failed (text : string) : result completed :=
  Ok {| returncode := 1; stdout := ""; stderr := text |}.

Definition done (text : string) : result completed :=
  Ok {| returncode := 0; stdout := text; stderr := "" |}.

Definition spawn (cmd : list string) (shell : bool) (timeout : Z) (m : machine)
  : result completed * machine :=
  match cmd with
  | [tool; sub] =>
      if negb (String.eqb tool "powercfg") then
        (Raise (Exn FileNotFoundError "[WinError 2] file not found"), m)
      else if String.eqb sub "/list" then (done (listing m), m)
      else if String.eqb sub "/getactivescheme" then
        if query_works m then (done (banner (active_scheme m)), m)
        else (failed "Unable to query the active scheme", m)
      else if String.eqb sub "/hibernate" then
        (Raise (Exn TimeoutExpired "timed out after 120 seconds"), m)
      else (failed "Invalid Parameters", m)
  | [tool; sub; g] =>
      if negb (String.eqb tool "powercfg") then
        (Raise (Exn FileNotFoundError "[WinError 2] file not found"), m)
      else if String.eqb sub "/duplicatescheme" then
        if String.eqb g POWER_ULTIMATE_GUID
        then (done (banner Ultimate),
              {| active_scheme := active_scheme m; ultimate_listed := true;
                 query_works := query_works m |})
        else (failed "Invalid Parameters", m)
      else if String.eqb sub "/setactive" then
        match scheme_of_guid g with
        | Some Ultimate =>
            if ultimate_listed m
            then (done "",
                  {| active_scheme := Ultimate; ultimate_listed := true;
                     query_works := query_works m |})
            else (failed "The power scheme does not exist", m)
        | Some s =>
            (done "",
             {| active_scheme := s; ultimate_listed := ultimate_listed m;
                query_works := query_works m |})
        | None => (failed "Invalid Parameters", m)
        end
      else (failed "Invalid Parameters", m)
  | _ => (Raise (Exn FileNotFoundError "[WinError 2] file not found"), m)
  end.

Definition temp_dir : path := ["C:"; "Users"; "me"; "AppData"; "Local"; "Temp"].

Definition env0 : environment :=
  {| clock := λ n, inject_Z (List.nth n [1700000000; 1700000002; 1700000004]
                                        1700000006);
     env_TEMP := Some temp_dir;
     gettempdir := temp_dir;
     home := ["C:"; "Users"; "me"];
     log_dir_creatable := true;
     state_readable := true;
     state_writable := true;
     winreg_importable := true |}.

Definition old_log : file :=
  {| f_name := "old.log"; f_mtime := inject_Z 1600000000; f_size := 100;
     f_stat_ok := true; f_chmod_ok := true; f_unlink_ok := true |}.

Definition locked_db : file :=
  {| f_name := "locked.db"; f_mtime := inject_Z 1600000000; f_size := 4096;
     f_stat_ok := true; f_chmod_ok := true; f_unlink_ok := false |}.

Definition fresh_tmp : file :=
  {| f_name := "fresh.tmp"; f_mtime := inject_Z 1699999999; f_size := 7;
     f_stat_ok := true; f_chmod_ok := true; f_unlink_ok := true |}.

Definition cache_bin : file :=
  {| f_name := "cache.bin"; f_mtime := inject_Z 1500000000; f_size := 30;
     f_stat_ok := true; f_chmod_ok := true; f_unlink_ok := true |}.

Definition folder (name : string) (files : list file) (subdirs : list dir) : dir :=
  Dir name files subdirs true true.

Definition fs0 : dir :=
  folder "" []
    [folder "C:" []
       [folder "Users" []
          [folder "me" []
             [folder "AppData" []
                [folder "Local" []
                   [folder "Temp" [old_log; locked_db; fresh_tmp]
                      [folder "cache" [cache_bin] []]]]]];
        folder "Windows" [] [folder "Temp" [] []]]].

Definition vlc : reg_value := (RegStr "C:\Program Files\vlc\vlc.exe --tray", 1).

Definition registry0 : registry :=
  {| hkcu := {[ RUN_KEY := {[ "vlc" := vlc ]} ]};
     hklm := {[ RUN_KEY := ∅ ]} |}.

Definition machine0 : machine :=
  {| active_scheme := Balanced; ultimate_listed := false; query_works := true |}.

Definition world0 : world machine :=
  {| w_machine := machine0; w_commands := []; w_log := []; w_log_faults := [];
     w_state := None; w_fs := fs0; w_ticks := 0; w_registry := registry0;
     w_env := env0 |}.

(** The world after one [enable_ultimate]. *)
Definition world_enabled : world machine := (enable_ultimate spawn world0).2.

(** A machine whose [/getactivescheme] fails, next to an empty state
    directory. *)
Definition world_blind : world machine :=
  {| w_machine := {| active_scheme := Balanced; ultimate_listed := true;
                     query_works := false |};
     w_commands := []; w_log := []; w_log_faults := [];
     w_state := None; w_fs := fs0; w_ticks := 0; w_registry := registry0;
     w_env := env0 |}.

Definition world_blind_enabled : world machine :=
  (enable_ultimate spawn world_blind).2.

(** A [main] that enables the Ultimate scheme and stops. *)
Definition main_enable : world machine -> result unit * world machine :=
  M_bind bool unit (λ _, pass) (enable_ultimate spawn).

(** The same machine when the log directory cannot be created. *)
Definition world_no_log_dir : world machine :=
  {| w_machine := machine0; w_commands := []; w_log := []; w_log_faults := [];
     w_state := None; w_fs := fs0; w_ticks := 0; w_registry := registry0;
     w_env := {| clock := clock env0; env_TEMP := env_TEMP env0;
                 gettempdir := gettempdir env0; home := home env0;
                 log_dir_creatable := false; state_readable := true;
                 state_writable := true; winreg_importable := true |} |}.

End Toy.

(** ** The loader, continued: visual effects and the startup list *)

Section LoaderMore.

Context {Machine : Type}.

#[local] Existing Instance M_ret.
#[local] Existing Instance M_bind.

(** *** Visual effects (lines 107-118) *)

Definition VISUAL_EFFECTS_KEY : string :=
  "Software\Microsoft\Windows\CurrentVersion\Explorer\VisualEffects".

(** [winreg.REG_DWORD] *)
Definition REG_DWORD : Z := 4.

Definition set_visual_fx_best_performance : M (Machine := Machine) bool :=
  λ w,
    if negb (winreg_importable (w_env w)) then (Ok false, w)
    else
      try_except
        (key ← CreateKey HKEY_CURRENT_USER VISUAL_EFFECTS_KEY;
         SetValueEx key "VisualFXSetting" REG_DWORD (RegInt 2);;
         mret true)
        (λ _, mret false) w.

(** *** The startup list (lines 213-236) *)

(** One listed entry: hive tag, key path, value name, value data. *)
Definition item : Type := (string * string * string * reg_data)%type.

(** The classes [except OSError] catches. *)
Definition is_OSError (c : exn_class) : bool :=
  match c with
  | FileNotFoundError | PermissionError | OSError => true
  | _ => false
  end.

(** ["HKCU" if hive==winreg.HKEY_CURRENT_USER else "HKLM"] *)
Definition hive_tag (h : hive) : string :=
  match h with
  | HKEY_CURRENT_USER => "HKCU"
  | HKEY_LOCAL_MACHINE => "HKLM"
  end.

(** The values of a key in the order [EnumValue] numbers them; the
    order is fixed by the content of the key. *)
Definition enumeration (values : gmap string reg_value)
  : list (string * reg_value) := map_to_list values.

Definition EnumValue (k : hkey) (index : nat)
  : M (Machine := Machine) (string * reg_data * Z) :=
  λ w, match hive_keys k.1 (w_registry w) !! k.2 with
       | Some values =>
           match enumeration values !! index with
           | Some (name, (data, vtype)) => (Ok (name, data, vtype), w)
           | None => (Raise (Exn OSError "No more data is available"), w)
           end
       | None => not_found w
       end.

(** How many values [EnumValue] can still deliver from index [i] on. *)
Definition values_left (k : hkey) (w : world Machine) (i : nat) : nat :=
  match hive_keys k.1 (w_registry w) !! k.2 with
  | Some values => length (enumeration values) - i
  | None => 0
  end.

Definition inspect {A : Type} (a : A) : {b : A | a = b} := exist _ a eq_refl.

(** The [while True] loop of lines 227-233, entered with index [i];
    it ends because every successful [EnumValue] leaves one value
    fewer to deliver. *)
Equations? enum_loop (tag path : string) (key : hkey) (i : nat)
  (items : list item) (w : world Machine)
  : result (list item) * world Machine by wf (values_left key w i) lt :=
  enum_loop tag path key i items w with inspect (EnumValue key i w) := {
    | exist _ (Ok (name, value, _), w') _ =>
        enum_loop tag path key (S i) (items ++ [(tag, path, name, value)]) w'
    | exist _ (Raise e, w') _ =>
        if is_OSError (exn_cls e) then (Ok items, w') else (Raise e, w') }.
Proof.
  unfold EnumValue, values_left in *.
  destruct (hive_keys key.1 (w_registry w) !! key.2) as [values|] eqn:Hk;
    [|discriminate].
  destruct (enumeration values !! i) as [[n [d t]]|] eqn:Hi; [|discriminate].
  injection e as <- <- <- <-. rewrite Hk.
  apply lookup_lt_Some in Hi. unfold reg_value in *. lia.
Qed.

(** The body of the [for] loop over [pairs] for one pair. *)
Definition enum_hive (h : hive) (path : string) (items : list item)
  : M (Machine := Machine) (list item) :=
  try_except_not_found
    (key ← OpenKey h path; enum_loop (hive_tag h) path key 0 items)
    (mret items).

Fixpoint enum_pairs (pairs : list (hive * string)) (items : list item)
  : M (Machine := Machine) (list item) :=
  match pairs with
  | [] => mret items
  | (h, path) :: rest =>
      items' ← enum_hive h path items; enum_pairs rest items'
  end.

Definition list_startup_items : M (Machine := Machine) (list item) :=
  λ w,
    if negb (winreg_importable (w_env w)) then (Ok [], w)
    else enum_pairs [(HKEY_CURRENT_USER, RUN_KEY);
                     (HKEY_LOCAL_MACHINE, RUN_KEY)] [] w.

End LoaderMore.

(** ** The registry calls when the system can refuse them

    The registry calls above go through whenever the key or value
    they need is there, as for the elevated process the loader asks
    to be.  Here the system may refuse any call, with the exception
    it raises in [winreg], before the call changes anything; what it
    refuses may depend on the registry at that moment. *)

Inductive access : Type :=
  | KeyOpen (h : hive) (sub_key : string)
  | KeyOpenSetValue (h : hive) (sub_key : string)
  | KeyCreate (h : hive) (sub_key : string)
  | ValueQuery (k : hkey) (name : string)
  | ValueSet (k : hkey) (name : string)
  | ValueDelete (k : hkey) (name : string).

Module Guarded.
Section Guarded.

Context {Machine : Type}.
Variable refused : access -> registry -> option exn.

#[local] Existing Instance M_ret.
#[local] Existing Instance M_bind.

Definition check (a : access) : M (Machine := Machine) unit :=
  λ w, match refused a (w_registry w) with
       | Some e => (Raise e, w)
       | None => (Ok tt, w)
       end.

(** [winreg.OpenKey(hive, sub_key, 0, winreg.KEY_SET_VALUE)] *)
Definition OpenKey_set_value (h : hive) (sub_key : string)
  : M (Machine := Machine) hkey :=
  check (KeyOpenSetValue h sub_key);; OpenKey h sub_key.

(** [winreg.OpenKey(hive, sub_key)] *)
Definition OpenKey (h : hive) (sub_key : string)
  : M (Machine := Machine) hkey :=
  check (KeyOpen h sub_key);; OpenKey h sub_key.

Definition CreateKey (h : hive) (sub_key : string)
  : M (Machine := Machine) hkey :=
  check (KeyCreate h sub_key);; CreateKey h sub_key.

Definition QueryValueEx (k : hkey) (name : string)
  : M (Machine := Machine) reg_value :=
  check (ValueQuery k name);; QueryValueEx k name.

Definition SetValueEx (k : hkey) (name : string) (vtype : Z)
  (value : reg_data) : M (Machine := Machine) unit :=
  check (ValueSet k name);; SetValueEx k name vtype value.

Definition DeleteValue (k : hkey) (name : string)
  : M (Machine := Machine) unit :=
  check (ValueDelete k name);; DeleteValue k name.

(** Lines 249-253. *)
Definition find_value (hive : hive) (src name : string)
  : M (Machine := Machine) (option reg_value) :=
  try_except_not_found
    (src_key ← OpenKey hive src;
     v ← QueryValueEx src_key name;
     mret (Some v))
    (mret None).

(** Lines 249-257. *)
Definition move_value (hive : hive) (src dst name : string)
  : M (Machine := Machine) bool :=
  found ← find_value hive src name;
  match found with
  | None => mret false
  | Some (value, vtype) =>
      dst_key ← CreateKey hive dst;
      SetValueEx dst_key name vtype value;;
      del_key ← OpenKey_set_value hive src;
      DeleteValue del_key name;;
      mret true
  end.

(** Lines 239-257. *)
Definition toggle_startup (name hive_str : string) (disable : bool)
  : M (Machine := Machine) bool :=
  λ w,
    if negb (winreg_importable (w_env w)) then (Ok false, w)
    else
      let hive := hive_of hive_str in
      let base := RUN_KEY in
      let backup := SHADOW_KEY in
      let src := if negb disable then backup else base in
      let dst := if negb disable then base else backup in
      move_value hive src dst name w.

(** Lines 107-118. *)
Definition set_visual_fx_best_performance : M (Machine := Machine) bool :=
  λ w,
    if negb (winreg_importable (w_env w)) then (Ok false, w)
    else
      try_except
        (key ← CreateKey HKEY_CURRENT_USER VISUAL_EFFECTS_KEY;
         SetValueEx key "VisualFXSetting" REG_DWORD (RegInt 2);;
         mret true)
        (λ _, mret false) w.

End Guarded.
End Guarded.

(** ** Vocabulary of the statements, continued *)

#[global] Instance hive_eq_dec : EqDecision hive.
Proof. solve_decision. Defined.

Section VocabularyMore.

Context {Machine : Type}.

(** The data and type stored under value [name] of key [k] of hive
    [h]; [None] when the key or the value is missing. *)
Definition value_at (h : hive) (k name : string) (w : world Machine)
  : option reg_value :=
  match key_values h k w with
  | Some values => values !! name
  | None => None
  end.

(** The world [w] with key [k] of hive [h] holding exactly [vals]. *)
Definition key_write (h : hive) (k : string) (vals : gmap string reg_value)
  (w : world Machine) : world Machine :=
  set_registry
    (set_hive_keys h (<[k := vals]> (hive_keys h (w_registry w)))
                   (w_registry w)) w.

(** The listed entry for one enumerated value. *)
Definition entry (tag path : string) (x : string * reg_value) : item :=
  (tag, path, x.1, x.2.1).

(** The entries listed for the Run key of one hive. *)
Definition hive_entries (h : hive) (w : world Machine) : list item :=
  match key_values h RUN_KEY w with
  | Some values => map (entry (hive_tag h) RUN_KEY) (enumeration values)
  | None => []
  end.

(** What [list_startup_items] returns in world [w]. *)
Definition listed (w : world Machine) : list item :=
  match (list_startup_items w).1 with
  | Ok items => items
  | Raise _ => []
  end.

(** The value [set_visual_fx_best_performance] writes. *)
Definition BEST_PERFORMANCE : reg_value := (RegInt 2, REG_DWORD).

(** The key [toggle_startup] takes the value from, and the one it puts
    it in (lines 247-248). *)
Definition toggle_src (disable : bool) : string :=
  if disable then RUN_KEY else SHADOW_KEY.

Definition toggle_dst (disable : bool) : string :=
  if disable then SHADOW_KEY else RUN_KEY.

(** The lines [run] writes after the command line, for each way the
    launch can end. *)
Definition outcome_lines (r : result completed) : list log_entry :=
  match r with
  | Ok p =>
      (if PyStr.nonempty (stdout p)
       then [LStdout (PyStr.strip (stdout p))] else [])
      ++ (if PyStr.nonempty (stderr p)
          then [LStderr (PyStr.strip (stderr p))] else [])
  | Raise e =>
      match exn_cls e with
      | TimeoutExpired => [LTimeout]
      | _ => [LError (exn_text e)]
      end
  end.

(** Is the Ultimate scheme found in what [/list] printed (line 76). *)
Definition ultimate_listed_in (r : Z * string * string) : bool :=
  let '(rc, out, err) := r in
  PyStr.contains (PyStr.lower POWER_ULTIMATE_GUID) (PyStr.lower (out +:+ err)).

(** The bytes held by a list of files, and by a whole tree. *)
Definition files_size (files : list file) : Z :=
  foldr (λ f acc, f_size f + acc) 0 files.

Fixpoint tree_size (d : dir) : Z :=
  match d with
  | Dir _ files subdirs _ _ =>
      files_size files
      + (fix sum (l : list dir) : Z :=
           match l with
           | [] => 0
           | c :: l' => tree_size c + sum l'
           end) subdirs
  end.

Definition trees_size (l : list dir) : Z :=
  foldr (λ c acc, tree_size c + acc) 0 l.

End VocabularyMore.

(** ** More worlds of the small machine *)

Module ToyMore.

(** The world after the entry "vlc" of the current user is disabled. *)
Definition world_vlc_disabled : world Toy.machine :=
  (toggle_startup "vlc" "HKCU" true Toy.world0).2.

(** A state file that holds no saved scheme. *)
Definition notes : string :=
  "# power state" +:+ String PyStr.LF "scheme=381b4222".

Definition world_notes : world Toy.machine :=
  set_state (Some notes) Toy.world0.

(** A state file with two saved schemes, the second padded with
    blanks, and a trailing note. *)
Definition padded : string :=
  " " +:+ Toy.guid_of Toy.HighPerformance +:+ "  ".

Definition two_saves : string :=
  "previous_scheme=" +:+ Toy.guid_of Toy.Balanced
  +:+ String PyStr.LF ("previous_scheme=" +:+ padded)
  +:+ String PyStr.LF "note".

Definition world_two_saves : world Toy.machine :=
  set_state (Some two_saves) Toy.world0.

(** A machine with an empty disk. *)
Definition world_bare : world Toy.machine :=
  set_fs (Toy.folder "" [] []) Toy.world0.

(** The same machine ten days after the epoch. *)
Definition world_day_ten : world Toy.machine :=
  {| w_machine := Toy.machine0; w_commands := []; w_log := [];
     w_log_faults := []; w_state := None; w_fs := Toy.fs0; w_ticks := 0;
     w_registry := Toy.registry0;
     w_env := {| clock := λ _, inject_Z 864000;
                 env_TEMP := env_TEMP Toy.env0;
                 gettempdir := gettempdir Toy.env0; home := home Toy.env0;
                 log_dir_creatable := true; state_readable := true;
                 state_writable := true; winreg_importable := true |} |}.

(** A [powercfg] that takes its arguments in any letter case. *)
Definition spawn_any_case (cmd : list string) (shell : bool) (timeout : Z)
  (m : Toy.machine) : result completed * Toy.machine :=
  Toy.spawn (map PyStr.lower cmd) shell timeout m.

Definition denied : exn := Exn PermissionError "[WinError 5] Access is denied".

(** A system that lets values be written but not deleted, and one
    that lets keys be created but no value be set. *)
Definition no_delete (a : access) (r : registry) : option exn :=
  match a with
  | ValueDelete _ _ => Some denied
  | _ => None
  end.

Definition no_set (a : access) (r : registry) : option exn :=
  match a with
  | ValueSet _ _ => Some denied
  | _ => None
  end.

End ToyMore.

(** * Properties of the string functions *)

Module PyStrFacts.
Import PyStr.

Lemma append_assoc (a b c : string) : (a +:+ b) +:+ c = a +:+ (b +:+ c).
Proof. induction a as [|x a IH]; simpl; [reflexivity | now rewrite IH]. Qed.

Lemma append_empty_r (a : string) : a +:+ "" = a.
Proof. induction a as [|x a IH]; simpl; [reflexivity | now rewrite IH]. Qed.

Lemma guid_char_not_space (c : ascii) : guid_char c = true -> is_space c = false.
Proof. destruct c as [[] [] [] [] [] [] [] []]; vm_compute; congruence. Qed.

Lemma guid_char_not_linebreak (c : ascii) :
  guid_char c = true -> is_linebreak c = false.
Proof. destruct c as [[] [] [] [] [] [] [] []]; vm_compute; congruence. Qed.

Lemma all_chars_impl (p q : ascii -> bool) (s : string) :
  (forall c, p c = true -> q c = true) ->
  all_chars p s = true -> all_chars q s = true.
Proof.
  intros Hpq. induction s as [|c s IH]; simpl; [reflexivity|].
  rewrite !andb_true_iff. intros [Hc Hs]. split; auto.
Qed.

Lemma drop_prefix_sound (p s r : string) : drop_prefix p s = Some r -> s = p +:+ r.
Proof.
  revert s. induction p as [|a p IH]; intros [|b s]; simpl; try congruence.
  destruct (Ascii.eqb_spec a b) as [->|]; [|congruence].
  intros H. now rewrite (IH _ H).
Qed.

Lemma drop_prefix_app (p r : string) : drop_prefix p (p +:+ r) = Some r.
Proof.
  induction p as [|a p IH]; simpl; [now destruct r|].
  now rewrite Ascii.eqb_refl.
Qed.

Lemma lstrip_split (s : string) :
  exists ws, s = ws +:+ lstrip s /\ all_chars is_space ws = true.
Proof.
  induction s as [|c s (ws & Hs & Hws)]; simpl.
  - exists "". auto.
  - destruct (is_space c) eqn:Hc.
    + exists (String c ws). simpl. rewrite Hc, Hws. split; [congruence | reflexivity].
    + exists "". auto.
Qed.

Lemma lstrip_app_spaces (ws s : string) :
  all_chars is_space ws = true -> lstrip (ws +:+ s) = lstrip s.
Proof.
  induction ws as [|c ws IH]; simpl; [reflexivity|].
  rewrite andb_true_iff. intros [-> Hws]. auto.
Qed.

Lemma take_class_sound (n : nat) (s g : string) :
  take_class n s = Some g ->
  exists post, s = g +:+ post /\ String.length g = n /\
               all_chars guid_char g = true.
Proof.
  revert s g. induction n as [|n IH]; intros s g; simpl.
  - intros [= <-]. exists s. auto.
  - destruct s as [|c s]; [congruence|].
    destruct (guid_char c) eqn:Hc; [|congruence].
    destruct (take_class n s) as [g'|] eqn:Hg; simpl; [|congruence].
    intros [= <-]. destruct (IH _ _ Hg) as (post & -> & Hlen & Hall).
    exists post. simpl. rewrite Hc, Hall, Hlen. auto.
Qed.

Lemma take_class_app (g post : string) :
  all_chars guid_char g = true ->
  take_class (String.length g) (g +:+ post) = Some g.
Proof.
  induction g as [|c g IH]; simpl; [reflexivity|].
  rewrite andb_true_iff. intros [-> Hg]. now rewrite (IH Hg).
Qed.

(** A match anchored at [s] has the shape the pattern describes. *)
Lemma match_at_sound (s g : string) :
  match_at s = Some g ->
  exists ws post, s = "GUID:" +:+ ws +:+ g +:+ post /\
    all_chars is_space ws = true /\ String.length g = 36%nat /\
    all_chars guid_char g = true.
Proof.
  unfold match_at. destruct (drop_prefix "GUID:" s) as [r|] eqn:Hr; [|discriminate].
  cbn [mbind option_bind]. intros Hg.
  apply drop_prefix_sound in Hr.
  destruct (take_class_sound _ _ _ Hg) as (post & Hpost & Hlen & Hall).
  destruct (lstrip_split r) as (ws & Hws & Hsp).
  exists ws, post. rewrite <- Hpost, <- Hws. auto.
Qed.

(** Anything of that shape is matched, with that capture. *)
Lemma match_at_complete (ws g post : string) :
  all_chars is_space ws = true -> String.length g = 36%nat ->
  all_chars guid_char g = true ->
  match_at ("GUID:" +:+ ws +:+ g +:+ post) = Some g.
Proof.
  intros Hws Hlen Hg. unfold match_at.
  change ("GUID:" +:+ ws +:+ g +:+ post) with ("GUID:" +:+ (ws +:+ g +:+ post)).
  rewrite drop_prefix_app. cbn [mbind option_bind].
  rewrite (lstrip_app_spaces _ _ Hws).
  assert (lstrip (g +:+ post) = g +:+ post) as ->.
  { destruct g as [|c g]; [discriminate|]. simpl in *.
    apply andb_true_iff in Hg as [Hc _].
    now rewrite (guid_char_not_space _ Hc). }
  rewrite <- Hlen. now apply take_class_app.
Qed.

Lemma re_search_guid_sound (s g : string) :
  re_search_guid s = Some g ->
  exists pre rest, s = pre +:+ rest /\ match_at rest = Some g.
Proof.
  induction s as [|c s IH]; cbn [re_search_guid].
  - intros H. vm_compute in H. discriminate.
  - destruct (match_at (String c s)) as [g'|] eqn:Hm.
    + intros [= <-]. exists "", (String c s). auto.
    + intros H. destruct (IH H) as (pre & rest & -> & Hr).
      exists (String c pre), rest. auto.
Qed.

Lemma re_search_guid_complete (pre rest g : string) :
  match_at rest = Some g -> is_Some (re_search_guid (pre +:+ rest)).
Proof.
  intros Hm. induction pre as [|c pre IH]; cbn [String.append re_search_guid].
  - destruct rest; cbn [re_search_guid]; rewrite Hm; eauto.
  - destruct (match_at (String c (pre +:+ rest))); eauto.
Qed.

Lemma lstrip_id (s : string) :
  all_chars (λ c, negb (is_space c)) s = true -> lstrip s = s.
Proof.
  destruct s as [|c s]; simpl; [reflexivity|].
  rewrite andb_true_iff, negb_true_iff. now intros [-> _].
Qed.

Lemma rstrip_id (s : string) :
  all_chars (λ c, negb (is_space c)) s = true -> rstrip s = s.
Proof.
  induction s as [|c s IH]; simpl; [reflexivity|].
  rewrite andb_true_iff, negb_true_iff. intros [Hc Hs].
  rewrite (IH Hs), Hc. now destruct s.
Qed.

Lemma strip_id (s : string) :
  all_chars (λ c, negb (is_space c)) s = true -> strip s = s.
Proof. intros H. unfold strip. rewrite (rstrip_id _ H). now apply lstrip_id. Qed.

(** A text without line boundaries, closed by a line feed, is one line. *)
Lemma splitlines_one_line (s : string) :
  all_chars (λ c, negb (is_linebreak c)) s = true ->
  splitlines (s +:+ String LF "") = [s].
Proof.
  induction s as [|c s IH]; simpl; [reflexivity|].
  rewrite andb_true_iff, negb_true_iff. intros [-> Hs].
  now rewrite (IH Hs).
Qed.

Lemma guid_nonempty (g : string) : String.length g = 36%nat -> nonempty g = true.
Proof. now destruct g. Qed.

End PyStrFacts.

(** * Properties of the prime-counting loops *)

Lemma trial_division_step (i j : Z) :
  trial_division i j =
    if j * j <=? i
    then (if i mod j =? 0 then false else trial_division i (j + 1))
    else true.
Proof.
  rewrite trial_division_equation_1.
  destruct (Z_le_dec (j * j) i) as [H|H]; simpl;
    destruct (Z.leb_spec (j * j) i); try lia; reflexivity.
Qed.

(** The [while] loop entered at [j] leaves [prime] true exactly when no
    [d] from [j] up to the square root divides [i]. *)
Lemma trial_division_true (i j : Z) :
  2 <= j ->
  trial_division i j = true <->
  (forall d, j <= d -> d * d <= i -> i mod d <> 0).
Proof.
  intros Hj.
  remember (Z.to_nat (i + 1 - j)) as k eqn:Hk.
  revert j Hj Hk. induction k as [k IH] using lt_wf_ind. intros j Hj Hk.
  rewrite trial_division_step.
  destruct (Z.leb_spec (j * j) i) as [Hle|Hgt].
  - destruct (Z.eqb_spec (i mod j) 0) as [Hdiv|Hndiv].
    + split; [discriminate|]. intros H. now destruct (H j ltac:(lia) Hle).
    + rewrite (IH (Z.to_nat (i + 1 - (j + 1)))); [| nia | lia | reflexivity].
      split; intros H d Hd Hdd.
      * destruct (Z.eq_dec d j) as [->|]; [exact Hndiv | apply H; lia].
      * apply H; lia.
  - split; [|reflexivity]. intros _ d Hd Hdd. nia.
Qed.

(** Divisors up to the square root are enough. *)
Lemma no_small_divisor_prime (i : Z) :
  1 < i ->
  (forall d, 2 <= d -> d * d <= i -> i mod d <> 0) <-> Z.prime i.
Proof.
  intros Hi. split.
  - intros H. split; [exact Hi|]. intros n Hn [k Hk].
    assert (1 < k < i) by nia.
    destruct (Z_le_gt_dec (n * n) i) as [Hnn|Hnn].
    + apply (H n); [lia | exact Hnn |]. subst i. apply Z.mod_mul. lia.
    + apply (H k); [lia | nia |]. subst i. rewrite Z.mul_comm. apply Z.mod_mul. lia.
  - intros [_ H] d Hd Hdd Hmod. apply (H d); [nia|].
    apply Z.mod_divide; [lia | exact Hmod].
Qed.

Lemma trial_division_prime (i : Z) :
  1 < i -> trial_division i 2 = true <-> Z.prime i.
Proof.
  intros Hi. rewrite trial_division_true by lia.
  now apply no_small_divisor_prime.
Qed.

Lemma count_loop_primes (l : list Z) (count : Z) :
  Forall (λ i, 1 < i) l ->
  count_loop l count = count + Z.of_nat (length (filter Z.prime l)).
Proof.
  intros Hl. revert count.
  induction Hl as [|i l Hi Hl IH]; intros count; simpl; [lia|].
  rewrite IH, filter_cons.
  destruct (trial_division i 2) eqn:Ht.
  - apply (trial_division_prime i Hi) in Ht.
    rewrite decide_True by exact Ht. simpl. lia.
  - rewrite decide_False; [lia|].
    intros Hp. apply (trial_division_prime i Hi) in Hp. congruence.
Qed.

Lemma count_primes_correct (n : Z) :
  count_primes n = Z.of_nat (length (filter Z.prime (range 2 n))).
Proof.
  unfold count_primes. rewrite count_loop_primes; [lia|].
  apply Forall_forall. intros i Hi.
  apply elem_of_seqZ in Hi. lia.
Qed.

(** * Properties of the walk *)

Lemma deleted_bytes_app (a b : list visit) :
  deleted_bytes (a ++ b) = deleted_bytes a + deleted_bytes b.
Proof.
  induction a as [|v a IH]; simpl; [reflexivity|].
  destruct (v_outcome v); lia.
Qed.

Lemma run_ok_app (cutoff : option Q) (f0 f1 f2 : Z) (vs1 vs2 : list visit)
  (e1 e2 : list file) :
  run_ok cutoff f0 f1 vs1 e1 -> run_ok cutoff f1 f2 vs2 e2 ->
  run_ok cutoff f0 f2 (vs1 ++ vs2) (e1 ++ e2).
Proof.
  intros (-> & H1 & <-) (-> & H2 & <-). split; [|split].
  - rewrite deleted_bytes_app. lia.
  - now apply Forall_app.
  - apply map_app.
Qed.

Lemma clean_files_ok (cutoff : option Q) (root : path) (files : list file)
  (freed : Z) :
  let r := clean_files cutoff root files freed in
  run_ok cutoff freed r.1.2 r.2 files.
Proof.
  revert freed. induction files as [|f files IH]; intros freed; simpl.
  - split; [simpl; lia | split; [constructor | reflexivity]].
  - destruct (delete_attempt cutoff f) as [[|sz]|e] eqn:Hd;
      [specialize (IH freed) | specialize (IH (freed + sz)) | specialize (IH freed)];
      destruct (clean_files cutoff root files _) as [[kept freed'] vs];
      simpl in *; destruct IH as (-> & Hvs & <-);
      (split; [simpl; lia | split; [|reflexivity]]);
      constructor; simpl; rewrite ?Hd; auto.
Qed.

Lemma walk_clean_step (cutoff : option Q) (root : path) (name : string)
  (files : list file) (subdirs : list dir) (listable removable : bool)
  (freed : Z) :
  walk_clean cutoff root (Dir name files subdirs listable removable) freed =
    if negb listable
    then (Dir name files subdirs listable removable, freed, [])
    else
      let '(subdirs', freed1, vs1) := walk_subdirs cutoff root subdirs freed in
      let '(files', freed2, vs2) := clean_files cutoff root files freed1 in
      (Dir name files' (remove_subdirs subdirs') listable removable,
       freed2, vs1 ++ vs2).
Proof. reflexivity. Qed.

Lemma walk_clean_ok (cutoff : option Q) (d : dir) :
  forall (root : path) (freed : Z),
    let r := walk_clean cutoff root d freed in
    run_ok cutoff freed r.1.2 r.2 (all_files d).
Proof.
  induction d as [name files subdirs listable removable IH] using dir_tree_ind.
  intros root freed. rewrite walk_clean_step. cbn [all_files].
  destruct listable; cbn [negb].
  - assert (Hsub : let r := walk_subdirs cutoff root subdirs freed in
              run_ok cutoff freed r.1.2 r.2 (concat (map all_files subdirs))).
    { clear files. revert freed.
      induction IH as [|c l Hc _ IHl]; intros freed.
      - split; [simpl; lia | split; [constructor | reflexivity]].
      - cbn [walk_subdirs map concat].
        specialize (Hc (root ++ [d_name c]) freed).
        destruct (walk_clean cutoff (root ++ [d_name c]) c freed)
          as [[c' freed1] vs1].
        specialize (IHl freed1).
        destruct (walk_subdirs cutoff root l freed1) as [[l' freed2] vs2].
        cbn [fst snd] in *. eapply run_ok_app; eassumption. }
    destruct (walk_subdirs cutoff root subdirs freed) as [[subdirs' freed1] vs1].
    pose proof (clean_files_ok cutoff root files freed1) as Hfiles.
    destruct (clean_files cutoff root files freed1) as [[files' freed2] vs2].
    cbn [fst snd] in *. eapply run_ok_app; eassumption.
  - split; [simpl; lia | split; [constructor | reflexivity]].
Qed.

Lemma clean_targets_ok (cutoff : option Q) (targets : list path) :
  forall (fs : dir) (freed : Z),
    let r := clean_targets cutoff targets fs freed in
    run_ok cutoff freed r.1.2 r.2 (map v_file r.2).
Proof.
  induction targets as [|t targets IH]; intros fs freed; cbn [clean_targets].
  - split; [simpl; lia | split; [constructor | reflexivity]].
  - destruct (lookup_dir t fs) as [d|]; [|apply IH].
    pose proof (walk_clean_ok cutoff d t freed) as Hd.
    destruct (walk_clean cutoff t d freed) as [[d' freed1] vs1].
    specialize (IH (replace_dir t d' fs) freed1).
    destruct (clean_targets cutoff targets _ freed1) as [[fs' freed2] vs2].
    cbn [fst snd] in *. rewrite map_app.
    destruct Hd as (Hd1 & Hd2 & _).
    eapply run_ok_app; [|eassumption]. now split.
Qed.

(** *** Every file below a target is visited *)

Lemma clean_files_entries (cutoff : option Q) (root : path)
  (files : list file) (freed : Z) :
  map v_entry (clean_files cutoff root files freed).2
    = map (λ f, (root ++ [f_name f], f)) files.
Proof.
  revert freed. induction files as [|f files IH]; intros freed;
    cbn [clean_files]; [reflexivity|].
  destruct (delete_attempt cutoff f) as [[|sz]|e];
    [specialize (IH freed) | specialize (IH (freed + sz)) | specialize (IH freed)];
    destruct (clean_files cutoff root files _) as [[kept freed'] vs];
    cbn [snd map] in *; now rewrite IH.
Qed.

Lemma walk_clean_entries (cutoff : option Q) (d : dir) :
  forall (root : path) (freed : Z),
    map v_entry (walk_clean cutoff root d freed).2 = all_entries root d.
Proof.
  induction d as [name files subdirs listable removable IH] using dir_tree_ind.
  intros root freed. rewrite walk_clean_step. cbn [all_entries].
  destruct listable; cbn [negb]; [|reflexivity].
  assert (Hsub : map v_entry (walk_subdirs cutoff root subdirs freed).2
                 = concat (map (λ c, all_entries (root ++ [d_name c]) c)
                               subdirs)).
  { clear files. revert freed.
    induction IH as [|c l Hc _ IHl]; intros freed; [reflexivity|].
    cbn [walk_subdirs map concat].
    specialize (Hc (root ++ [d_name c]) freed).
    destruct (walk_clean cutoff (root ++ [d_name c]) c freed)
      as [[c' freed1] vs1].
    specialize (IHl freed1).
    destruct (walk_subdirs cutoff root l freed1) as [[l' freed2] vs2].
    cbn [fst snd] in *. now rewrite map_app, Hc, IHl. }
  destruct (walk_subdirs cutoff root subdirs freed) as [[subdirs' freed1] vs1].
  pose proof (clean_files_entries cutoff root files freed1) as Hfiles.
  destruct (clean_files cutoff root files freed1) as [[files' freed2] vs2].
  cbn [fst snd] in *. now rewrite map_app, Hsub, Hfiles.
Qed.

Lemma walk_clean_name (cutoff : option Q) (root : path) (d : dir) (freed : Z) :
  d_name (walk_clean cutoff root d freed).1.1 = d_name d.
Proof.
  destruct d as [name files subdirs listable removable].
  rewrite walk_clean_step. destruct listable; cbn [negb]; [|reflexivity].
  destruct (walk_subdirs cutoff root subdirs freed) as [[subdirs' freed1] vs1].
  now destruct (clean_files cutoff root files freed1) as [[files' freed2] vs2].
Qed.

(** A directory in which something can still be found is not empty,
    so [rmdir] leaves it. *)
Lemma rmdir_keeps (c : dir) (t : path) (d : dir) (root : path)
  (e : path * file) :
  lookup_dir t c = Some d -> In e (all_entries root d) ->
  exists x, rmdir c = Raise x.
Proof.
  intros Hl He. unfold rmdir. destruct t as [|n t]; cbn [lookup_dir] in Hl.
  - injection Hl as <-.
    destruct c as [name files subdirs listable removable].
    cbn [all_entries d_files d_subdirs] in *.
    destruct files, subdirs; eauto.
    destruct listable; destruct He.
  - destruct (d_files c), (d_subdirs c); eauto. discriminate.
Qed.

(** What lay below [d0] at the path [t] before the walk of [d0] was
    either visited by it or lies there afterwards. *)
Lemma walk_clean_covers (cutoff : option Q) (d0 : dir) :
  forall (root : path) (freed : Z) (t : path) (d : dir) (e : path * file),
    lookup_dir t d0 = Some d -> In e (all_entries (root ++ t) d) ->
    In e (map v_entry (walk_clean cutoff root d0 freed).2) \/
    exists d', lookup_dir t (walk_clean cutoff root d0 freed).1.1 = Some d' /\
               In e (all_entries (root ++ t) d').
Proof.
  induction d0 as [name files subdirs listable removable IH] using dir_tree_ind.
  intros root freed t d e Hl He. destruct t as [|n t].
  { injection Hl as <-. left. rewrite walk_clean_entries.
    now rewrite app_nil_r in He. }
  cbn [lookup_dir d_subdirs] in Hl.
  destruct (List.find (named n) subdirs) as [c|] eqn:Hc;
    cbn [mbind option_bind] in Hl; [|discriminate].
  rewrite walk_clean_step. destruct listable; cbn [negb].
  2:{ right. exists d. cbn [fst lookup_dir d_subdirs]. rewrite Hc. now split. }
  assert (Hsub :
    In e (map v_entry (walk_subdirs cutoff root subdirs freed).2) \/
    exists c' d',
      List.find (named n)
        (remove_subdirs (walk_subdirs cutoff root subdirs freed).1.1) = Some c' /\
      lookup_dir t c' = Some d' /\ In e (all_entries (root ++ n :: t) d')).
  { clear files. revert freed.
    induction IH as [|x l Hx _ IHl]; intros freed; [discriminate|].
    cbn [walk_subdirs]. cbn [List.find] in Hc.
    pose proof (walk_clean_name cutoff (root ++ [d_name x]) x freed) as Hname.
    specialize (Hx (root ++ [d_name x]) freed t d e).
    destruct (walk_clean cutoff (root ++ [d_name x]) x freed)
      as [[x' freed1] vs1].
    cbn [fst snd] in Hname, Hx.
    destruct (named n x) eqn:Hnx.
    - injection Hc as <-.
      assert (Hn : d_name x = n) by now apply String.eqb_eq.
      rewrite Hn, <- app_assoc in Hx. cbn [app] in Hx.
      destruct (Hx Hl He) as [Hv|(d' & Hl' & He')].
      + left. destruct (walk_subdirs cutoff root l freed1) as [[l' freed2] vs2].
        cbn [snd]. rewrite map_app. apply in_or_app. now left.
      + right. exists x', d'.
        destruct (walk_subdirs cutoff root l freed1) as [[l' freed2] vs2].
        cbn [fst snd remove_subdirs].
        destruct (rmdir_keeps x' t d' _ e Hl' He') as (ex & ->).
        cbn [List.find]. unfold named in *. rewrite Hname, Hnx. auto.
    - specialize (IHl Hc freed1).
      destruct (walk_subdirs cutoff root l freed1) as [[l' freed2] vs2].
      cbn [fst snd] in *.
      destruct IHl as [Hv|(c' & d' & Hf & Hl' & He')].
      + left. rewrite map_app. apply in_or_app. now right.
      + right. exists c', d'. split; [|now split].
        cbn [remove_subdirs]. destruct (rmdir x'); [exact Hf|].
        cbn [List.find]. unfold named in *. now rewrite Hname, Hnx. }
  destruct (walk_subdirs cutoff root subdirs freed) as [[subdirs' freed1] vs1].
  destruct (clean_files cutoff root files freed1) as [[files' freed2] vs2].
  cbn [fst snd] in *.
  destruct Hsub as [Hv|(c' & d' & Hf & Hl' & He')].
  - left. rewrite map_app. apply in_or_app. now left.
  - right. exists d'. cbn [lookup_dir d_subdirs]. rewrite Hf. now split.
Qed.

Lemma replace_dir_name (t : path) :
  forall (c d new : dir),
    lookup_dir t c = Some d -> d_name new = d_name d ->
    d_name (replace_dir t new c) = d_name c.
Proof.
  destruct t as [|n t]; intros c d new Hl Hn; cbn [replace_dir lookup_dir] in *.
  - now injection Hl as <-.
  - reflexivity.
Qed.

Lemma find_update_first (n n1 : string) (g : dir -> dir) (l : list dir)
  (c1 : dir) :
  List.find (named n1) l = Some c1 -> d_name (g c1) = d_name c1 ->
  List.find (named n) (update_first n1 g l)
    = if String.eqb n n1 then Some (g c1) else List.find (named n) l.
Proof.
  intros Hf Hg. induction l as [|x l IH]; [discriminate|].
  cbn [List.find update_first] in *.
  destruct (named n1 x) eqn:Hx.
  - injection Hf as ->. cbn [List.find]. unfold named in *.
    rewrite Hg. apply String.eqb_eq in Hx. rewrite Hx.
    rewrite (String.eqb_sym n1 n). now destruct (String.eqb n n1).
  - cbn [List.find]. specialize (IH Hf).
    destruct (named n x) eqn:Hnx; [|exact IH].
    destruct (String.eqb n n1) eqn:Hnn; [|reflexivity].
    apply String.eqb_eq in Hnn. subst n1. congruence.
Qed.

Lemma in_update_first (n1 : string) (g : dir -> dir) (l : list dir)
  (c1 c : dir) :
  List.find (named n1) l = Some c1 -> In c l ->
  In c (update_first n1 g l) \/ (c = c1 /\ In (g c1) (update_first n1 g l)).
Proof.
  intros Hf Hc. induction l as [|x l IH]; [destruct Hc|].
  cbn [List.find update_first] in *.
  destruct (named n1 x).
  - injection Hf as ->. destruct Hc as [->|Hc].
    + right. split; [reflexivity | now left].
    + left. now right.
  - destruct Hc as [->|Hc]; [left; now left|].
    destruct (IH Hf Hc) as [H|(-> & H)]; [left | right; split; auto];
      now right.
Qed.

(** The same for a tree in which the directory at [t1] is replaced by
    what its walk left. *)
Lemma replace_dir_covers (X : list (path * file)) (new : dir) (t1 : path) :
  forall (fs : dir) (pre : path) (d1 : dir),
    lookup_dir t1 fs = Some d1 -> d_name new = d_name d1 ->
    (forall t d e,
       lookup_dir t d1 = Some d -> In e (all_entries ((pre ++ t1) ++ t) d) ->
       In e X \/
       exists d', lookup_dir t new = Some d' /\
                  In e (all_entries ((pre ++ t1) ++ t) d')) ->
    forall t d e,
      lookup_dir t fs = Some d -> In e (all_entries (pre ++ t) d) ->
      In e X \/
      exists d', lookup_dir t (replace_dir t1 new fs) = Some d' /\
                 In e (all_entries (pre ++ t) d').
Proof.
  induction t1 as [|n1 t1 IH]; intros fs pre d1 Hl1 Hn Hnew t d e Hl He.
  { cbn [lookup_dir replace_dir] in *. injection Hl1 as <-.
    specialize (Hnew t d e Hl). rewrite app_nil_r in Hnew. now apply Hnew. }
  cbn [lookup_dir] in Hl1.
  destruct (List.find (named n1) (d_subdirs fs)) as [c1|] eqn:Hc1;
    cbn [mbind option_bind] in Hl1; [|discriminate].
  assert (Hn1 : d_name c1 = n1).
  { apply List.find_some in Hc1 as [_ H]. now apply String.eqb_eq. }
  pose proof (replace_dir_name t1 c1 d1 new Hl1 Hn) as Hname.
  assert (Hc : forall t d e,
             lookup_dir t c1 = Some d ->
             In e (all_entries ((pre ++ [n1]) ++ t) d) ->
             In e X \/
             exists d', lookup_dir t (replace_dir t1 new c1) = Some d' /\
                        In e (all_entries ((pre ++ [n1]) ++ t) d')).
  { apply (IH c1 (pre ++ [n1]) d1 Hl1 Hn).
    intros t' d' e' Hl' He'.
    rewrite <- (app_assoc pre [n1] t1) in He' |- *.
    exact (Hnew t' d' e' Hl' He'). }
  cbn [replace_dir]. destruct t as [|n t].
  - cbn [lookup_dir] in *. injection Hl as <-. rewrite app_nil_r in *.
    destruct fs as [name files subdirs listable removable].
    cbn [all_entries d_name d_files d_subdirs d_listable d_removable] in *.
    destruct listable; cbn [negb] in *; [|destruct He].
    apply in_app_or in He as [He|He].
    + apply in_concat in He as (es & Hes & He).
      apply in_map_iff in Hes as (c & <- & Hin).
      destruct (in_update_first n1 (replace_dir t1 new) subdirs c1 c Hc1 Hin)
        as [Hin'|(-> & Hin')].
      * right. eexists. split; [reflexivity|]. apply in_or_app. left.
        apply in_concat. eexists. split; [|exact He].
        apply in_map_iff. now exists c.
      * rewrite Hn1 in He.
        destruct (Hc [] c1 e eq_refl) as [HX|(d' & Hd' & He')];
          [now rewrite app_nil_r | now left |].
        cbn [lookup_dir] in Hd'. injection Hd' as <-.
        rewrite app_nil_r in He'.
        right. eexists. split; [reflexivity|]. apply in_or_app. left.
        apply in_concat. eexists. split; [|exact He'].
        apply in_map_iff. exists (replace_dir t1 new c1).
        split; [now rewrite Hname, Hn1 | exact Hin'].
    + right. eexists. split; [reflexivity|]. apply in_or_app. now right.
  - cbn [lookup_dir d_subdirs] in *.
    rewrite (find_update_first n n1 _ _ c1 Hc1 Hname).
    destruct (String.eqb n n1) eqn:Hnn.
    + apply String.eqb_eq in Hnn. subst n. rewrite Hc1 in Hl.
      cbn [mbind option_bind] in *.
      replace (pre ++ n1 :: t) with ((pre ++ [n1]) ++ t) in He |- *
        by now rewrite <- app_assoc.
      exact (Hc t d e Hl He).
    + right. exists d. now split.
Qed.

(** Whatever fails on other files, every file that lies below a
    target when the loop over the targets starts is visited. *)
Lemma clean_targets_covers (cutoff : option Q) (targets : list path) :
  forall (fs : dir) (freed : Z) (t : path) (d : dir) (e : path * file),
    In t targets -> lookup_dir t fs = Some d -> In e (all_entries t d) ->
    In e (map v_entry (clean_targets cutoff targets fs freed).2).
Proof.
  induction targets as [|t1 targets IH]; intros fs freed t d e Ht Hl He;
    [destruct Ht|].
  cbn [clean_targets].
  destruct (lookup_dir t1 fs) as [d1|] eqn:Hl1.
  - pose proof (walk_clean_entries cutoff d1 t1 freed) as Hent.
    pose proof (walk_clean_name cutoff t1 d1 freed) as Hname.
    pose proof (walk_clean_covers cutoff d1 t1 freed) as Hcov.
    destruct (walk_clean cutoff t1 d1 freed) as [[d1' freed1] vs1].
    cbn [fst snd] in *.
    specialize (IH (replace_dir t1 d1' fs) freed1 t).
    destruct (clean_targets cutoff targets _ freed1) as [[fs' freed2] vs2].
    cbn [fst snd] in *. rewrite map_app. apply in_or_app.
    destruct (replace_dir_covers (map v_entry vs1) d1' t1 fs [] d1 Hl1 Hname
                Hcov t d e Hl He) as [HX|(d' & Hl' & He')]; [now left|].
    destruct Ht as [->|Ht].
    + left. rewrite Hent. rewrite Hl1 in Hl. now injection Hl as ->.
    + right. now apply (IH d' e).
  - destruct Ht as [->|Ht]; [congruence|]. now apply (IH fs freed t d e).
Qed.

(** A file recorded as deleted went through [stat], [chmod] and
    [unlink], and the bytes recorded are its size. *)
Lemma outcome_deleted (cutoff : option Q) (f : file) (sz : Z) :
  outcome_of (delete_attempt cutoff f) = Deleted sz ->
  can_delete f = true /\ sz = f_size f.
Proof.
  unfold delete_attempt, can_delete, stat, chmod, unlink.
  destruct (cutoff_set cutoff) as [c|];
    destruct (f_stat_ok f), (f_chmod_ok f), (f_unlink_ok f);
    cbn; try discriminate;
    try (destruct (negb _); cbn; try discriminate);
    intros [= <-]; auto.
Qed.

(** Without a cutoff no file is left for its age, and a file that can
    be deleted is. *)
Lemma outcome_no_cutoff (f : file) :
  outcome_of (delete_attempt None f) <> TooRecent /\
  (can_delete f = true ->
   outcome_of (delete_attempt None f) = Deleted (f_size f)).
Proof.
  unfold delete_attempt, can_delete, stat, chmod, unlink.
  destruct (f_stat_ok f), (f_chmod_ok f), (f_unlink_ok f); cbn;
    split; (discriminate || reflexivity).
Qed.

(** * Properties of the loader *)

Section Properties.

Context {Machine : Type}.
Variable spawn :
  list string -> bool -> Z -> Machine -> result completed * Machine.

Abbreviation world := (world Machine).
Abbreviation M := (@M Machine).

(** ** Sequencing *)

Lemma bind_ok {A B : Type} (m : M A) (f : A -> M B) (w w' : world) (a : A) :
  m w = (Ok a, w') -> M_bind A B f m w = f a w'.
Proof. intros H. unfold M_bind. now rewrite H. Qed.

Lemma bind_raise {A B : Type} (m : M A) (f : A -> M B) (w w' : world) (e : exn) :
  m w = (Raise e, w') -> M_bind A B f m w = (Raise e, w').
Proof. intros H. unfold M_bind. now rewrite H. Qed.

(** ** What a step leaves alone *)

Lemma frame_refl (w : world) : frame w w.
Proof. unfold frame; auto. Qed.

Lemma frame_trans (w1 w2 w3 : world) : frame w1 w2 -> frame w2 w3 -> frame w1 w3.
Proof. unfold frame; intuition congruence. Qed.

(** ** Logger *)


Lemma log_eq (msg : log_entry) (w : world) : log msg w = (Ok tt, logged msg w).
Proof.
  unfold log, try_except, append_log, logged.
  destruct (w_log_faults w) as [|[] faults]; reflexivity.
Qed.

Lemma logged_machine msg (w : world) : w_machine (logged msg w) = w_machine w.
Proof. unfold logged; destruct (w_log_faults w) as [|[] ?]; reflexivity. Qed.

Lemma logged_commands msg (w : world) : w_commands (logged msg w) = w_commands w.
Proof. unfold logged; destruct (w_log_faults w) as [|[] ?]; reflexivity. Qed.

Lemma logged_frame msg (w : world) : frame w (logged msg w).
Proof.
  unfold frame, logged; destruct (w_log_faults w) as [|[] ?]; simpl; auto.
Qed.

(** A write that fails leaves the log as it was, a write that goes
    through adds exactly the line. *)
Lemma logged_log msg (w : world) :
  w_log (logged msg w) = w_log w \/ w_log (logged msg w) = w_log w ++ [msg].
Proof. unfold logged; destruct (w_log_faults w) as [|[] ?]; simpl; auto. Qed.

(** [log] returns whatever the log file does: no fault pattern makes
    it raise. *)
Lemma log_never_raises (msg : log_entry) (w : world) :
  exists w', log msg w = (Ok tt, w') /\ frame w w'.
Proof. exists (logged msg w). split; [apply log_eq | apply logged_frame]. Qed.

(** ** Command runner *)


Lemma run_spec (cmd : list string) (shell : bool) (timeout : Z) (w : world) :
  exists w',
    run spawn cmd shell timeout w
      = (Ok (run_result (spawn cmd shell timeout (w_machine w)).1), w') /\
    w_machine w' = (spawn cmd shell timeout (w_machine w)).2 /\
    w_commands w' = w_commands w ++ [cmd] /\
    frame w w'.
Proof.
  unfold run, mbind.
  rewrite (bind_ok _ _ _ _ _ (log_eq (LRun cmd) w)).
  unfold try_except at 1, subprocess_run, mbind, M_bind at 1.
  rewrite logged_machine, logged_commands.
  destruct (spawn cmd shell timeout (w_machine w)) as [[p|e] m] eqn:Hs; simpl.
  - unfold pass, mret, M_ret, M_bind.
    set (w1 := set_machine m _).
    assert (F1 : frame w w1 /\ w_machine w1 = m /\
                 w_commands w1 = w_commands w ++ [cmd]).
    { subst w1. pose proof (logged_frame (LRun cmd) w) as F.
      unfold frame in *; simpl; intuition. }
    clearbody w1. destruct F1 as (F1 & Hm & Hc).
    destruct (PyStr.nonempty (stdout p)); [rewrite log_eq|];
      (destruct (PyStr.nonempty (stderr p)); [rewrite log_eq|]);
      eexists; (split; [reflexivity|]);
      rewrite ?logged_machine, ?logged_commands;
      (refine (conj _ (conj _ _)); [assumption | assumption |]);
      eauto using frame_trans, logged_frame.
  - set (w1 := set_machine m _).
    assert (F1 : frame w w1 /\ w_machine w1 = m /\
                 w_commands w1 = w_commands w ++ [cmd]).
    { subst w1. pose proof (logged_frame (LRun cmd) w) as F.
      unfold frame in *; simpl; intuition. }
    clearbody w1. destruct F1 as (F1 & Hm & Hc).
    unfold mbind, M_bind, mret, M_ret.
    destruct (exn_cls e); rewrite log_eq;
      eexists; (split; [reflexivity|]);
      rewrite ?logged_machine, ?logged_commands;
      (refine (conj _ (conj _ _)); [assumption | assumption |]);
      eauto using frame_trans, logged_frame.
Qed.

(** C6: [run] never raises and always hands back a triple: the
    process's own code and output when it completed, code 1, empty
    output and the message "Timeout" when it timed out, and code 1,
    empty output and the error text on any other launch failure. *)
Theorem run_always_returns_triple
  (cmd : list string) (shell : bool) (timeout : Z) (w : world) :
  exists (rc : Z) (out err : string) (w' : world),
    run spawn cmd shell timeout w = (Ok (rc, out, err), w') /\
    match (spawn cmd shell timeout (w_machine w)).1 with
    | Ok p => (rc, out, err) = (returncode p, stdout p, stderr p)
    | Raise e =>
        if decide (exn_cls e = TimeoutExpired)
        then (rc, out, err) = (1, "", "Timeout")
        else (rc, out, err) = (1, "", exn_text e)
    end.
Proof.
  destruct (run_spec cmd shell timeout w) as (w' & Hrun & _).
  destruct (run_result (spawn cmd shell timeout (w_machine w)).1)
    as [[rc out] err] eqn:Hres.
  exists rc, out, err, w'. split; [exact Hrun|].
  destruct (spawn cmd shell timeout (w_machine w)) as [[p|e] m];
    simpl in *; [congruence|].
  destruct (exn_cls e); simpl; congruence.
Qed.

(** ** Module level *)

(** C8: when the log directory cannot be created, the failure is not
    swallowed: the script stops at its module-level [mkdir] with the
    exception, before [main] (and so before any action) runs. *)
Theorem script_stops_without_log_dir (main : M unit) (w : world) :
  log_dir_creatable (w_env w) = false ->
  script main w = (Raise (Exn PermissionError "Access is denied"), w).
Proof.
  intros H. unfold script, mbind, M_bind, make_log_dir. now rewrite H.
Qed.

(** ** Power plan *)

Lemma get_active_spec (w : world) :
  exists w',
    get_active_power_scheme_guid spawn w
      = (Ok (parse_active (run_result (spawn QUERY false 120 (w_machine w)).1)),
         w') /\
    w_machine w' = (spawn QUERY false 120 (w_machine w)).2 /\
    w_commands w' = w_commands w ++ [QUERY] /\
    frame w w'.
Proof.
  destruct (run_spec QUERY false 120 w) as (w' & Hrun & Hm & Hc & Hf).
  exists w'. split; [|auto].
  unfold get_active_power_scheme_guid, run_default, mbind.
  rewrite (bind_ok _ _ _ _ _ Hrun).
  destruct (run_result _) as [[rc out] err]. simpl.
  destruct ((rc =? 0) && PyStr.nonempty out); [|reflexivity].
  now destruct (PyStr.re_search_guid out).
Qed.

(** What [parse_active] returns is a capture of the pattern in the
    output of a command that completed with code 0. *)
Lemma parse_active_str (r : result completed) (g : string) :
  parse_active (run_result r) = PyStr g ->
  exists p, r = Ok p /\ returncode p = 0 /\
            PyStr.re_search_guid (stdout p) = Some g.
Proof.
  destruct r as [p|e]; cbn [run_result parse_active].
  - destruct (Z.eqb_spec (returncode p) 0) as [Hrc|]; [|discriminate].
    destruct (PyStr.nonempty (stdout p)); [|discriminate].
    cbn [andb].
    destruct (PyStr.re_search_guid (stdout p)) as [g'|] eqn:Hre; [|discriminate].
    intros [= <-]. exists p. auto.
  - destruct (exn_cls e); discriminate.
Qed.

Lemma re_search_guid_match (out g : string) :
  PyStr.re_search_guid out = Some g -> guid_match out g.
Proof.
  intros H.
  destruct (PyStrFacts.re_search_guid_sound _ _ H) as (pre & rest & -> & Hm).
  destruct (PyStrFacts.match_at_sound _ _ Hm) as (ws & post & -> & ?).
  exists pre, ws, post. auto.
Qed.

Lemma guid_match_re_search (out g : string) :
  guid_match out g -> is_Some (PyStr.re_search_guid out).
Proof.
  intros (pre & ws & post & -> & Hws & Hlen & Hg).
  apply PyStrFacts.re_search_guid_complete with (g := g).
  now apply PyStrFacts.match_at_complete.
Qed.

(** When the query failed or printed nothing that matches, nothing is
    parsed. *)
Lemma parse_active_none (r : result completed) :
  match r with
  | Ok p => returncode p <> 0 \/ (forall g, ~ guid_match (stdout p) g)
  | Raise _ => True
  end ->
  parse_active (run_result r) = PyNone.
Proof.
  intros Hfail.
  destruct (parse_active (run_result r)) as [|g] eqn:Hv; [reflexivity|].
  destruct (parse_active_str _ _ Hv) as (p & -> & Hrc & Hre).
  destruct Hfail as [Hne|Hno]; [contradiction|].
  now destruct (Hno g (re_search_guid_match _ _ Hre)).
Qed.

(** C7 (as amended): [get_active_power_scheme_guid] always returns;
    a string it returns is the capture of the pattern
    [GUID:\s*([a-fA-F0-9\-]{36})] in the output of a query that
    completed with code 0, hence 36 characters that are hexadecimal
    digits or hyphens; it returns a string whenever such a query
    output has a match; and when the command fails or nothing
    matches, it returns [None]. *)
Theorem get_active_guid_or_none (w : world) :
  exists (v : pyval) (w' : world),
    get_active_power_scheme_guid spawn w = (Ok v, w') /\
    (forall g, v = PyStr g ->
       exists p, (spawn QUERY false 120 (w_machine w)).1 = Ok p /\
                 returncode p = 0 /\ guid_match (stdout p) g) /\
    (forall p g, (spawn QUERY false 120 (w_machine w)).1 = Ok p ->
       returncode p = 0 -> guid_match (stdout p) g ->
       exists g', v = PyStr g') /\
    (match (spawn QUERY false 120 (w_machine w)).1 with
     | Ok p => returncode p <> 0 \/ (forall g, ~ guid_match (stdout p) g)
     | Raise _ => True
     end -> v = PyNone).
Proof.
  destruct (get_active_spec w) as (w' & Hget & _).
  eexists _, w'. split; [exact Hget|].
  set (r := (spawn QUERY false 120 (w_machine w)).1). clearbody r.
  assert (Hsound : forall g, parse_active (run_result r) = PyStr g ->
            exists p, r = Ok p /\ returncode p = 0 /\ guid_match (stdout p) g).
  { intros g Hg. destruct (parse_active_str _ _ Hg) as (p & -> & Hrc & Hre).
    exists p. eauto using re_search_guid_match. }
  split; [exact Hsound|]. split.
  - intros p g -> Hrc Hm. simpl. rewrite Hrc. simpl.
    destruct (guid_match_re_search _ _ Hm) as [g' Hg'].
    assert (PyStr.nonempty (stdout p) = true) as ->.
    { destruct (stdout p); [|reflexivity]. vm_compute in Hg'. discriminate. }
    rewrite Hg'. eauto.
  - apply parse_active_none.
Qed.

Lemma ensure_spec (w : world) :
  exists w0,
    ensure_ultimate_listed spawn w = (Ok tt, w0) /\
    frame w w0 /\
    (w_machine w0 = (spawn LIST false 120 (w_machine w)).2 \/
     w_machine w0 =
       (spawn DUPLICATE false 120 (spawn LIST false 120 (w_machine w)).2).2).
Proof.
  destruct (run_spec LIST false 120 w) as (w1 & Hrun & Hm & _ & Hf).
  unfold ensure_ultimate_listed, run_default, mbind.
  rewrite (bind_ok _ _ _ _ _ Hrun).
  destruct (run_result _) as [[rc out] err]. cbn beta iota.
  destruct (negb _).
  - destruct (run_spec DUPLICATE false 120 w1) as (w2 & Hrun2 & Hm2 & _ & Hf2).
    unfold mbind. fold DUPLICATE. rewrite (bind_ok _ _ _ _ _ Hrun2).
    exists w2. split; [reflexivity|]. split; [eauto using frame_trans|].
    right. now rewrite Hm2, Hm.
  - exists w1. split; [reflexivity|]. auto.
Qed.

(** The world after lines 79-83. *)
Lemma save_previous_eq (prev : pyval) (w : world) :
  save_previous prev w =
    (Ok tt, if truthy prev && state_writable (w_env w)
            then set_state (Some (state_line (format_pyval prev))) w
            else w).
Proof.
  unfold save_previous. destruct (truthy prev); [|reflexivity].
  unfold try_except, state_write_text. simpl.
  now destruct (state_writable (w_env w)).
Qed.

Lemma activate_spec (w : world) :
  exists w',
    activate_ultimate spawn w
      = (Ok ((run_result
                (spawn (SETACTIVE POWER_ULTIMATE_GUID) false 120
                       (w_machine w)).1).1.1 =? 0), w') /\
    w_machine w'
      = (spawn (SETACTIVE POWER_ULTIMATE_GUID) false 120 (w_machine w)).2 /\
    w_commands w' = w_commands w ++ [SETACTIVE POWER_ULTIMATE_GUID] /\
    frame w w'.
Proof.
  destruct (run_spec (SETACTIVE POWER_ULTIMATE_GUID) false 120 w)
    as (w1 & Hrun & Hm & Hc & Hf).
  unfold activate_ultimate, run_default, mbind. fold (SETACTIVE POWER_ULTIMATE_GUID).
  rewrite (bind_ok _ _ _ _ _ Hrun).
  destruct (run_result _) as [[rc out] err]. cbn beta iota zeta.
  rewrite (bind_ok _ _ _ _ _ (log_eq _ _)).
  eexists. split; [reflexivity|].
  rewrite logged_machine, logged_commands.
  eauto using frame_trans, logged_frame.
Qed.

(** [enable_ultimate] is its four steps in sequence. *)
Lemma enable_eq (w w0 wq w' : world) (prev : pyval) (ok : bool) :
  ensure_ultimate_listed spawn w = (Ok tt, w0) ->
  get_active_power_scheme_guid spawn w0 = (Ok prev, wq) ->
  activate_ultimate spawn (save_previous prev wq).2 = (Ok ok, w') ->
  enable_ultimate spawn w = (Ok ok, w').
Proof.
  intros He Hq Ha. unfold enable_ultimate, mbind.
  rewrite (bind_ok _ _ _ _ _ He), (bind_ok _ _ _ _ _ Hq).
  rewrite (bind_ok _ _ wq (save_previous prev wq).2 tt); [exact Ha|].
  now rewrite save_previous_eq.
Qed.

Lemma saved_state (prev : pyval) (w : world) :
  w_state (save_previous prev w).2 =
    if truthy prev && state_writable (w_env w)
    then Some (state_line (format_pyval prev)) else w_state w.
Proof.
  rewrite save_previous_eq. cbn [snd].
  now destruct (truthy prev && state_writable (w_env w)).
Qed.

Lemma saved_rest (prev : pyval) (w : world) :
  w_machine (save_previous prev w).2 = w_machine w /\
  w_commands (save_previous prev w).2 = w_commands w /\
  w_env (save_previous prev w).2 = w_env w.
Proof.
  rewrite save_previous_eq. cbn [snd].
  now destruct (truthy prev && state_writable (w_env w)).
Qed.

(** C10: [enable_ultimate] always returns.  If it changed the state
    file, the query it made had completed with code 0 and printed a
    GUID, and that GUID is what the file now holds; if the query
    failed or printed nothing that parses, the state file (present or
    absent) is as it was; either way the last command launched is the
    activation of the Ultimate scheme. *)
Theorem enable_saves_only_parsed_guid (w : world) :
  exists (ok : bool) (w' : world),
    enable_ultimate spawn w = (Ok ok, w') /\
    let w0 := (ensure_ultimate_listed spawn w).2 in
    let query := (spawn QUERY false 120 (w_machine w0)).1 in
    (w_state w' <> w_state w ->
       exists p g, query = Ok p /\ returncode p = 0 /\
                   guid_match (stdout p) g /\
                   w_state w' = Some (state_line g)) /\
    (match query with
     | Ok p => returncode p <> 0 \/ (forall g, ~ guid_match (stdout p) g)
     | Raise _ => True
     end -> w_state w' = w_state w) /\
    last (w_commands w') = Some (SETACTIVE POWER_ULTIMATE_GUID).
Proof.
  destruct (ensure_spec w) as (w0 & He & (Hs0 & _) & _).
  destruct (get_active_spec w0) as (wq & Hq & _ & _ & (Hsq & _ & _ & _ & Henv)).
  set (prev := parse_active _) in Hq.
  destruct (activate_spec (save_previous prev wq).2)
    as (w' & Ha & _ & Hc & (Hs' & _)).
  eexists _, w'. split; [exact (enable_eq _ _ _ _ _ _ He Hq Ha)|].
  rewrite He. cbn [snd]. fold prev in Hq |- *.
  assert (Hstate : w_state w' =
            if truthy prev && state_writable (w_env wq)
            then Some (state_line (format_pyval prev)) else w_state w).
  { rewrite Hs', saved_state, Hsq, Hs0. reflexivity. }
  split; [|split].
  - intros Hchg. destruct (truthy prev) eqn:Ht; [|now rewrite Hstate in Hchg].
    destruct prev as [|g] eqn:Hprev; [discriminate|].
    destruct (parse_active_str _ _ Hprev) as (p & Hp & Hrc & Hre).
    exists p, g. repeat split; auto using re_search_guid_match.
    rewrite Hstate in Hchg |- *. simpl in *.
    now destruct (state_writable (w_env wq)).
  - intros Hfail. apply parse_active_none in Hfail. fold prev in Hfail.
    now rewrite Hstate, Hfail.
  - rewrite Hc. apply last_snoc.
Qed.

(** Reading back the line [enable_ultimate] writes. *)
Lemma scan_state_line (g : string) :
  PyStr.all_chars PyStr.guid_char g = true ->
  scan_previous (PyStr.splitlines (state_line g)) PyNone = Ok (PyStr g).
Proof.
  intros Hg. unfold state_line.
  rewrite <- PyStrFacts.append_assoc, PyStrFacts.splitlines_one_line.
  - cbn [scan_previous]. simpl PyStr.startswith. cbn iota.
    unfold split_eq_item1. simpl PyStr.after_first.
    cbn [mbind result_bind].
    rewrite PyStrFacts.strip_id; [reflexivity|].
    revert Hg. apply PyStrFacts.all_chars_impl.
    intros c Hc. now rewrite (PyStrFacts.guid_char_not_space _ Hc).
  - simpl. revert Hg. apply PyStrFacts.all_chars_impl.
    intros c Hc. now rewrite (PyStrFacts.guid_char_not_linebreak _ Hc).
Qed.

Lemma restore_saved (g : string) (w : world) :
  w_state w = Some (state_line g) ->
  state_readable (w_env w) = true ->
  PyStr.all_chars PyStr.guid_char g = true ->
  String.length g = 36%nat ->
  exists w',
    restore_power spawn w
      = (Ok ((run_result
                (spawn (SETACTIVE g) false 120 (w_machine w)).1).1.1 =? 0),
         w') /\
    w_machine w' = (spawn (SETACTIVE g) false 120 (w_machine w)).2 /\
    w_commands w' = w_commands w ++ [SETACTIVE g] /\
    frame w w'.
Proof.
  intros Hst Hrd Hg Hlen.
  destruct (run_spec (SETACTIVE g) false 120 w) as (w' & Hrun & Hm & Hc & Hf).
  exists w'. split; [|auto].
  assert (Hex : state_exists w = (Ok true, w)).
  { unfold state_exists. now rewrite Hst. }
  assert (Hread : state_read_text w = (Ok (state_line g), w)).
  { unfold state_read_text. now rewrite Hst, Hrd. }
  assert (Hscan : lift (scan_previous (PyStr.splitlines (state_line g)) PyNone) w
                  = (Ok (PyStr g), w)).
  { unfold lift. now rewrite (scan_state_line _ Hg). }
  unfold restore_power, try_except, mbind.
  rewrite (bind_ok _ _ _ _ _ Hex). cbn [negb].
  rewrite (bind_ok _ _ _ _ _ Hread), (bind_ok _ _ _ _ _ Hscan).
  rewrite (PyStrFacts.guid_nonempty _ Hlen).
  unfold run_default. fold (SETACTIVE g). rewrite (bind_ok _ _ _ _ _ Hrun).
  now destruct (run_result _) as [[rc out] err].
Qed.

Lemma run_result_zero (r : result completed) :
  ((run_result r).1.1 =? 0) = true -> exists p, r = Ok p /\ returncode p = 0.
Proof.
  destruct r as [p|e]; simpl.
  - intros H. exists p. split; [reflexivity | lia].
  - destruct (exn_cls e); simpl; discriminate.
Qed.

Lemma run_result_completed (r : result completed) (p : completed) :
  r = Ok p -> returncode p = 0 -> ((run_result r).1.1 =? 0) = true.
Proof. intros -> Hrc. simpl. now rewrite Hrc. Qed.

Section Undo.

(** The active scheme of a machine, for a [powercfg] that behaves. *)
Variable active : Machine -> string.
Hypothesis behaves : powercfg_behaves spawn active.

Lemma ensure_keeps_active (w w0 : world) :
  ensure_ultimate_listed spawn w = (Ok tt, w0) ->
  active (w_machine w0) = active (w_machine w) /\ frame w w0.
Proof using behaves.
  intros He. destruct (ensure_spec w) as (w0' & He' & Hf & Hm).
  rewrite He in He'. injection He' as <-. split; [|exact Hf].
  destruct Hm as [-> | ->].
  - apply (list_keeps_active _ _ behaves).
  - rewrite (duplicate_keeps_active _ _ behaves).
    apply (list_keeps_active _ _ behaves).
Qed.

(** [restore_power] on a state file that holds the line for [g]. *)
Lemma restore_reactivates (g : string) (w : world) :
  w_state w = Some (state_line g) ->
  state_readable (w_env w) = true ->
  PyStr.all_chars PyStr.guid_char g = true ->
  String.length g = 36%nat ->
  g = POWER_ULTIMATE_GUID \/ (exists m0, g = active m0) ->
  exists r w',
    restore_power spawn w = (Ok r, w') /\
    w_commands w' = w_commands w ++ [SETACTIVE g] /\
    (r = true <->
     exists p, (spawn (SETACTIVE g) false 120 (w_machine w)).1 = Ok p /\
               returncode p = 0) /\
    (r = true -> active (w_machine w') = g).
Proof using behaves.
  intros Hst Hrd Hg Hlen Hknown.
  destruct (restore_saved g w Hst Hrd Hg Hlen) as (w' & Hr & Hm & Hc & _).
  eexists _, w'. split; [exact Hr|]. split; [exact Hc|]. split.
  - split; [apply run_result_zero|].
    intros (p & Hp & Hrc). now apply run_result_completed with (p := p).
  - intros Hok. destruct (run_result_zero _ Hok) as (p & Hp & Hrc).
    rewrite Hm. now apply (setactive_activates _ _ behaves) with (p := p).
Qed.

(** One call of [enable_ultimate] whose query yields [g], on a
    writable state file. *)
Lemma enable_saves_active (w w1 : world) (g : string) (ok : bool) :
  state_writable (w_env w) = true ->
  (get_active_power_scheme_guid spawn (ensure_ultimate_listed spawn w).2).1
    = Ok (PyStr g) ->
  enable_ultimate spawn w = (Ok ok, w1) ->
  g = active (w_machine w) /\
  PyStr.all_chars PyStr.guid_char g = true /\ String.length g = 36%nat /\
  w_state w1 = Some (state_line g) /\
  w_env w1 = w_env w /\
  (ok = true -> active (w_machine w1) = POWER_ULTIMATE_GUID).
Proof using behaves.
  intros Hwr Hprev Hen.
  destruct (ensure_spec w) as (w0 & He & _).
  destruct (ensure_keeps_active _ _ He) as (Hact0 & _ & _ & _ & _ & Henv0).
  destruct (get_active_spec w0) as (wq & Hq & Hmq & _ & (_ & _ & _ & _ & Henvq)).
  rewrite He in Hprev. cbn [snd] in Hprev. rewrite Hq in Hprev.
  cbn [fst] in Hprev. injection Hprev as Hprev. rewrite Hprev in Hq.
  destruct (parse_active_str _ _ Hprev) as (p & Hp & Hrc & Hre).
  destruct (re_search_guid_match _ _ Hre) as (_ & _ & _ & _ & _ & Hlen & Hg).
  destruct (activate_spec (save_previous (PyStr g) wq).2)
    as (w' & Ha & Hm' & _ & (Hs' & _ & _ & _ & Henv')).
  rewrite (enable_eq _ _ _ _ _ _ He Hq Ha) in Hen.
  injection Hen as Hok <-.
  destruct (saved_rest (PyStr g) wq) as (Hms & _ & Henvs).
  split; [|split; [exact Hg | split; [exact Hlen | split; [|split]]]].
  - rewrite <- Hact0. now apply (query_reports_active _ _ behaves false 120 _ p).
  - rewrite Hs', saved_state. cbn [truthy format_pyval].
    now rewrite (PyStrFacts.guid_nonempty _ Hlen), Henvq, Henv0, Hwr.
  - now rewrite Henv', Henvs, Henvq, Henv0.
  - intros ->. destruct (run_result_zero _ Hok) as (p' & Hp' & Hrc').
    rewrite Hm'.
    apply (setactive_activates _ _ behaves) with (p := p'); auto.
Qed.

(** C1 (as amended): take a [powercfg] that behaves, a state file
    that can be written and read, and a successful [enable_ultimate]
    whose query of the active scheme yielded a GUID.  That GUID is the
    scheme that was active before the call, and an immediately
    following [restore_power] launches the activation of that scheme
    and nothing else; it returns [True] exactly when that command
    completes with code 0, and then the scheme is active again.  If
    instead a second [enable_ultimate] follows and its query too
    yields a GUID, the state file then holds the Ultimate scheme, and
    [restore_power] launches the activation of the Ultimate scheme
    itself, with the same tie between its result, the exit code and
    the active scheme. *)
Theorem enable_then_restore (w w1 : world) (g : string) :
  state_writable (w_env w) = true ->
  state_readable (w_env w) = true ->
  (get_active_power_scheme_guid spawn (ensure_ultimate_listed spawn w).2).1
    = Ok (PyStr g) ->
  enable_ultimate spawn w = (Ok true, w1) ->
  g = active (w_machine w) /\
  (exists r w2,
     restore_power spawn w1 = (Ok r, w2) /\
     w_commands w2 = w_commands w1 ++ [SETACTIVE (active (w_machine w))] /\
     (r = true <->
      exists p,
        (spawn (SETACTIVE (active (w_machine w))) false 120 (w_machine w1)).1
          = Ok p /\ returncode p = 0) /\
     (r = true -> active (w_machine w2) = active (w_machine w))) /\
  (forall g2 ok2 w2,
     (get_active_power_scheme_guid spawn
        (ensure_ultimate_listed spawn w1).2).1 = Ok (PyStr g2) ->
     enable_ultimate spawn w1 = (Ok ok2, w2) ->
     w_state w2 = Some (state_line POWER_ULTIMATE_GUID) /\
     exists r w3,
       restore_power spawn w2 = (Ok r, w3) /\
       w_commands w3 = w_commands w2 ++ [SETACTIVE POWER_ULTIMATE_GUID] /\
       (r = true <->
        exists p,
          (spawn (SETACTIVE POWER_ULTIMATE_GUID) false 120 (w_machine w2)).1
            = Ok p /\ returncode p = 0) /\
       (r = true -> active (w_machine w3) = POWER_ULTIMATE_GUID)).
Proof using behaves.
  intros Hwr Hrd Hprev Hen.
  destruct (enable_saves_active _ _ _ _ Hwr Hprev Hen)
    as (Hact & Hg & Hlen & Hst & Henv & Hult).
  split; [exact Hact|]. split.
  - rewrite <- Hact. apply restore_reactivates; eauto. now rewrite Henv.
  - intros g2 ok2 w2 Hprev2 Hen2.
    assert (Hwr1 : state_writable (w_env w1) = true) by now rewrite Henv.
    destruct (enable_saves_active _ _ _ _ Hwr1 Hprev2 Hen2)
      as (Hact2 & Hg2 & Hlen2 & Hst2 & Henv2 & _).
    rewrite (Hult eq_refl) in Hact2. subst g2.
    split; [exact Hst2|].
    apply restore_reactivates; auto. now rewrite Henv2, Henv.
Qed.

End Undo.

(** C3: with no state file, [restore_power] returns [False] and the
    world is as before: no command was launched, so the active scheme
    is the one it was, and nothing was logged. *)
Theorem restore_without_state (w : world) :
  w_state w = None -> restore_power spawn w = (Ok false, w).
Proof.
  intros H.
  unfold restore_power, try_except, mbind, M_bind, state_exists.
  rewrite H. reflexivity.
Qed.

(** ** Startup manager *)

Lemma hive_keys_set (h : hive) (ks : gmap string (gmap string reg_value))
  (r : registry) : hive_keys h (set_hive_keys h ks r) = ks.
Proof. now destruct h. Qed.

Lemma run_key_not_shadow : RUN_KEY <> SHADOW_KEY.
Proof. intros H. apply (f_equal String.length) in H. vm_compute in H. discriminate. Qed.

Lemma OpenKey_ok (h : hive) (k : string) (w : world)
  (vals : gmap string reg_value) :
  key_values h k w = Some vals -> OpenKey h k w = (Ok (h, k), w).
Proof. unfold key_values, OpenKey. now intros ->. Qed.

Lemma QueryValueEx_ok (h : hive) (k name : string) (w : world)
  (vals : gmap string reg_value) (v : reg_value) :
  key_values h k w = Some vals -> vals !! name = Some v ->
  QueryValueEx (h, k) name w = (Ok v, w).
Proof. unfold key_values, QueryValueEx. simpl. now intros -> ->. Qed.

Lemma key_set_intro (h : hive) (k : string) (vals : gmap string reg_value)
  (w : world) :
  key_set h k vals w
    (set_registry
       (set_hive_keys h (<[k := vals]> (hive_keys h (w_registry w)))
                      (w_registry w)) w).
Proof.
  unfold key_set, key_values. simpl. rewrite hive_keys_set.
  split; [apply lookup_insert_eq|]. split; [|reflexivity].
  intros k' Hk. now apply lookup_insert_ne.
Qed.

Lemma CreateKey_spec (h : hive) (k : string) (w : world) :
  exists w', CreateKey h k w = (Ok (h, k), w') /\
             key_set h k (default ∅ (key_values h k w)) w w'.
Proof.
  unfold CreateKey. destruct (hive_keys h (w_registry w) !! k) as [vals|] eqn:Hk.
  - exists w. split; [reflexivity|]. unfold key_set, key_values.
    rewrite Hk. auto.
  - eexists. split; [reflexivity|]. unfold key_values at 1. rewrite Hk.
    apply key_set_intro.
Qed.

Lemma SetValueEx_spec (h : hive) (k name : string) (vtype : Z)
  (value : reg_data) (w : world) (vals : gmap string reg_value) :
  key_values h k w = Some vals ->
  exists w', SetValueEx (h, k) name vtype value w = (Ok tt, w') /\
             key_set h k (<[name := (value, vtype)]> vals) w w'.
Proof.
  unfold key_values, SetValueEx. simpl. intros ->.
  eexists. split; [reflexivity|]. apply key_set_intro.
Qed.

Lemma DeleteValue_spec (h : hive) (k name : string) (w : world)
  (vals : gmap string reg_value) (v : reg_value) :
  key_values h k w = Some vals -> vals !! name = Some v ->
  exists w', DeleteValue (h, k) name w = (Ok tt, w') /\
             key_set h k (delete name vals) w w'.
Proof.
  unfold key_values, DeleteValue. simpl. intros -> ->.
  eexists. split; [reflexivity|]. apply key_set_intro.
Qed.

(** One move: the value leaves [src] and sits in [dst], with its data
    and type. *)
Lemma move_value_moves (h : hive) (src dst name : string) (w : world)
  (src_vals : gmap string reg_value) (v : reg_value) :
  src <> dst ->
  key_values h src w = Some src_vals ->
  src_vals !! name = Some v ->
  exists w',
    move_value h src dst name w = (Ok true, w') /\
    key_values h src w' = Some (delete name src_vals) /\
    key_values h dst w'
      = Some (<[name := v]> (default ∅ (key_values h dst w))) /\
    w_env w' = w_env w.
Proof.
  intros Hne Hsrc Hname. destruct v as [value vtype].
  destruct (CreateKey_spec h dst w) as (w1 & Hcreate & Hdst1 & Hoth1 & Henv1).
  destruct (SetValueEx_spec h dst name vtype value w1 _ Hdst1)
    as (w2 & Hset & Hdst2 & Hoth2 & Henv2).
  assert (Hsrc2 : key_values h src w2 = Some src_vals)
    by now rewrite Hoth2, Hoth1.
  destruct (DeleteValue_spec h src name w2 _ _ Hsrc2 Hname)
    as (w3 & Hdel & Hsrc3 & Hoth3 & Henv3).
  exists w3. split; [|split; [exact Hsrc3|split]].
  - assert (Hfound : find_value h src name w = (Ok (Some (value, vtype)), w)).
    { unfold find_value, try_except_not_found, try_except, mbind.
      rewrite (bind_ok _ _ _ _ _ (OpenKey_ok _ _ _ _ Hsrc)).
      now rewrite (bind_ok _ _ _ _ _ (QueryValueEx_ok _ _ _ _ _ _ Hsrc Hname)). }
    unfold move_value, mbind in *.
    rewrite (bind_ok _ _ _ _ _ Hfound). cbn beta iota.
    rewrite (bind_ok _ _ _ _ _ Hcreate), (bind_ok _ _ _ _ _ Hset).
    rewrite (bind_ok _ _ _ _ _ (OpenKey_ok _ _ _ _ Hsrc2)).
    now rewrite (bind_ok _ _ _ _ _ Hdel).
  - rewrite Hoth3, Hdst2 by congruence. reflexivity.
  - now rewrite Henv3, Henv2, Henv1.
Qed.

(** C2: for an entry present in the live Run key with data and type
    [v], disabling and then enabling it both succeed, after which the
    Run key holds exactly the values it held at the start (the entry
    with its data and type among them) and the shadow key has no
    entry of that name. *)
Theorem toggle_disable_enable (name hive_str : string) (w : world)
  (values : gmap string reg_value) (v : reg_value) :
  winreg_importable (w_env w) = true ->
  key_values (hive_of hive_str) RUN_KEY w = Some values ->
  values !! name = Some v ->
  exists w1 w2 shadow,
    toggle_startup name hive_str true w = (Ok true, w1) /\
    toggle_startup name hive_str false w1 = (Ok true, w2) /\
    key_values (hive_of hive_str) RUN_KEY w2 = Some values /\
    values !! name = Some v /\
    key_values (hive_of hive_str) SHADOW_KEY w2 = Some shadow /\
    shadow !! name = None.
Proof.
  intros Himp Hrun Hname.
  destruct (move_value_moves (hive_of hive_str) RUN_KEY SHADOW_KEY name w
              values v run_key_not_shadow Hrun Hname)
    as (w1 & Hmove1 & Hrun1 & Hshadow1 & Henv1).
  set (shadow0 := default ∅ (key_values (hive_of hive_str) SHADOW_KEY w)) in *.
  assert (Hname1 : (<[name := v]> shadow0 : gmap string reg_value) !! name = Some v)
    by apply lookup_insert_eq.
  destruct (move_value_moves (hive_of hive_str) SHADOW_KEY RUN_KEY name w1
              _ v (not_eq_sym run_key_not_shadow) Hshadow1 Hname1)
    as (w2 & Hmove2 & Hshadow2 & Hrun2 & Henv2).
  exists w1, w2, (delete name (<[name := v]> shadow0)).
  split; [|split; [|split; [|split; [exact Hname|split]]]].
  - unfold toggle_startup. rewrite Himp. exact Hmove1.
  - unfold toggle_startup. rewrite Henv1, Himp. exact Hmove2.
  - rewrite Hrun2, Hrun1. simpl. f_equal.
    rewrite insert_delete_eq. now apply insert_id.
  - exact Hshadow2.
  - apply lookup_delete_eq.
Qed.

(** ** CPU benchmark *)

(** C9: the count [bench_cpu n] accumulates is the number of primes
    [p] with [2 <= p < n]: there is a list without repetitions that
    holds exactly these primes and whose length is the count.  What
    [bench_cpu] returns is that count divided by the elapsed time
    between its two clock readings, not the count (the division raises
    when no time has elapsed). *)
Theorem bench_cpu_rate (n : Z) (w : world) :
  (exists primes : list Z,
     NoDup primes /\
     (forall p, In p primes <-> 2 <= p < n /\ Z.prime p) /\
     count_primes n = Z.of_nat (length primes)) /\
  bench_cpu n w =
    (if Qeq_bool (elapsed w) 0
     then Raise (Exn ZeroDivisionError "float division by zero")
     else Ok (inject_Z (count_primes n) / elapsed w)%Q,
     set_ticks (S (S (w_ticks w))) w).
Proof.
  split.
  - exists (filter Z.prime (seqZ 2 (n - 2))). split; [|split].
    + apply NoDup_filter, NoDup_seqZ.
    + intros p. rewrite <- list_elem_of_In, list_elem_of_filter, elem_of_seqZ.
      split; intros [H1 H2]; split; first [assumption | lia].
    + apply count_primes_correct.
  - unfold bench_cpu, mbind, M_bind, time_time, elapsed. cbn.
    destruct (Qeq_bool _ 0); reflexivity.
Qed.

(** ** Temp cleaner *)

Lemma span_overflows_false (older_days : Z) :
  span_overflows older_days = false <->
  older_days = 0 \/ Z.abs (older_days * 86400) < 2 ^ 1024 - 2 ^ 970.
Proof.
  unfold span_overflows. set (L := 2 ^ 1024 - 2 ^ 970).
  destruct (Z.eqb_spec older_days 0) as [H0|H0];
    destruct (Z.leb_spec L (Z.abs (older_days * 86400))) as [HL|HL];
    cbn [negb andb]; split; intros H; try discriminate; auto; lia.
Qed.

Lemma span_overflows_true (older_days : Z) :
  span_overflows older_days = true <->
  older_days <> 0 /\ 2 ^ 1024 - 2 ^ 970 <= Z.abs (older_days * 86400).
Proof.
  unfold span_overflows. set (L := 2 ^ 1024 - 2 ^ 970).
  destruct (Z.eqb_spec older_days 0) as [H0|H0];
    destruct (Z.leb_spec L (Z.abs (older_days * 86400))) as [HL|HL];
    cbn [negb andb]; split; intros H; try discriminate; auto; lia.
Qed.

(** Line 137: no clock reading for [older_days = 0]; otherwise one
    reading, and then the cutoff or the [OverflowError]. *)
Lemma compute_cutoff_eq (older_days : Z) (w : world) :
  compute_cutoff older_days w
    = if older_days =? 0 then (Ok None, w)
      else (if span_overflows older_days
            then Raise (Exn OverflowError "int too large to convert to float")
            else Ok (cutoff_of older_days w),
            set_ticks (S (w_ticks w)) w).
Proof.
  unfold compute_cutoff, span_overflows, cutoff_of.
  destruct (older_days =? 0); [reflexivity|].
  unfold mbind, M_bind, time_time, lift, float_of_int, FLOAT_LIMIT.
  set (L := 2 ^ 1024 - 2 ^ 970). cbn [negb andb].
  rewrite (Z.leb_antisym (Z.abs (older_days * 86400)) L).
  now destruct (Z.abs (older_days * 86400) <? L).
Qed.

(** How [clean_temp] ends and the world it leaves. *)
Lemma clean_temp_world (include_system aggressive : bool) (older_days : Z)
  (w : world) :
  clean_temp include_system aggressive older_days w
    = if span_overflows older_days
      then (Raise (Exn OverflowError "int too large to convert to float"),
            set_ticks (S (w_ticks w)) w)
      else
        let r := clean_targets (cutoff_of older_days w)
                   (temp_targets (w_env w) include_system aggressive)
                   (w_fs w) 0 in
        (Ok r.1.2,
         logged (LTempCleaned r.1.2)
           (set_fs r.1.1
              (if older_days =? 0 then w else set_ticks (S (w_ticks w)) w))).
Proof.
  unfold clean_temp, mbind. unfold M_bind at 1. rewrite compute_cutoff_eq.
  unfold cutoff_of.
  assert (H0 : (older_days =? 0) = true -> span_overflows older_days = false).
  { unfold span_overflows. now intros ->. }
  destruct (older_days =? 0).
  - rewrite (H0 eq_refl). cbn zeta. unfold M_bind at 1, walk_targets.
    destruct (clean_targets _ _ (w_fs w) 0) as [[fs' freed] vs]. cbn [fst snd].
    now rewrite (bind_ok _ _ _ _ _ (log_eq _ _)).
  - destruct (span_overflows older_days); [reflexivity|].
    cbn zeta. unfold M_bind at 1, walk_targets. cbn [w_fs set_ticks].
    destruct (clean_targets _ _ (w_fs w) 0) as [[fs' freed] vs]. cbn [fst snd].
    now rewrite (bind_ok _ _ _ _ _ (log_eq _ _)).
Qed.

Lemma clean_temp_total (include_system aggressive : bool) (older_days : Z)
  (w : world) :
  span_overflows older_days = false ->
  exists w',
    clean_temp include_system aggressive older_days w
      = (Ok (deleted_bytes (visits include_system aggressive older_days w)), w').
Proof.
  intros Hs. rewrite clean_temp_world. unfold visits. rewrite Hs. cbn zeta.
  destruct (clean_targets_ok (cutoff_of older_days w)
              (temp_targets (w_env w) include_system aggressive) (w_fs w) 0)
    as (Hfreed & _).
  rewrite Hfreed. eexists. reflexivity.
Qed.

Lemma visits_recorded (include_system aggressive : bool) (older_days : Z)
  (w : world) :
  Forall (λ v, v_outcome v
               = outcome_of (delete_attempt (cutoff_of older_days w) (v_file v)))
         (visits include_system aggressive older_days w).
Proof.
  unfold visits. destruct (span_overflows older_days); [constructor|].
  now destruct (clean_targets_ok (cutoff_of older_days w)
                  (temp_targets (w_env w) include_system aggressive) (w_fs w) 0)
    as (_ & H & _).
Qed.

Lemma visits_cover (include_system aggressive : bool) (older_days : Z)
  (w : world) (t : path) (d : dir) (fp : path) (f : file) :
  span_overflows older_days = false ->
  In t (temp_targets (w_env w) include_system aggressive) ->
  lookup_dir t (w_fs w) = Some d -> In (fp, f) (all_entries t d) ->
  exists v, In v (visits include_system aggressive older_days w) /\
            v_path v = fp /\ v_file v = f.
Proof.
  intros Hs Ht Hl He. unfold visits. rewrite Hs.
  pose proof (clean_targets_covers (cutoff_of older_days w) _ (w_fs w) 0
                t d (fp, f) Ht Hl He) as Hin.
  apply in_map_iff in Hin as (v & Hv & Hin). exists v.
  injection Hv as <- <-. auto.
Qed.

(** A deletion that raised failed at [stat], [chmod] or [unlink]. *)
Lemma outcome_failed (cutoff : option Q) (f : file) (e : exn) :
  outcome_of (delete_attempt cutoff f) = Failed e -> can_delete f = false.
Proof.
  unfold delete_attempt, can_delete, stat, chmod, unlink.
  destruct (cutoff_set cutoff) as [c|];
    destruct (f_stat_ok f), (f_chmod_ok f), (f_unlink_ok f);
    cbn; try discriminate; try reflexivity;
    destruct (negb _); cbn; discriminate.
Qed.

(** C4: a file whose deletion fails does not make [clean_temp] raise:
    whenever a file is visited the call returns, and what it returns
    is the sum of the sizes of the visited files recorded as deleted.
    A file is recorded as deleted, with its size, only when [stat],
    [chmod] and [unlink] all went through on it, and a recorded
    failure means one of them did not, so a failed file adds nothing.
    A failure does not end the walk either: every file that lies below
    an existing target when the call starts, in directories that can
    be listed, is visited under its path.  The one way the call raises
    is the [OverflowError] of line 137, for an [older_days] whose
    seconds do not fit a float; no file is visited then. *)
Theorem clean_temp_counts_deleted_only
  (include_system aggressive : bool) (older_days : Z) (w : world) :
  let vs := visits include_system aggressive older_days w in
  let returns :=
    exists w', clean_temp include_system aggressive older_days w
               = (Ok (deleted_bytes vs), w') in
  (vs <> [] -> returns) /\
  Forall (λ v, match v_outcome v with
               | Deleted sz =>
                   can_delete (v_file v) = true /\ sz = f_size (v_file v)
               | Failed _ => can_delete (v_file v) = false
               | TooRecent => True
               end) vs /\
  (older_days = 0 \/ Z.abs (older_days * 86400) < 2 ^ 1024 - 2 ^ 970 ->
   returns /\
   forall t d fp f,
     In t (temp_targets (w_env w) include_system aggressive) ->
     lookup_dir t (w_fs w) = Some d -> In (fp, f) (all_entries t d) ->
     exists v, In v vs /\ v_path v = fp /\ v_file v = f) /\
  (older_days <> 0 /\ 2 ^ 1024 - 2 ^ 970 <= Z.abs (older_days * 86400) ->
   vs = [] /\
   exists w',
     clean_temp include_system aggressive older_days w
       = (Raise (Exn OverflowError "int too large to convert to float"), w') /\
     w_fs w' = w_fs w).
Proof.
  cbn zeta. split; [|split; [|split]].
  - intros Hvs. apply clean_temp_total.
    destruct (span_overflows older_days) eqn:Hs; [|reflexivity].
    exfalso. apply Hvs. unfold visits. now rewrite Hs.
  - eapply Forall_impl; [apply visits_recorded|].
    intros v Hv. cbn beta in Hv.
    destruct (v_outcome v) as [|e|sz]; auto.
    + now apply outcome_failed with (cutoff := cutoff_of older_days w) (e := e).
    + now apply outcome_deleted with (cutoff := cutoff_of older_days w).
  - intros Hs%span_overflows_false. split; [now apply clean_temp_total|].
    intros t d fp f. now apply visits_cover.
  - intros Hs%span_overflows_true. unfold visits.
    rewrite clean_temp_world, Hs. split; [reflexivity|].
    eexists. split; reflexivity.
Qed.

(** C5: with [older_days = 0] no cutoff is computed, no visited file
    is left for its age, and every visited file that can be deleted
    is deleted and counted, whatever its modification time. *)
Theorem clean_temp_zero_days_no_cutoff
  (include_system aggressive : bool) (w : world) :
  cutoff_of 0 w = None /\
  Forall (λ v, v_outcome v <> TooRecent /\
               (can_delete (v_file v) = true ->
                v_outcome v = Deleted (f_size (v_file v))))
         (visits include_system aggressive 0 w) /\
  (exists w',
     clean_temp include_system aggressive 0 w
       = (Ok (deleted_bytes (visits include_system aggressive 0 w)), w')).
Proof.
  split; [reflexivity|]. split; [|now apply clean_temp_total].
  eapply Forall_impl; [apply visits_recorded|].
  intros v Hv. cbn beta in Hv. rewrite Hv. apply outcome_no_cutoff.
Qed.

End Properties.

(** * Further properties of the loader *)

Section MoreProperties.

Context {Machine : Type}.
Variable spawn :
  list string -> bool -> Z -> Machine -> result completed * Machine.

(** ** Registry writes *)

Lemma set_hive_keys_id (h : hive) (r : registry) :
  set_hive_keys h (hive_keys h r) r = r.
Proof. now destruct h, r. Qed.

Lemma set_hive_keys_twice (h : hive)
  (a b : gmap string (gmap string reg_value)) (r : registry) :
  set_hive_keys h a (set_hive_keys h b r) = set_hive_keys h a r.
Proof. now destruct h. Qed.

Lemma set_registry_id (w : world Machine) : set_registry (w_registry w) w = w.
Proof. now destruct w. Qed.

Lemma key_write_same (h : hive) (k : string) (vals : gmap string reg_value)
  (w : world Machine) :
  key_values h k w = Some vals -> key_write h k vals w = w.
Proof.
  unfold key_values, key_write. intros H.
  now rewrite (insert_id _ _ _ H), set_hive_keys_id, set_registry_id.
Qed.

Lemma key_write_twice (h : hive) (k : string)
  (v1 v2 : gmap string reg_value) (w : world Machine) :
  key_write h k v2 (key_write h k v1 w) = key_write h k v2 w.
Proof.
  unfold key_write. simpl.
  now rewrite hive_keys_set, insert_insert_eq, set_hive_keys_twice.
Qed.

Lemma key_values_write (h h' : hive) (k k' : string)
  (vals : gmap string reg_value) (w : world Machine) :
  key_values h' k' (key_write h k vals w)
    = if decide (h' = h /\ k' = k) then Some vals else key_values h' k' w.
Proof.
  unfold key_values, key_write. simpl.
  destruct (decide (h' = h /\ k' = k)) as [[-> ->]|Hne].
  - rewrite hive_keys_set. apply lookup_insert_eq.
  - destruct (decide (h' = h)) as [->|Hh].
    + rewrite hive_keys_set. apply lookup_insert_ne. intros ->. now apply Hne.
    + now destruct h, h'.
Qed.

Lemma value_at_write (h h' : hive) (k k' name : string)
  (vals : gmap string reg_value) (w : world Machine) :
  value_at h' k' name (key_write h k vals w)
    = if decide (h' = h /\ k' = k) then vals !! name else value_at h' k' name w.
Proof.
  unfold value_at. rewrite key_values_write.
  now destruct (decide (h' = h /\ k' = k)).
Qed.

Lemma CreateKey_eq (h : hive) (k : string) (w : world Machine) :
  CreateKey h k w
    = (Ok (h, k), key_write h k (default ∅ (key_values h k w)) w).
Proof.
  unfold CreateKey, key_values.
  destruct (hive_keys h (w_registry w) !! k) as [vals|] eqn:Hk; [|reflexivity].
  simpl. now rewrite (key_write_same h k vals w Hk).
Qed.

Lemma SetValueEx_eq (h : hive) (k name : string) (vtype : Z)
  (value : reg_data) (w : world Machine) (vals : gmap string reg_value) :
  key_values h k w = Some vals ->
  SetValueEx (h, k) name vtype value w
    = (Ok tt, key_write h k (<[name := (value, vtype)]> vals) w).
Proof. unfold key_values, SetValueEx. simpl. now intros ->. Qed.

Lemma DeleteValue_eq (h : hive) (k name : string) (w : world Machine)
  (vals : gmap string reg_value) (v : reg_value) :
  key_values h k w = Some vals -> vals !! name = Some v ->
  DeleteValue (h, k) name w = (Ok tt, key_write h k (delete name vals) w).
Proof. unfold key_values, DeleteValue. simpl. now intros -> ->. Qed.

Lemma find_value_eq (h : hive) (k name : string) (w : world Machine) :
  find_value h k name w = (Ok (value_at h k name w), w).
Proof.
  unfold find_value, try_except_not_found, try_except, value_at, key_values,
    OpenKey, QueryValueEx, mbind, M_bind, not_found, raise.
  destruct (hive_keys h (w_registry w) !! k) as [vals|] eqn:Hk; simpl;
    [|reflexivity].
  rewrite Hk. now destruct (vals !! name).
Qed.

(** What [move_value] does, in full. *)
Lemma move_value_eq (h : hive) (src dst name : string) (w : world Machine) :
  src <> dst ->
  move_value h src dst name w =
    match key_values h src w, value_at h src name w with
    | Some src_vals, Some v =>
        (Ok true,
         key_write h src (delete name src_vals)
           (key_write h dst
              (<[name := v]> (default ∅ (key_values h dst w))) w))
    | _, _ => (Ok false, w)
    end.
Proof.
  intros Hne. unfold move_value, mbind.
  rewrite (bind_ok _ _ _ _ _ (find_value_eq h src name w)).
  unfold value_at.
  destruct (key_values h src w) as [src_vals|] eqn:Hsrc; [|reflexivity].
  destruct (src_vals !! name) as [[value vtype]|] eqn:Hname; [|reflexivity].
  rewrite (bind_ok _ _ _ _ _ (CreateKey_eq h dst w)).
  set (w1 := key_write h dst (default ∅ (key_values h dst w)) w).
  assert (Hdst1 : key_values h dst w1 = Some (default ∅ (key_values h dst w))).
  { subst w1. rewrite key_values_write. now rewrite decide_True. }
  rewrite (bind_ok _ _ _ _ _ (SetValueEx_eq h dst name vtype value w1 _ Hdst1)).
  subst w1. rewrite key_write_twice.
  set (w2 := key_write h dst _ w).
  assert (Hsrc2 : key_values h src w2 = Some src_vals).
  { subst w2. rewrite key_values_write, decide_False; [exact Hsrc|].
    intros [_ ?]. contradiction. }
  rewrite (bind_ok _ _ _ _ _ (OpenKey_ok _ _ _ _ Hsrc2)).
  now rewrite (bind_ok _ _ _ _ _ (DeleteValue_eq h src name w2 _ _ Hsrc2 Hname)).
Qed.

(** ** Startup manager *)

Lemma toggle_startup_eq (name hive_str : string) (disable : bool)
  (w : world Machine) :
  toggle_startup name hive_str disable w =
    if winreg_importable (w_env w)
    then move_value (hive_of hive_str) (toggle_src disable)
                    (toggle_dst disable) name w
    else (Ok false, w).
Proof.
  unfold toggle_startup, toggle_src, toggle_dst.
  destruct (winreg_importable (w_env w)), disable; reflexivity.
Qed.

Lemma toggle_src_dst (disable : bool) : toggle_src disable <> toggle_dst disable.
Proof.
  destruct disable; simpl;
    [exact run_key_not_shadow | exact (not_eq_sym run_key_not_shadow)].
Qed.

(** What [toggle_startup] does, in full. *)
Lemma toggle_startup_full (name hive_str : string) (disable : bool)
  (w : world Machine) :
  toggle_startup name hive_str disable w =
    match winreg_importable (w_env w),
          key_values (hive_of hive_str) (toggle_src disable) w,
          value_at (hive_of hive_str) (toggle_src disable) name w with
    | true, Some src_vals, Some v =>
        (Ok true,
         key_write (hive_of hive_str) (toggle_src disable)
           (delete name src_vals)
           (key_write (hive_of hive_str) (toggle_dst disable)
              (<[name := v]>
                 (default ∅ (key_values (hive_of hive_str)
                               (toggle_dst disable) w))) w))
    | _, _, _ => (Ok false, w)
    end.
Proof.
  rewrite toggle_startup_eq.
  destruct (winreg_importable (w_env w)); [|reflexivity].
  now rewrite move_value_eq by apply toggle_src_dst.
Qed.

Lemma toggle_startup_after (name hive_str : string) (disable : bool)
  (w : world Machine) (v : reg_value) :
  winreg_importable (w_env w) = true ->
  value_at (hive_of hive_str) (toggle_src disable) name w = Some v ->
  exists w',
    toggle_startup name hive_str disable w = (Ok true, w') /\
    w_env w' = w_env w /\
    value_at (hive_of hive_str) (toggle_src disable) name w' = None /\
    value_at (hive_of hive_str) (toggle_dst disable) name w' = Some v.
Proof.
  intros Himp Hv. rewrite toggle_startup_full, Himp, Hv.
  unfold value_at in Hv.
  destruct (key_values _ (toggle_src disable) w) as [vals|] eqn:Hsrc;
    [|discriminate].
  eexists. split; [reflexivity|]. split; [reflexivity|].
  rewrite !value_at_write.
  rewrite decide_True by auto. split; [apply lookup_delete_eq|].
  rewrite decide_False, decide_True;
    [apply lookup_insert_eq | auto |].
  intros [_ ?]. now apply (toggle_src_dst disable).
Qed.

Lemma toggle_startup_elsewhere (name hive_str : string)
  (disable : bool) (w : world Machine) :
  (toggle_startup name hive_str disable w).2
    = set_registry (w_registry (toggle_startup name hive_str disable w).2) w /\
  forall h k n,
    h <> hive_of hive_str \/ (k <> RUN_KEY /\ k <> SHADOW_KEY) \/ n <> name ->
    value_at h k n (toggle_startup name hive_str disable w).2
      = value_at h k n w.
Proof.
  rewrite toggle_startup_full.
  destruct (winreg_importable (w_env w));
    [|split; [symmetry; apply set_registry_id | reflexivity]].
  destruct (key_values _ (toggle_src disable) w) as [vals|] eqn:Hsrc;
    [|split; [symmetry; apply set_registry_id | reflexivity]].
  destruct (value_at _ (toggle_src disable) name w) as [v|] eqn:Hv;
    [|split; [symmetry; apply set_registry_id | reflexivity]].
  cbn [snd]. split; [reflexivity|].
  intros h k n Hfar. rewrite !value_at_write.
  destruct (decide (h = hive_of hive_str /\ k = toggle_src disable))
    as [[-> ->]|_].
  - rewrite lookup_delete_ne.
    + unfold value_at. now rewrite Hsrc.
    + destruct Hfar as [?|[[? ?]|?]]; [congruence| |congruence].
      destruct disable; simpl in *; congruence.
  - destruct (decide (h = hive_of hive_str /\ k = toggle_dst disable))
      as [[-> ->]|_]; [|reflexivity].
    rewrite lookup_insert_ne.
    + unfold value_at.
      destruct (key_values (hive_of hive_str) (toggle_dst disable) w);
        simpl; [reflexivity | apply lookup_empty].
    + destruct Hfar as [?|[[? ?]|?]]; [congruence| |congruence].
      destruct disable; simpl in *; congruence.
Qed.

(** X2: [toggle_startup] changes nothing but the registry, and in the
    registry nothing but the value of that name under the Run key and
    the shadow key of the chosen hive. *)
Theorem toggle_startup_touches_one_name (name hive_str : string)
  (disable : bool) (w : world Machine) :
  let w' := (toggle_startup name hive_str disable w).2 in
  w' = set_registry (w_registry w') w /\
  forall h k n,
    h <> hive_of hive_str \/ (k <> RUN_KEY /\ k <> SHADOW_KEY) \/ n <> name ->
    value_at h k n w' = value_at h k n w.
Proof. exact (toggle_startup_elsewhere name hive_str disable w). Qed.

(** X3: a successful toggle is a move: the value leaves the source key
    and sits in the destination key with its data and type, replacing
    whatever value of that name the destination held. *)
Theorem toggle_startup_moves (name hive_str : string) (disable : bool)
  (w : world Machine) (v : reg_value) :
  winreg_importable (w_env w) = true ->
  value_at (hive_of hive_str) (toggle_src disable) name w = Some v ->
  exists w',
    toggle_startup name hive_str disable w = (Ok true, w') /\
    value_at (hive_of hive_str) (toggle_src disable) name w' = None /\
    value_at (hive_of hive_str) (toggle_dst disable) name w' = Some v.
Proof.
  intros Himp Hv.
  destruct (toggle_startup_after name hive_str disable w v Himp Hv)
    as (w' & H & _ & Hsrc & Hdst).
  exists w'. auto.
Qed.

(** X4: toggling twice in the same direction: the second call finds
    nothing to move, returns [False] and changes nothing. *)
Theorem toggle_startup_twice_same_way (name hive_str : string)
  (disable : bool) (w : world Machine) (v : reg_value) :
  winreg_importable (w_env w) = true ->
  value_at (hive_of hive_str) (toggle_src disable) name w = Some v ->
  exists w1,
    toggle_startup name hive_str disable w = (Ok true, w1) /\
    toggle_startup name hive_str disable w1 = (Ok false, w1).
Proof.
  intros Himp Hv.
  destruct (toggle_startup_after name hive_str disable w v Himp Hv)
    as (w1 & H1 & Henv & Hgone & _).
  exists w1. split; [exact H1|].
  rewrite toggle_startup_full, Hgone.
  now destruct (winreg_importable (w_env w1)),
    (key_values (hive_of hive_str) (toggle_src disable) w1).
Qed.

(** X5: enabling and then disabling an entry parked in the shadow key: both
    calls succeed, the shadow key holds exactly the values it held at
    the start, and the Run key ends without a value of that name, also
    when it had one before the entry was enabled over it. *)
Theorem toggle_enable_disable (name hive_str : string) (w : world Machine)
  (values : gmap string reg_value) (v : reg_value) :
  winreg_importable (w_env w) = true ->
  key_values (hive_of hive_str) SHADOW_KEY w = Some values ->
  values !! name = Some v ->
  exists w1 w2,
    toggle_startup name hive_str false w = (Ok true, w1) /\
    toggle_startup name hive_str true w1 = (Ok true, w2) /\
    key_values (hive_of hive_str) SHADOW_KEY w2 = Some values /\
    value_at (hive_of hive_str) RUN_KEY name w2 = None.
Proof.
  intros Himp Hshadow Hname.
  destruct (move_value_moves (hive_of hive_str) SHADOW_KEY RUN_KEY name w
              values v (not_eq_sym run_key_not_shadow) Hshadow Hname)
    as (w1 & Hmove1 & Hshadow1 & Hrun1 & Henv1).
  set (run0 := default ∅ (key_values (hive_of hive_str) RUN_KEY w)) in *.
  assert (Hname1 : (<[name := v]> run0 : gmap string reg_value) !! name = Some v)
    by apply lookup_insert_eq.
  destruct (move_value_moves (hive_of hive_str) RUN_KEY SHADOW_KEY name w1
              _ v run_key_not_shadow Hrun1 Hname1)
    as (w2 & Hmove2 & Hrun2 & Hshadow2 & Henv2).
  exists w1, w2. split; [|split; [|split]].
  - unfold toggle_startup. rewrite Himp. exact Hmove1.
  - unfold toggle_startup. rewrite Henv1, Himp. exact Hmove2.
  - rewrite Hshadow2, Hshadow1. simpl. f_equal.
    rewrite insert_delete_eq. now apply insert_id.
  - unfold value_at. rewrite Hrun2. apply lookup_delete_eq.
Qed.

(** ** Startup list *)

Lemma enum_loop_spec (tag path : string) (key : hkey) (i : nat)
  (items : list item) (w : world Machine) (vals : gmap string reg_value) :
  key_values key.1 key.2 w = Some vals ->
  enum_loop tag path key i items w
    = (Ok (items ++ map (entry tag path) (drop i (enumeration vals))), w).
Proof.
  funelim (enum_loop tag path key i items w); intros Hk; clear Heqcall;
    match goal with H0 : _ = {| pr1 := _; pr2 := _ |} |- _ => clear H0 end;
    match goal with He : EnumValue _ _ _ = _ |- _ => rename He into Heq end;
    unfold EnumValue in Heq; unfold key_values in Hk; rewrite Hk in Heq;
    destruct (enumeration vals !! i) as [[n [d t]]|] eqn:Hi;
    try discriminate Heq.
  - injection Heq as -> -> -> <-.
    rewrite (H vals Hk), <- app_assoc. f_equal.
    pose proof (drop_S _ _ _ Hi) as Hd. unfold reg_value in *.
    now rewrite Hd.
  - injection Heq as <- <-. simpl.
    apply lookup_ge_None in Hi. rewrite drop_ge by exact Hi.
    now rewrite app_nil_r.
Qed.

Lemma enum_hive_run (h : hive) (items : list item) (w : world Machine) :
  enum_hive h RUN_KEY items w = (Ok (items ++ hive_entries h w), w).
Proof.
  unfold enum_hive, try_except_not_found, try_except, hive_entries, mbind.
  destruct (key_values h RUN_KEY w) as [vals|] eqn:Hk.
  - rewrite (bind_ok _ _ _ _ _ (OpenKey_ok _ _ _ _ Hk)).
    now rewrite (enum_loop_spec _ _ (h, RUN_KEY) 0 items w vals Hk).
  - unfold M_bind, OpenKey. unfold key_values in Hk. rewrite Hk. simpl.
    now rewrite app_nil_r.
Qed.

Lemma list_startup_items_eq (w : world Machine) :
  list_startup_items w
    = (Ok (if winreg_importable (w_env w)
           then hive_entries HKEY_CURRENT_USER w
                ++ hive_entries HKEY_LOCAL_MACHINE w
           else []), w).
Proof.
  unfold list_startup_items.
  destruct (winreg_importable (w_env w)); [|reflexivity].
  cbn [negb enum_pairs]. unfold mbind.
  rewrite (bind_ok _ _ _ _ _ (enum_hive_run HKEY_CURRENT_USER [] w)).
  now rewrite (bind_ok _ _ _ _ _ (enum_hive_run HKEY_LOCAL_MACHINE _ w)).
Qed.

Lemma elem_of_hive_entries (h : hive) (w : world Machine) (x : item) :
  x ∈ hive_entries h w <->
  exists name data t,
    x = (hive_tag h, RUN_KEY, name, data) /\
    value_at h RUN_KEY name w = Some (data, t).
Proof.
  unfold hive_entries, value_at.
  destruct (key_values h RUN_KEY w) as [vals|].
  - rewrite list_elem_of_fmap. split.
    + intros ([n [d t]] & -> & Hin). apply elem_of_map_to_list in Hin.
      exists n, d, t. auto.
    + intros (n & d & t & -> & Hv). exists (n, (d, t)).
      split; [reflexivity|]. now apply elem_of_map_to_list.
  - split; [intros H; inversion H|]. now intros (n & d & t & _ & ?).
Qed.

Lemma listed_iff (w : world Machine) (tag path name : string) (data : reg_data) :
  (tag, path, name, data) ∈ listed w <->
  winreg_importable (w_env w) = true /\ path = RUN_KEY /\
  exists h t, tag = hive_tag h /\ value_at h RUN_KEY name w = Some (data, t).
Proof.
  unfold listed. rewrite list_startup_items_eq. cbn [fst].
  destruct (winreg_importable (w_env w)).
  - rewrite elem_of_app, !elem_of_hive_entries. split.
    + intros [(n & d & t & Heq & Hv)|(n & d & t & Heq & Hv)];
        injection Heq as -> -> -> ->;
        (split; [reflexivity|]); (split; [reflexivity|]);
        [exists HKEY_CURRENT_USER, t | exists HKEY_LOCAL_MACHINE, t];
        (split; [reflexivity | exact Hv]).
    + intros (_ & -> & h & t & -> & Hv).
      destruct h; [left|right]; exists name, data, t;
        (split; [reflexivity | exact Hv]).
  - split; [intros H; inversion H | intros [? _]; discriminate].
Qed.

(** X6: [list_startup_items] never raises and changes nothing; it lists
    exactly the values of the Run keys of the two hives, each under
    the tag of its hive and with its data, and nothing when [winreg]
    is missing or a Run key does not exist. *)
Theorem list_startup_items_lists_run_values (w : world Machine) :
  list_startup_items w = (Ok (listed w), w) /\
  (forall tag path name data,
     (tag, path, name, data) ∈ listed w <->
     winreg_importable (w_env w) = true /\ path = RUN_KEY /\
     exists h t, tag = hive_tag h /\
                 value_at h RUN_KEY name w = Some (data, t)) /\
  length (listed w)
    = (if winreg_importable (w_env w)
       then size (default ∅ (key_values HKEY_CURRENT_USER RUN_KEY w))
            + size (default ∅ (key_values HKEY_LOCAL_MACHINE RUN_KEY w))
       else 0)%nat.
Proof.
  split; [|split].
  - unfold listed. now rewrite list_startup_items_eq.
  - apply listed_iff.
  - unfold listed. rewrite list_startup_items_eq. cbn [fst].
    destruct (winreg_importable (w_env w)); [|reflexivity].
    rewrite length_app. unfold hive_entries, enumeration.
    destruct (key_values HKEY_CURRENT_USER RUN_KEY w),
      (key_values HKEY_LOCAL_MACHINE RUN_KEY w); simpl;
      rewrite ?length_fmap, ?length_map_to_list, ?map_size_empty; reflexivity.
Qed.

(** X7: after an entry is disabled the list no longer shows it under its
    hive, and shows every other entry it showed before. *)
Theorem disabled_entry_not_listed (name hive_str : string)
  (w : world Machine) (v : reg_value) :
  winreg_importable (w_env w) = true ->
  value_at (hive_of hive_str) RUN_KEY name w = Some v ->
  forall tag path n data,
    (tag, path, n, data) ∈ listed (toggle_startup name hive_str true w).2 <->
    (tag, path, n, data) ∈ listed w /\
    ~ (tag = hive_tag (hive_of hive_str) /\ n = name).
Proof.
  intros Himp Hv tag path n data.
  destruct (toggle_startup_after name hive_str true w v Himp Hv)
    as (w' & Hw' & Henv & Hgone & _).
  destruct (toggle_startup_elsewhere name hive_str true w) as (_ & Hfar).
  rewrite Hw' in Hfar |- *. cbn [snd] in *.
  rewrite !listed_iff, Henv.
  assert (Htag : forall h, hive_tag h = hive_tag (hive_of hive_str) ->
                           h = hive_of hive_str).
  { intros h. destruct h, (hive_of hive_str); simpl; congruence. }
  split.
  - intros (Hi & Hp & h & t & -> & Hval). split.
    + split; [exact Hi|]. split; [exact Hp|]. exists h, t. split; [reflexivity|].
      rewrite <- Hval. symmetry.
      destruct (decide (h = hive_of hive_str)) as [->|]; [|apply Hfar; auto].
      destruct (decide (n = name)) as [->|]; [|apply Hfar; auto].
      simpl in Hgone. congruence.
    + intros [Ht ->]. apply Htag in Ht as ->. simpl in Hgone. congruence.
  - intros ((Hi & Hp & h & t & -> & Hval) & Hnot).
    split; [exact Hi|]. split; [exact Hp|]. exists h, t. split; [reflexivity|].
    rewrite <- Hval. apply Hfar.
    destruct (decide (h = hive_of hive_str)) as [->|]; [|auto].
    right; right. intros ->. now apply Hnot.
Qed.

(** ** Visual effects *)

Lemma set_visual_eq (w : world Machine) :
  set_visual_fx_best_performance w =
    if winreg_importable (w_env w)
    then (Ok true,
          key_write HKEY_CURRENT_USER VISUAL_EFFECTS_KEY
            (<["VisualFXSetting" := BEST_PERFORMANCE]>
               (default ∅ (key_values HKEY_CURRENT_USER
                             VISUAL_EFFECTS_KEY w))) w)
    else (Ok false, w).
Proof.
  unfold set_visual_fx_best_performance.
  destruct (winreg_importable (w_env w)); [|reflexivity].
  cbn [negb]. unfold try_except, mbind.
  rewrite (bind_ok _ _ _ _ _ (CreateKey_eq _ _ w)).
  set (w1 := key_write _ _ _ w).
  assert (H1 : key_values HKEY_CURRENT_USER VISUAL_EFFECTS_KEY w1
               = Some (default ∅ (key_values HKEY_CURRENT_USER
                                    VISUAL_EFFECTS_KEY w))).
  { subst w1. rewrite key_values_write. now rewrite decide_True. }
  rewrite (bind_ok _ _ _ _ _ (SetValueEx_eq _ _ _ _ _ w1 _ H1)).
  subst w1. now rewrite key_write_twice.
Qed.

(** X9: applying the visual-effects tweak a second time changes nothing:
    the second call returns what the first returned and leaves the
    world of the first. *)
Theorem set_visual_fx_idempotent (w : world Machine) :
  set_visual_fx_best_performance (set_visual_fx_best_performance w).2
    = set_visual_fx_best_performance w.
Proof.
  rewrite (set_visual_eq w).
  destruct (winreg_importable (w_env w)) eqn:Himp; cbn [snd].
  - rewrite set_visual_eq. cbn [w_env key_write set_registry]. rewrite Himp.
    rewrite key_values_write, decide_True by auto. cbn [default].
    simpl. now rewrite insert_insert_eq, key_write_twice.
  - now rewrite set_visual_eq, Himp.
Qed.

(** ** Command runner: what reaches the log *)

Lemma logged_working (msg : log_entry) (w : world Machine) :
  w_log_faults w = [] ->
  w_log (logged msg w) = w_log w ++ [msg] /\ w_log_faults (logged msg w) = [].
Proof. unfold logged. intros H. rewrite H. simpl. auto. Qed.

(** X11: with a log that takes every write, [run] adds the command line
    first and then the output of the command: its standard output and
    error stream, stripped, each only when not empty, or the line for
    a timeout or a launch error. *)
Theorem run_logs_command_then_output (cmd : list string) (shell : bool)
  (timeout : Z) (w : world Machine) :
  w_log_faults w = [] ->
  w_log (run spawn cmd shell timeout w).2
    = w_log w ++ LRun cmd
        :: outcome_lines (spawn cmd shell timeout (w_machine w)).1.
Proof.
  intros Hok. unfold run, mbind.
  rewrite (bind_ok _ _ _ _ _ (log_eq (LRun cmd) w)).
  destruct (logged_working (LRun cmd) w Hok) as (Hlog & Hf).
  unfold try_except at 1, subprocess_run, M_bind at 1.
  rewrite logged_machine.
  destruct (spawn cmd shell timeout (w_machine w)) as [[p|e] m]; cbn [fst].
  - set (w1 := set_machine m _).
    assert (H1 : w_log w1 = w_log w ++ [LRun cmd] /\ w_log_faults w1 = [])
      by (subst w1; simpl; auto).
    clearbody w1. destruct H1 as (Hl1 & Hf1).
    unfold outcome_lines, pass, mret, M_ret, M_bind.
    destruct (PyStr.nonempty (stdout p)).
    + rewrite log_eq.
      destruct (logged_working (LStdout (PyStr.strip (stdout p))) w1 Hf1)
        as (Hl2 & Hf2).
      destruct (PyStr.nonempty (stderr p)).
      * rewrite log_eq. cbn [snd].
        destruct (logged_working (LStderr (PyStr.strip (stderr p))) _ Hf2)
          as (Hl3 & _).
        rewrite Hl3, Hl2, Hl1, <- ?app_assoc. simpl. reflexivity.
      * cbn [snd]. rewrite Hl2, Hl1, <- ?app_assoc. simpl. reflexivity.
    + destruct (PyStr.nonempty (stderr p)).
      * rewrite log_eq. cbn [snd].
        destruct (logged_working (LStderr (PyStr.strip (stderr p))) w1 Hf1)
          as (Hl3 & _).
        rewrite Hl3, Hl1, <- ?app_assoc. simpl. reflexivity.
      * cbn [snd]. rewrite Hl1, <- ?app_assoc. simpl. reflexivity.
  - set (w1 := set_machine m _).
    assert (H1 : w_log w1 = w_log w ++ [LRun cmd] /\ w_log_faults w1 = [])
      by (subst w1; simpl; auto).
    clearbody w1. destruct H1 as (Hl1 & Hf1).
    unfold outcome_lines, mbind, M_bind, mret, M_ret.
    destruct (exn_cls e); rewrite log_eq; cbn [snd];
      match goal with |- w_log (logged ?msg w1) = _ =>
        destruct (logged_working msg w1 Hf1) as (Hl2 & _); rewrite Hl2, Hl1
      end; rewrite <- ?app_assoc; simpl; reflexivity.
Qed.

(** ** Power plan: the commands launched *)

Lemma ensure_commands (w : world Machine) :
  exists w0,
    ensure_ultimate_listed spawn w = (Ok tt, w0) /\
    w_commands w0
      = w_commands w ++ LIST ::
          (if ultimate_listed_in
                (run_result (spawn LIST false 120 (w_machine w)).1)
           then [] else [DUPLICATE]).
Proof.
  destruct (run_spec spawn LIST false 120 w) as (w1 & Hrun & Hm & Hc & Hf).
  unfold ensure_ultimate_listed, run_default, mbind.
  rewrite (bind_ok _ _ _ _ _ Hrun).
  destruct (run_result _) as [[rc out] err]. cbn beta iota.
  unfold ultimate_listed_in.
  destruct (PyStr.contains _ _); cbn [negb].
  - exists w1. split; [reflexivity | exact Hc].
  - destruct (run_spec spawn DUPLICATE false 120 w1) as (w2 & Hrun2 & _ & Hc2 & _).
    unfold mbind. fold DUPLICATE. rewrite (bind_ok _ _ _ _ _ Hrun2).
    exists w2. split; [reflexivity|].
    rewrite Hc2, Hc, <- app_assoc. reflexivity.
Qed.

(** X12: [enable_ultimate] launches, in this order: the listing, the
    duplication of the Ultimate scheme exactly when its GUID does not
    occur, letter case apart, in the text [out + err] that [run]
    handed back for the listing (standard output directly followed by
    standard error, or the error text of a failed launch), the query
    of the active scheme, and the activation; it returns whether the
    activation completed with code 0. *)
Theorem enable_ultimate_commands (w : world Machine) :
  let '(rc, out, err) := run_result (spawn LIST false 120 (w_machine w)).1 in
  exists (ok : bool) (w' : world Machine) (m : Machine),
    enable_ultimate spawn w = (Ok ok, w') /\
    w_commands w'
      = w_commands w ++ [LIST]
        ++ (if PyStr.contains (PyStr.lower POWER_ULTIMATE_GUID)
                              (PyStr.lower (out +:+ err))
            then [] else [DUPLICATE])
        ++ [QUERY; SETACTIVE POWER_ULTIMATE_GUID] /\
    w_machine w'
      = (spawn (SETACTIVE POWER_ULTIMATE_GUID) false 120 m).2 /\
    (ok = true <->
     exists p, (spawn (SETACTIVE POWER_ULTIMATE_GUID) false 120 m).1 = Ok p /\
               returncode p = 0).
Proof.
  destruct (ensure_commands w) as (w0 & He & Hc0).
  unfold ultimate_listed_in in Hc0.
  destruct (run_result (spawn LIST false 120 (w_machine w)).1)
    as [[rc out] err].
  destruct (get_active_spec spawn w0) as (wq & Hq & _ & Hcq & _).
  set (prev := parse_active _) in Hq.
  destruct (activate_spec spawn (save_previous prev wq).2)
    as (w' & Ha & Hm' & Hc' & _).
  destruct (saved_rest prev wq) as (Hms & Hcs & _).
  eexists _, w', (w_machine wq).
  split; [exact (enable_eq spawn _ _ _ _ _ _ He Hq Ha)|].
  split; [|split].
  - rewrite Hc', Hcs, Hcq, Hc0.
    destruct (PyStr.contains _ _); simpl; rewrite <- !app_assoc; reflexivity.
  - now rewrite Hm', Hms.
  - rewrite Hms. split.
    + apply run_result_zero.
    + intros (p & Hp & Hrc). rewrite Hp. simpl. now rewrite Hrc.
Qed.

(** ** Power plan: restoring *)

Lemma startswith_split (p s : string) :
  PyStr.startswith p s = true -> exists r, s = p +:+ r.
Proof.
  revert s. induction p as [|a p IH]; intros s; simpl.
  - exists s. reflexivity.
  - destruct s as [|b s]; [discriminate|].
    destruct (Ascii.eqb_spec a b) as [->|]; [|discriminate].
    simpl. intros H. destruct (IH _ H) as (r & ->). now exists r.
Qed.

(** A line that starts with the key has the text after the key as its
    value. *)
Lemma split_saved_line (line : string) :
  PyStr.startswith "previous_scheme=" line = true ->
  exists x, line = "previous_scheme=" +:+ x /\ split_eq_item1 line = Ok x.
Proof.
  intros H. destruct (startswith_split _ _ H) as (x & ->).
  exists x. split; reflexivity.
Qed.

(** The scan never raises. *)
Lemma scan_previous_returns (lines : list string) (prev : pyval) :
  exists p, scan_previous lines prev = Ok p.
Proof.
  revert prev. induction lines as [|line lines IH]; intros prev; cbn [scan_previous app]; [eauto|].
  destruct (PyStr.startswith "previous_scheme=" line) eqn:Hs; [|apply IH].
  destruct (split_saved_line _ Hs) as (x & _ & ->). apply IH.
Qed.

Lemma scan_previous_no_key (lines : list string) (prev : pyval) :
  Forall (λ l, PyStr.startswith "previous_scheme=" l = false) lines ->
  scan_previous lines prev = Ok prev.
Proof.
  intros H. revert prev. induction H as [|l lines Hl _ IH]; intros prev;
    cbn [scan_previous]; [reflexivity|]. rewrite Hl. apply IH.
Qed.

Lemma scan_previous_app (before after : list string) (prev : pyval) :
  exists p, scan_previous before prev = Ok p /\
            scan_previous (before ++ after) prev = scan_previous after p.
Proof.
  revert prev. induction before as [|l before IH]; intros prev; cbn [scan_previous app]; [eauto|].
  destruct (PyStr.startswith "previous_scheme=" l) eqn:Hs; [|apply IH].
  destruct (split_saved_line _ Hs) as (x & _ & ->). apply IH.
Qed.

(** What [restore_power] does once the state file is read. *)
Lemma restore_power_read (text : string) (w : world Machine) :
  w_state w = Some text ->
  state_readable (w_env w) = true ->
  restore_power spawn w =
    match scan_previous (PyStr.splitlines text) PyNone with
    | Ok (PyStr g) =>
        if PyStr.nonempty g
        then (Ok ((run_result
                     (spawn (SETACTIVE g) false 120 (w_machine w)).1).1.1 =? 0),
              (run spawn (SETACTIVE g) false 120 w).2)
        else (Ok false, w)
    | _ => (Ok false, w)
    end.
Proof.
  intros Hst Hrd.
  assert (Hex : state_exists w = (Ok true, w)).
  { unfold state_exists. now rewrite Hst. }
  assert (Hread : state_read_text w = (Ok text, w)).
  { unfold state_read_text. now rewrite Hst, Hrd. }
  unfold restore_power, try_except, mbind.
  rewrite (bind_ok _ _ _ _ _ Hex). cbn [negb].
  rewrite (bind_ok _ _ _ _ _ Hread).
  unfold lift, M_bind at 1.
  destruct (scan_previous (PyStr.splitlines text) PyNone) as [[|g]|e];
    [reflexivity| |reflexivity].
  destruct (PyStr.nonempty g); [|reflexivity].
  destruct (run_spec spawn (SETACTIVE g) false 120 w) as (w' & Hrun & _).
  unfold run_default. fold (SETACTIVE g). rewrite (bind_ok _ _ _ _ _ Hrun).
  rewrite Hrun. cbn [snd].
  now destruct (run_result _) as [[rc out] err].
Qed.

(** X13: [restore_power] never raises and never writes the state file, the
    file system or the registry; it launches either nothing or one
    [/setactive] command, and it returns [True] only when that command
    was launched and completed with code 0. *)
Theorem restore_power_is_safe (w : world Machine) :
  exists (r : bool) (w' : world Machine),
    restore_power spawn w = (Ok r, w') /\
    w_state w' = w_state w /\ w_fs w' = w_fs w /\
    w_registry w' = w_registry w /\
    (w' = w /\ r = false \/
     exists g, w_commands w' = w_commands w ++ [SETACTIVE g] /\
               (r = true <->
                exists p, (spawn (SETACTIVE g) false 120 (w_machine w)).1 = Ok p
                          /\ returncode p = 0)).
Proof.
  destruct (w_state w) as [text|] eqn:Hst.
  2:{ exists false, w. split; [|auto 10].
      unfold restore_power, try_except, mbind, M_bind, state_exists.
      now rewrite Hst. }
  destruct (state_readable (w_env w)) eqn:Hrd.
  2:{ exists false, w. split; [|auto 10].
      assert (Hex : state_exists w = (Ok true, w)).
      { unfold state_exists. now rewrite Hst. }
      unfold restore_power, try_except, mbind.
      rewrite (bind_ok _ _ _ _ _ Hex). cbn [negb].
      unfold M_bind at 1, state_read_text. now rewrite Hst, Hrd. }
  rewrite (restore_power_read text w Hst Hrd).
  destruct (scan_previous (PyStr.splitlines text) PyNone) as [[|g]|e];
    [exists false, w; auto 10| |exists false, w; auto 10].
  destruct (PyStr.nonempty g); [|exists false, w; auto 10].
  destruct (run_spec spawn (SETACTIVE g) false 120 w)
    as (w' & Hrun & _ & Hc & (Hs & Hfs & _ & Hreg & _)).
  rewrite Hrun. cbn [snd]. eexists _, w'. split; [reflexivity|].
  rewrite Hst in Hs. split; [exact Hs|]. split; [exact Hfs|].
  split; [exact Hreg|]. right. exists g. split; [exact Hc|]. split.
  - apply run_result_zero.
  - intros (p & Hp & Hrc). rewrite Hp. simpl. now rewrite Hrc.
Qed.

(** X14: a state file that cannot be read, or that has no line starting
    with the key, is no saved plan: [restore_power] returns [False]
    and launches nothing. *)
Theorem restore_power_unusable_state (text : string) (w : world Machine) :
  w_state w = Some text ->
  state_readable (w_env w) = false \/
  Forall (λ l, PyStr.startswith "previous_scheme=" l = false)
         (PyStr.splitlines text) ->
  restore_power spawn w = (Ok false, w).
Proof.
  intros Hst Hbad.
  destruct (state_readable (w_env w)) eqn:Hrd.
  - destruct Hbad as [?|Hno]; [discriminate|].
    rewrite (restore_power_read text w Hst Hrd).
    now rewrite (scan_previous_no_key _ _ Hno).
  - assert (Hex : state_exists w = (Ok true, w)).
    { unfold state_exists. now rewrite Hst. }
    unfold restore_power, try_except, mbind.
    rewrite (bind_ok _ _ _ _ _ Hex). cbn [negb].
    unfold M_bind at 1, state_read_text. now rewrite Hst, Hrd.
Qed.

(** X15: of several lines with the key the last one counts, and what
    follows the key is taken as it stands, stripped of surrounding
    whitespace and not checked to be a GUID: that text is what
    [restore_power] asks [powercfg] to activate. *)
Theorem restore_power_last_line_wins (text x : string)
  (before after : list string) (w : world Machine) :
  w_state w = Some text ->
  state_readable (w_env w) = true ->
  PyStr.splitlines text = before ++ ("previous_scheme=" +:+ x) :: after ->
  Forall (λ l, PyStr.startswith "previous_scheme=" l = false) after ->
  PyStr.nonempty (PyStr.strip x) = true ->
  exists r w',
    restore_power spawn w = (Ok r, w') /\
    w_commands w' = w_commands w ++ [SETACTIVE (PyStr.strip x)].
Proof.
  intros Hst Hrd Hlines Hafter Hne.
  rewrite (restore_power_read text w Hst Hrd), Hlines.
  destruct (scan_previous_app before (("previous_scheme=" +:+ x) :: after) PyNone)
    as (p & _ & ->).
  assert (Hscan : scan_previous (("previous_scheme=" +:+ x) :: after) p
                  = Ok (PyStr (PyStr.strip x))).
  { cbn [scan_previous].
    change (PyStr.startswith "previous_scheme=" ("previous_scheme=" +:+ x))
      with true.
    change (split_eq_item1 ("previous_scheme=" +:+ x)) with (Ok x).
    cbn [mbind result_bind]. now apply scan_previous_no_key. }
  rewrite Hscan, Hne.
  destruct (run_spec spawn (SETACTIVE (PyStr.strip x)) false 120 w)
    as (w' & Hrun & _ & Hc & _).
  rewrite Hrun. cbn [snd]. eauto.
Qed.

(** ** Temp cleaner: age, frame and bytes *)





Lemma tree_size_eq (name : string) (files : list file) (subdirs : list dir)
  (listable removable : bool) :
  tree_size (Dir name files subdirs listable removable)
    = files_size files + trees_size subdirs.
Proof.
  cbn [tree_size]. apply (f_equal (Z.add (files_size files))).
  unfold trees_size.
  induction subdirs as [|c subdirs IH]; [reflexivity|].
  cbn [foldr]. now rewrite <- IH.
Qed.

Lemma tree_size_parts (d : dir) :
  tree_size d = files_size (d_files d) + trees_size (d_subdirs d).
Proof. destruct d. apply tree_size_eq. Qed.

Lemma clean_files_size (cutoff : option Q) (root : path) (files : list file)
  (freed : Z) :
  files_size (clean_files cutoff root files freed).1.1
  + (clean_files cutoff root files freed).1.2
  = files_size files + freed.
Proof.
  revert freed. induction files as [|f files IH]; intros freed;
    cbn [clean_files]; [reflexivity|].
  destruct (delete_attempt cutoff f) as [[|sz]|e] eqn:Hd.
  - specialize (IH freed).
    destruct (clean_files cutoff root files freed) as [[kept freed'] vs].
    cbn [fst snd files_size foldr] in *. unfold files_size in *. lia.
  - assert (Hsz : sz = f_size f).
    { apply (outcome_deleted cutoff f sz). now rewrite Hd. }
    specialize (IH (freed + sz)).
    destruct (clean_files cutoff root files (freed + sz)) as [[kept freed'] vs].
    cbn [fst snd files_size foldr] in *. unfold files_size in *. lia.
  - specialize (IH freed).
    destruct (clean_files cutoff root files freed) as [[kept freed'] vs].
    cbn [fst snd files_size foldr] in *. unfold files_size in *. lia.
Qed.

(** Only directories that hold nothing are removed. *)
Lemma remove_subdirs_size (l : list dir) :
  trees_size (remove_subdirs l) = trees_size l.
Proof.
  induction l as [|d l IH]; [reflexivity|]. cbn [remove_subdirs].
  unfold rmdir.
  destruct (d_files d) eqn:Hf, (d_subdirs d) eqn:Hs;
    try (unfold trees_size in *; cbn [foldr]; now rewrite IH).
  destruct (d_removable d).
  - rewrite IH. unfold trees_size. cbn [foldr].
    rewrite (tree_size_parts d), Hf, Hs. reflexivity.
  - unfold trees_size in *. cbn [foldr]. now rewrite IH.
Qed.

Lemma walk_clean_size (cutoff : option Q) (d : dir) :
  forall (root : path) (freed : Z),
    tree_size (walk_clean cutoff root d freed).1.1
    + (walk_clean cutoff root d freed).1.2
    = tree_size d + freed.
Proof.
  induction d as [name files subdirs listable removable IH] using dir_tree_ind.
  intros root freed. rewrite walk_clean_step.
  destruct listable; cbn [negb]; [|reflexivity].
  assert (Hsub : trees_size (walk_subdirs cutoff root subdirs freed).1.1
                 + (walk_subdirs cutoff root subdirs freed).1.2
                 = trees_size subdirs + freed).
  { clear files. revert freed.
    induction IH as [|c l Hc _ IHl]; intros freed; [reflexivity|].
    cbn [walk_subdirs].
    specialize (Hc (root ++ [d_name c]) freed).
    destruct (walk_clean cutoff (root ++ [d_name c]) c freed)
      as [[c' freed1] vs1].
    specialize (IHl freed1).
    destruct (walk_subdirs cutoff root l freed1) as [[l' freed2] vs2].
    cbn [fst snd] in *. unfold trees_size in *. cbn [foldr]. lia. }
  destruct (walk_subdirs cutoff root subdirs freed) as [[subdirs' freed1] vs1].
  pose proof (clean_files_size cutoff root files freed1) as Hfiles.
  destruct (clean_files cutoff root files freed1) as [[files' freed2] vs2].
  cbn [fst snd] in *.
  rewrite !tree_size_eq, remove_subdirs_size. lia.
Qed.

Lemma update_first_size (n : string) (f : dir -> dir) (l : list dir) (c : dir) :
  List.find (named n) l = Some c ->
  trees_size (update_first n f l)
    = trees_size l - tree_size c + tree_size (f c).
Proof.
  induction l as [|x l IH]; cbn [List.find update_first]; [discriminate|].
  destruct (named n x).
  - intros [= ->]. unfold trees_size. cbn [foldr]. lia.
  - intros H. specialize (IH H). unfold trees_size in *. cbn [foldr]. lia.
Qed.

Lemma replace_dir_size (t : path) :
  forall (fs d d' : dir),
    lookup_dir t fs = Some d ->
    tree_size (replace_dir t d' fs)
      = tree_size fs - tree_size d + tree_size d'.
Proof.
  induction t as [|n t IH]; intros fs d d'; cbn [lookup_dir replace_dir].
  - intros [= ->]. lia.
  - destruct (List.find (named n) (d_subdirs fs)) as [c|] eqn:Hc;
      cbn [mbind option_bind]; [|discriminate].
    intros Hd. rewrite tree_size_eq, (tree_size_parts fs).
    rewrite (update_first_size n _ _ c Hc), (IH c d d' Hd). lia.
Qed.

Lemma clean_targets_size (cutoff : option Q) (targets : list path) :
  forall (fs : dir) (freed : Z),
    tree_size (clean_targets cutoff targets fs freed).1.1
    + (clean_targets cutoff targets fs freed).1.2
    = tree_size fs + freed.
Proof.
  induction targets as [|t targets IH]; intros fs freed; cbn [clean_targets];
    [reflexivity|].
  destruct (lookup_dir t fs) as [d|] eqn:Hd; [|apply IH].
  pose proof (walk_clean_size cutoff d t freed) as Hw.
  destruct (walk_clean cutoff t d freed) as [[d' freed1] vs1].
  specialize (IH (replace_dir t d' fs) freed1).
  destruct (clean_targets cutoff targets _ freed1) as [[fs' freed2] vs2].
  cbn [fst snd] in *. rewrite (replace_dir_size t fs d d' Hd) in IH. lia.
Qed.

(** X18: when line 137 goes through, the total [clean_temp] returns is
    what the file system lost: the bytes held by the tree afterwards
    plus the total are the bytes it held before, also when two targets
    name the same directory or one lies inside another. *)
Theorem clean_temp_reports_bytes_gone (include_system aggressive : bool)
  (older_days : Z) (w : world Machine) :
  older_days = 0 \/ Z.abs (older_days * 86400) < 2 ^ 1024 - 2 ^ 970 ->
  exists freed w',
    clean_temp include_system aggressive older_days w = (Ok freed, w') /\
    tree_size (w_fs w') + freed = tree_size (w_fs w).
Proof.
  intros Hs%span_overflows_false.
  rewrite clean_temp_world, Hs. cbn zeta.
  eexists _, _. split; [reflexivity|].
  set (r := clean_targets _ _ (w_fs w) 0).
  destruct (logged_frame (LTempCleaned r.1.2)
              (set_fs r.1.1
                 (if older_days =? 0 then w else set_ticks (S (w_ticks w)) w)))
    as (_ & -> & _).
  cbn [w_fs set_fs].
  pose proof (clean_targets_size (cutoff_of older_days w)
                (temp_targets (w_env w) include_system aggressive)
                (w_fs w) 0) as H.
  fold r in H. lia.
Qed.

Lemma clean_targets_missing (cutoff : option Q) (targets : list path)
  (fs : dir) (freed : Z) :
  Forall (λ t, lookup_dir t fs = None) targets ->
  clean_targets cutoff targets fs freed = (fs, freed, []).
Proof.
  induction 1 as [|t targets Ht _ IH]; cbn [clean_targets]; [reflexivity|].
  now rewrite Ht.
Qed.

(** X19: target directories that do not exist are skipped: when none of
    them exists, [clean_temp] leaves the file system as it was, and
    returns 0 when line 137 goes through. *)
Theorem clean_temp_missing_targets (include_system aggressive : bool)
  (older_days : Z) (w : world Machine) :
  Forall (λ t, lookup_dir t (w_fs w) = None)
         (temp_targets (w_env w) include_system aggressive) ->
  w_fs (clean_temp include_system aggressive older_days w).2 = w_fs w /\
  (older_days = 0 \/ Z.abs (older_days * 86400) < 2 ^ 1024 - 2 ^ 970 ->
   exists w',
     clean_temp include_system aggressive older_days w = (Ok 0, w')).
Proof.
  intros Hmiss. rewrite clean_temp_world. split.
  - destruct (span_overflows older_days); [reflexivity|]. cbn zeta.
    rewrite (clean_targets_missing _ _ _ 0 Hmiss). cbn [fst snd].
    destruct (logged_frame (LTempCleaned 0)
                (set_fs (w_fs w)
                   (if older_days =? 0 then w
                    else set_ticks (S (w_ticks w)) w)))
      as (_ & -> & _).
    reflexivity.
  - intros Hs%span_overflows_false. rewrite Hs. cbn zeta.
    rewrite (clean_targets_missing _ _ _ 0 Hmiss). cbn [fst snd].
    eexists. reflexivity.
Qed.

(** ** CPU benchmark: the sign of the rate *)

Lemma count_primes_bounds (n : Z) :
  0 <= count_primes n <= Z.max 0 (n - 2) /\
  (count_primes n = 0 <-> n <= 2).
Proof.
  rewrite count_primes_correct. unfold range.
  pose proof (length_filter Z.prime (seqZ 2 (n - 2))) as Hle.
  rewrite length_seqZ in Hle. split; [lia|]. split.
  - intros H0. destruct (Z_le_gt_dec n 2) as [|Hn]; [assumption|]. exfalso.
    assert (Hin : 2 ∈ filter Z.prime (seqZ 2 (n - 2))).
    { apply list_elem_of_filter. split; [exact Z.prime_2|].
      apply elem_of_seqZ. lia. }
    destruct (filter Z.prime (seqZ 2 (n - 2))); [inversion Hin|].
    simpl in H0. lia.
  - intros Hn. rewrite seqZ_nil by lia. reflexivity.
Qed.

(** X20: the count never exceeds the number of candidates, and it is zero
    exactly for [n <= 2]; so over a positive elapsed time [bench_cpu]
    returns a positive rate exactly from [n = 3] on, and the rate 0
    below. *)
Theorem bench_cpu_positive_from_three (n : Z) (w : world Machine) :
  (0 < elapsed w)%Q ->
  exists rate w',
    bench_cpu n w = (Ok rate, w') /\
    (0 <= rate)%Q /\
    ((0 < rate)%Q <-> 3 <= n) /\
    0 <= count_primes n <= Z.max 0 (n - 2).
Proof.
  intros He.
  destruct (count_primes_bounds n) as (Hb & Hz).
  assert (Hne : Qeq_bool (elapsed w) 0 = false).
  { destruct (Qeq_bool (elapsed w) 0) eqn:Hq; [|reflexivity].
    apply Qeq_bool_iff in Hq. rewrite Hq in He.
    now apply Qlt_irrefl in He. }
  exists (inject_Z (count_primes n) / elapsed w)%Q. eexists. split.
  { unfold bench_cpu, mbind, M_bind, time_time. cbn.
    unfold elapsed in Hne. rewrite Hne. reflexivity. }
  assert (Hinv : (0 < / elapsed w)%Q) by now apply Qinv_lt_0_compat.
  split; [|split; [|exact Hb]].
  - unfold Qdiv. apply Qmult_le_0_compat; [|now apply Qlt_le_weak].
    change 0%Q with (inject_Z 0). rewrite <- Zle_Qle. lia.
  - split.
    + intros Hpos. destruct (Z_le_gt_dec n 2) as [Hn|]; [|lia]. exfalso.
      apply Hz in Hn. rewrite Hn in Hpos. unfold Qdiv in Hpos.
      rewrite Qmult_0_l in Hpos. now apply Qlt_irrefl in Hpos.
    + intros Hn. unfold Qdiv. apply Qmult_lt_0_compat; [|exact Hinv].
      change 0%Q with (inject_Z 0). rewrite <- Zlt_Qlt.
      assert (count_primes n <> 0) by (rewrite Hz; lia). lia.
Qed.

End MoreProperties.

(** * The registry calls when the system can refuse them *)

Section GuardedProperties.

Context {Machine : Type}.
Variable refused : access -> registry -> option exn.

(** The lookup of lines 249-253: a refusal or a missing key or value
    with [FileNotFoundError] is the early [return False]; any other
    refusal goes on to the caller. *)
Lemma guarded_find_value_eq (h : hive) (k name : string) (w : world Machine) :
  Guarded.find_value refused h k name w =
    match refused (KeyOpen h k) (w_registry w) with
    | Some e =>
        match exn_cls e with
        | FileNotFoundError => (Ok None, w)
        | _ => (Raise e, w)
        end
    | None =>
        match key_values h k w with
        | None => (Ok None, w)
        | Some vals =>
            match refused (ValueQuery (h, k) name) (w_registry w) with
            | Some e =>
                match exn_cls e with
                | FileNotFoundError => (Ok None, w)
                | _ => (Raise e, w)
                end
            | None => (Ok (vals !! name), w)
            end
        end
    end.
Proof.
  unfold Guarded.find_value, try_except_not_found, try_except,
    Guarded.OpenKey, Guarded.QueryValueEx, Guarded.check, mbind, M_bind,
    OpenKey, QueryValueEx, key_values, not_found, raise.
  destruct (refused (KeyOpen h k) (w_registry w)) as [e|];
    [now destruct (exn_cls e)|].
  destruct (hive_keys h (w_registry w) !! k) as [vals|] eqn:Hk; cbn;
    [|reflexivity].
  destruct (refused (ValueQuery (h, k) name) (w_registry w)) as [e|];
    [now destruct (exn_cls e)|].
  rewrite Hk. now destruct (vals !! name).
Qed.

(** What the guarded [move_value] does, in full. *)
Lemma guarded_move_value_eq (h : hive) (src dst name : string)
  (w : world Machine) :
  src <> dst ->
  Guarded.move_value refused h src dst name w =
    match Guarded.find_value refused h src name w with
    | (Raise e, w') => (Raise e, w')
    | (Ok None, w') => (Ok false, w')
    | (Ok (Some v), _) =>
        match refused (KeyCreate h dst) (w_registry w) with
        | Some e => (Raise e, w)
        | None =>
            let w1 := key_write h dst (default ∅ (key_values h dst w)) w in
            match refused (ValueSet (h, dst) name) (w_registry w1) with
            | Some e => (Raise e, w1)
            | None =>
                let w2 :=
                  key_write h dst
                    (<[name := v]> (default ∅ (key_values h dst w))) w in
                match refused (KeyOpenSetValue h src) (w_registry w2) with
                | Some e => (Raise e, w2)
                | None =>
                    match refused (ValueDelete (h, src) name)
                                  (w_registry w2) with
                    | Some e => (Raise e, w2)
                    | None =>
                        (Ok true,
                         key_write h src
                           (delete name (default ∅ (key_values h src w))) w2)
                    end
                end
            end
        end
    end.
Proof.
  intros Hne. unfold Guarded.move_value, mbind. unfold M_bind at 1.
  pose proof (guarded_find_value_eq h src name w) as Hfind.
  destruct (Guarded.find_value refused h src name w) as [[[[value vtype]|]|e] w'];
    [|reflexivity|reflexivity].
  assert (Hw : w' = w /\ exists vals, key_values h src w = Some vals /\
                                      vals !! name = Some (value, vtype)).
  { revert Hfind.
    destruct (refused (KeyOpen h src) _) as [e|];
      [destruct (exn_cls e); intros [= <-] || discriminate; discriminate|].
    destruct (key_values h src w) as [vals|]; [|discriminate].
    destruct (refused (ValueQuery _ _) _) as [e|];
      [destruct (exn_cls e); discriminate|].
    intros [= Hv ->]. eauto. }
  destruct Hw as (-> & vals & Hsrc & Hname). clear Hfind.
  unfold Guarded.CreateKey, Guarded.SetValueEx, Guarded.OpenKey_set_value,
    Guarded.DeleteValue, Guarded.check, mbind, M_bind.
  destruct (refused (KeyCreate h dst) (w_registry w)) as [e|]; [reflexivity|].
  rewrite CreateKey_eq. cbn zeta.
  set (w1 := key_write h dst (default ∅ (key_values h dst w)) w).
  assert (Hdst1 : key_values h dst w1 = Some (default ∅ (key_values h dst w))).
  { subst w1. rewrite key_values_write. now rewrite decide_True. }
  destruct (refused (ValueSet (h, dst) name) (w_registry w1)) as [e|];
    [reflexivity|].
  rewrite (SetValueEx_eq h dst name vtype value w1 _ Hdst1).
  subst w1. rewrite key_write_twice.
  set (w2 := key_write h dst _ w).
  assert (Hsrc2 : key_values h src w2 = Some vals).
  { subst w2. rewrite key_values_write, decide_False; [exact Hsrc|].
    intros [_ ?]. contradiction. }
  destruct (refused (KeyOpenSetValue h src) (w_registry w2)) as [e|];
    [reflexivity|].
  rewrite (OpenKey_ok _ _ _ _ Hsrc2).
  destruct (refused (ValueDelete (h, src) name) (w_registry w2)) as [e|];
    [reflexivity|].
  rewrite (DeleteValue_eq h src name w2 _ _ Hsrc2 Hname).
  now rewrite Hsrc.
Qed.

Lemma value_at_created (h h' : hive) (k k' name : string)
  (w : world Machine) :
  value_at h' k' name (key_write h k (default ∅ (key_values h k w)) w)
    = value_at h' k' name w.
Proof.
  rewrite value_at_write.
  destruct (decide (h' = h /\ k' = k)) as [[-> ->]|_]; [|reflexivity].
  unfold value_at. destruct (key_values h k w); [reflexivity|].
  apply lookup_empty.
Qed.

Lemma value_at_other_key (h : hive) (src dst name : string)
  (vals : gmap string reg_value) (w : world Machine) :
  src <> dst ->
  value_at h src name (key_write h dst vals w) = value_at h src name w.
Proof.
  intros Hne. rewrite value_at_write, decide_False; [reflexivity|].
  intros [_ ?]. contradiction.
Qed.

Lemma guarded_toggle_startup_eq (name hive_str : string) (disable : bool)
  (w : world Machine) :
  Guarded.toggle_startup refused name hive_str disable w =
    if winreg_importable (w_env w)
    then Guarded.move_value refused (hive_of hive_str) (toggle_src disable)
                            (toggle_dst disable) name w
    else (Ok false, w).
Proof.
  unfold Guarded.toggle_startup, toggle_src, toggle_dst.
  destruct (winreg_importable (w_env w)), disable; reflexivity.
Qed.

(** X1: [toggle_startup] when registry calls can be refused.  A result
    of [False] means nothing has changed.  A result of [True] means
    the value has moved from the source key to the destination key.
    The call raises only an exception of a refused call (a refused
    lookup other than [FileNotFoundError], or one of the calls of lines
    254-256, which no [try] covers); the entry is never lost then: the
    source key holds what it held, and the destination key is as it
    was or already holds the copy.  When nothing is refused it is the
    [toggle_startup] of the elevated process: it does not raise and
    returns [True] exactly when [winreg] is there and the source key
    holds a value of that name. *)
Theorem toggle_startup_never_loses_entry (name hive_str : string)
  (disable : bool) (w : world Machine) :
  let h := hive_of hive_str in
  let src := toggle_src disable in
  let dst := toggle_dst disable in
  let r := Guarded.toggle_startup refused name hive_str disable w in
  (r.1 = Ok false -> r.2 = w) /\
  (r.1 = Ok true ->
   exists v, value_at h src name w = Some v /\
             value_at h src name r.2 = None /\
             value_at h dst name r.2 = Some v) /\
  (forall e, r.1 = Raise e ->
     (exists a reg, refused a reg = Some e) /\
     value_at h src name r.2 = value_at h src name w /\
     (value_at h dst name r.2 = value_at h dst name w \/
      value_at h dst name r.2 = value_at h src name w)) /\
  ((forall a reg, refused a reg = None) ->
   r = toggle_startup name hive_str disable w /\
   r.1 = Ok (winreg_importable (w_env w)
             && bool_decide (is_Some (value_at h src name w)))).
Proof.
  cbn zeta. rewrite guarded_toggle_startup_eq, toggle_startup_full.
  pose proof (toggle_src_dst disable) as Hne.
  set (h := hive_of hive_str). set (src := toggle_src disable) in *.
  set (dst := toggle_dst disable) in *.
  destruct (winreg_importable (w_env w)).
  2:{ cbn [fst snd andb]. repeat split; try discriminate; reflexivity. }
  rewrite (guarded_move_value_eq h src dst name w Hne), guarded_find_value_eq.
  cbn [andb].
  destruct (refused (KeyOpen h src) (w_registry w)) as [e|] eqn:R1.
  { destruct (exn_cls e); cbn [fst snd];
      (split; [|split; [|split]]); try discriminate; try reflexivity;
      try (intros Hnone; rewrite Hnone in R1; discriminate);
      intros e' [= <-]; eauto 6. }
  destruct (key_values h src w) as [vals|] eqn:Hsrc.
  2:{ assert (Hv : value_at h src name w = None)
        by (unfold value_at; now rewrite Hsrc).
      rewrite Hv. cbn [fst snd].
      repeat split; try discriminate; reflexivity. }
  destruct (refused (ValueQuery (h, src) name) (w_registry w)) as [e|] eqn:R2.
  { destruct (exn_cls e); cbn [fst snd];
      (split; [|split; [|split]]); try discriminate; try reflexivity;
      try (intros Hnone; rewrite Hnone in R2; discriminate);
      intros e' [= <-]; eauto 6. }
  destruct (vals !! name) as [v|] eqn:Hname.
  2:{ assert (Hv : value_at h src name w = None)
        by (unfold value_at; now rewrite Hsrc).
      rewrite Hv. cbn [fst snd].
      repeat split; try discriminate; reflexivity. }
  assert (Hv : value_at h src name w = Some v)
    by (unfold value_at; now rewrite Hsrc).
  rewrite Hv.
  destruct (refused (KeyCreate h dst) (w_registry w)) as [e|] eqn:R3.
  { cbn [fst snd]. (split; [|split; [|split]]); try discriminate.
    - intros e' [= <-]. rewrite ?Hv. eauto 6.
    - intros Hnone. rewrite Hnone in R3. discriminate. }
  cbn zeta.
  destruct (refused (ValueSet (h, dst) name) _) as [e|] eqn:R4.
  { cbn [fst snd]. (split; [|split; [|split]]); try discriminate.
    - intros e' [= <-]. split; [eauto|].
      rewrite !value_at_created. auto.
    - intros Hnone. rewrite Hnone in R4. discriminate. }
  set (w2 := key_write h dst (<[name := v]> (default ∅ (key_values h dst w))) w).
  assert (Hsrc2 : value_at h src name w2 = Some v).
  { subst w2. now rewrite value_at_other_key. }
  assert (Hdst2 : value_at h dst name w2 = Some v).
  { subst w2. rewrite value_at_write, decide_True by auto.
    apply lookup_insert_eq. }
  destruct (refused (KeyOpenSetValue h src) _) as [e|] eqn:R5.
  { cbn [fst snd]. (split; [|split; [|split]]); try discriminate.
    - intros e' [= <-]. split; [eauto|]. rewrite Hsrc2, Hdst2, ?Hv. auto.
    - intros Hnone. rewrite Hnone in R5. discriminate. }
  destruct (refused (ValueDelete (h, src) name) _) as [e|] eqn:R6.
  { cbn [fst snd]. (split; [|split; [|split]]); try discriminate.
    - intros e' [= <-]. split; [eauto|]. rewrite Hsrc2, Hdst2, ?Hv. auto.
    - intros Hnone. rewrite Hnone in R6. discriminate. }
  cbn [fst snd]. (split; [|split; [|split]]); try discriminate.
  - intros _. exists v. split; [reflexivity|]. split.
    + rewrite value_at_write, decide_True by auto. apply lookup_delete_eq.
    + rewrite value_at_other_key by (intros ?; now apply Hne). exact Hdst2.
  - intros _. split; [reflexivity|].
    rewrite bool_decide_eq_true_2; [reflexivity|]. eauto.
Qed.

Lemma guarded_set_visual_eq (w : world Machine) :
  Guarded.set_visual_fx_best_performance refused w =
    if winreg_importable (w_env w)
    then
      match refused (KeyCreate HKEY_CURRENT_USER VISUAL_EFFECTS_KEY)
                    (w_registry w) with
      | Some _ => (Ok false, w)
      | None =>
          let w1 :=
            key_write HKEY_CURRENT_USER VISUAL_EFFECTS_KEY
              (default ∅ (key_values HKEY_CURRENT_USER VISUAL_EFFECTS_KEY w))
              w in
          match refused (ValueSet (HKEY_CURRENT_USER, VISUAL_EFFECTS_KEY)
                                  "VisualFXSetting") (w_registry w1) with
          | Some _ => (Ok false, w1)
          | None =>
              (Ok true,
               key_write HKEY_CURRENT_USER VISUAL_EFFECTS_KEY
                 (<["VisualFXSetting" := BEST_PERFORMANCE]>
                    (default ∅ (key_values HKEY_CURRENT_USER
                                  VISUAL_EFFECTS_KEY w))) w)
          end
      end
    else (Ok false, w).
Proof.
  unfold Guarded.set_visual_fx_best_performance.
  destruct (winreg_importable (w_env w)); [|reflexivity].
  cbn [negb]. unfold try_except, Guarded.CreateKey, Guarded.SetValueEx,
    Guarded.check, mbind, M_bind.
  destruct (refused (KeyCreate _ _) (w_registry w)) as [e|]; [reflexivity|].
  rewrite CreateKey_eq. cbn zeta.
  set (w1 := key_write _ _ _ w).
  assert (H1 : key_values HKEY_CURRENT_USER VISUAL_EFFECTS_KEY w1
               = Some (default ∅ (key_values HKEY_CURRENT_USER
                                    VISUAL_EFFECTS_KEY w))).
  { subst w1. rewrite key_values_write. now rewrite decide_True. }
  destruct (refused (ValueSet _ _) (w_registry w1)) as [e|]; [reflexivity|].
  rewrite (SetValueEx_eq _ _ _ _ _ w1 _ H1).
  subst w1. now rewrite key_write_twice.
Qed.

(** X8: [set_visual_fx_best_performance] when registry calls can be
    refused.  It never raises: a refused [CreateKey] or [SetValueEx]
    is caught and reported as [False].  It returns [True] exactly when
    [winreg] is there and both calls go through, and then
    [VisualFXSetting] under the visual effects key of the current
    user is the DWORD 2.  When it returns [False] no value of the
    registry has changed (the key may have been created, empty).  In
    every case no other value of the registry and nothing outside the
    registry changes. *)
Theorem set_visual_fx_reports_failure (w : world Machine) :
  let created :=
    key_write HKEY_CURRENT_USER VISUAL_EFFECTS_KEY
      (default ∅ (key_values HKEY_CURRENT_USER VISUAL_EFFECTS_KEY w)) w in
  let r := Guarded.set_visual_fx_best_performance refused w in
  exists ok : bool,
    r.1 = Ok ok /\
    (ok = true <->
     winreg_importable (w_env w) = true /\
     refused (KeyCreate HKEY_CURRENT_USER VISUAL_EFFECTS_KEY) (w_registry w)
       = None /\
     refused (ValueSet (HKEY_CURRENT_USER, VISUAL_EFFECTS_KEY)
                       "VisualFXSetting") (w_registry created) = None) /\
    (ok = true ->
     value_at HKEY_CURRENT_USER VISUAL_EFFECTS_KEY "VisualFXSetting" r.2
       = Some (RegInt 2, 4)) /\
    (ok = false -> forall h k n, value_at h k n r.2 = value_at h k n w) /\
    r.2 = set_registry (w_registry r.2) w /\
    (forall h k n,
       h <> HKEY_CURRENT_USER \/ k <> VISUAL_EFFECTS_KEY
       \/ n <> "VisualFXSetting" ->
       value_at h k n r.2 = value_at h k n w) /\
    ((forall a reg, refused a reg = None) ->
     r = set_visual_fx_best_performance w).
Proof.
  cbn zeta. rewrite guarded_set_visual_eq, set_visual_eq.
  destruct (winreg_importable (w_env w)).
  2:{ exists false. cbn [fst snd].
      split; [reflexivity|]. split; [split; [discriminate | now intros [? _]]|].
      split; [discriminate|]. split; [reflexivity|].
      split; [symmetry; apply set_registry_id|]. now split. }
  destruct (refused (KeyCreate _ _) (w_registry w)) as [e|] eqn:R1.
  { exists false. cbn [fst snd].
    split; [reflexivity|].
    split; [split; [discriminate | now intros (_ & ? & _)]|].
    split; [discriminate|]. split; [reflexivity|].
    split; [symmetry; apply set_registry_id|]. split; [reflexivity|].
    intros Hnone. rewrite Hnone in R1. discriminate. }
  cbn zeta.
  destruct (refused (ValueSet _ _) _) as [e|] eqn:R2.
  { exists false. cbn [fst snd].
    split; [reflexivity|].
    split; [split; [discriminate | now intros (_ & _ & ?)]|].
    split; [discriminate|].
    split; [intros _ h k n; apply value_at_created|].
    split; [reflexivity|]. split; [intros h k n _; apply value_at_created|].
    intros Hnone. rewrite Hnone in R2. discriminate. }
  exists true. cbn [fst snd].
  split; [reflexivity|]. split; [now split|].
  split; [|split; [discriminate|split; [reflexivity|split; [|reflexivity]]]].
  - intros _. rewrite value_at_write, decide_True by auto.
    apply lookup_insert_eq.
  - intros h k n Hfar. rewrite value_at_write.
    destruct (decide (h = HKEY_CURRENT_USER /\ k = VISUAL_EFFECTS_KEY))
      as [[-> ->]|_]; [|reflexivity].
    rewrite lookup_insert_ne by (destruct Hfar as [?|[?|?]]; congruence).
    unfold value_at.
    destruct (key_values HKEY_CURRENT_USER VISUAL_EFFECTS_KEY w);
      simpl; [reflexivity | apply lookup_empty].
Qed.

End GuardedProperties.

(** ** Examples on the small machine *)

(** The small machine's [powercfg] behaves. *)
Lemma toy_behaves : powercfg_behaves Toy.spawn Toy.active.
Proof.
  split.
  - intros shell t m. reflexivity.
  - intros shell t m. reflexivity.
  - intros shell t [a l q]. simpl. now destruct q.
  - intros shell t [a l q] p g. simpl. unfold Toy.done, Toy.failed.
    destruct q; simpl; intros [= <-]; [|discriminate].
    intros _. destruct a; vm_compute; congruence.
  - intros g shell t [a l q] p _.
    unfold Toy.spawn, SETACTIVE, Toy.done, Toy.failed.
    change (negb (String.eqb "powercfg" "powercfg")) with false.
    change (String.eqb "/setactive" "/duplicatescheme") with false.
    change (String.eqb "/setactive" "/setactive") with true.
    cbn iota.
    destruct (Toy.scheme_of_guid g) as [s|] eqn:Hs.
    + apply List.find_some in Hs as [_ Hs%String.eqb_eq].
      destruct s; [| | |destruct l]; cbn [fst snd]; intros [= <-];
        solve [discriminate | intros _; exact Hs].
    + cbn [fst]. intros [= <-]. discriminate.
Qed.

(** C1, as stated, fails: on a machine where the query of the active
    scheme fails and no state file exists, [enable_ultimate] succeeds,
    and the [restore_power] that follows returns [False], launches
    nothing and leaves the Ultimate scheme active instead of the
    scheme that was active before. *)
Lemma enable_then_restore_counterexample :
  enable_ultimate Toy.spawn Toy.world_blind = (Ok true, Toy.world_blind_enabled) /\
  restore_power Toy.spawn Toy.world_blind_enabled
    = (Ok false, Toy.world_blind_enabled) /\
  Toy.active (w_machine Toy.world_blind) = Toy.guid_of Toy.Balanced /\
  Toy.active (w_machine Toy.world_blind_enabled) = POWER_ULTIMATE_GUID /\
  Toy.guid_of Toy.Balanced <> POWER_ULTIMATE_GUID.
Proof.
  split; [vm_compute; reflexivity|]. split; [vm_compute; reflexivity|].
  split; [reflexivity|]. split; [vm_compute; reflexivity|]. discriminate.
Qed.

(** The undo on the small machine: Balanced is saved and reactivated,
    and a second [enable_ultimate] saves the Ultimate scheme. *)
Lemma enable_then_restore_witness :
  state_writable (w_env Toy.world0) = true /\
  state_readable (w_env Toy.world0) = true /\
  (get_active_power_scheme_guid Toy.spawn
     (ensure_ultimate_listed Toy.spawn Toy.world0).2).1
    = Ok (PyStr (Toy.guid_of Toy.Balanced)) /\
  enable_ultimate Toy.spawn Toy.world0 = (Ok true, Toy.world_enabled) /\
  Toy.guid_of Toy.Balanced = Toy.active (w_machine Toy.world0) /\
  (exists r w2,
     restore_power Toy.spawn Toy.world_enabled = (Ok r, w2) /\
     w_commands w2 = w_commands Toy.world_enabled
                     ++ [SETACTIVE (Toy.active (w_machine Toy.world0))] /\
     (r = true <->
      exists p,
        (Toy.spawn (SETACTIVE (Toy.active (w_machine Toy.world0))) false 120
           (w_machine Toy.world_enabled)).1 = Ok p /\ returncode p = 0) /\
     (r = true -> Toy.active (w_machine w2) = Toy.active (w_machine Toy.world0))) /\
  (forall g2 ok2 w2,
     (get_active_power_scheme_guid Toy.spawn
        (ensure_ultimate_listed Toy.spawn Toy.world_enabled).2).1
       = Ok (PyStr g2) ->
     enable_ultimate Toy.spawn Toy.world_enabled = (Ok ok2, w2) ->
     w_state w2 = Some (state_line POWER_ULTIMATE_GUID) /\
     exists r w3,
       restore_power Toy.spawn w2 = (Ok r, w3) /\
       w_commands w3 = w_commands w2 ++ [SETACTIVE POWER_ULTIMATE_GUID] /\
       (r = true <->
        exists p,
          (Toy.spawn (SETACTIVE POWER_ULTIMATE_GUID) false 120
             (w_machine w2)).1 = Ok p /\ returncode p = 0) /\
       (r = true -> Toy.active (w_machine w3) = POWER_ULTIMATE_GUID)).
Proof.
  split; [reflexivity|]. split; [reflexivity|].
  split; [vm_compute; reflexivity|]. split; [vm_compute; reflexivity|].
  apply (enable_then_restore Toy.spawn Toy.active toy_behaves
           Toy.world0 Toy.world_enabled (Toy.guid_of Toy.Balanced));
    vm_compute; reflexivity.
Defined.

(** Disabling and enabling the entry "vlc" of the current user. *)
Lemma toggle_disable_enable_witness :
  winreg_importable (w_env Toy.world0) = true /\
  key_values (hive_of "HKCU") RUN_KEY Toy.world0
    = Some {[ "vlc" := Toy.vlc ]} /\
  ({[ "vlc" := Toy.vlc ]} : gmap string reg_value) !! "vlc" = Some Toy.vlc /\
  exists w1 w2 shadow,
    toggle_startup "vlc" "HKCU" true Toy.world0 = (Ok true, w1) /\
    toggle_startup "vlc" "HKCU" false w1 = (Ok true, w2) /\
    key_values (hive_of "HKCU") RUN_KEY w2 = Some {[ "vlc" := Toy.vlc ]} /\
    ({[ "vlc" := Toy.vlc ]} : gmap string reg_value) !! "vlc" = Some Toy.vlc /\
    key_values (hive_of "HKCU") SHADOW_KEY w2 = Some shadow /\
    shadow !! "vlc" = None.
Proof.
  split; [reflexivity|]. split; [vm_compute; reflexivity|].
  split; [vm_compute; reflexivity|].
  apply (toggle_disable_enable "vlc" "HKCU" Toy.world0
           {[ "vlc" := Toy.vlc ]} Toy.vlc);
    vm_compute; reflexivity.
Defined.

(** The figures of the small machine: the locked file is met through
    both temp targets and never counted, the fresh file is left alone
    under a seven-day cutoff and deleted without one. *)
Example clean_temp_seven_days :
  (clean_temp true false 7 Toy.world0).1 = Ok 130 /\
  map (λ v, (f_name (v_file v), v_outcome v)) (visits true false 7 Toy.world0)
    = [("cache.bin", Deleted 30); ("old.log", Deleted 100);
       ("locked.db", Failed (Exn PermissionError "unlink: file in use"));
       ("fresh.tmp", TooRecent);
       ("locked.db", Failed (Exn PermissionError "unlink: file in use"));
       ("fresh.tmp", TooRecent)].
Proof. split; vm_compute; reflexivity. Qed.

Example clean_temp_zero_days :
  (clean_temp true false 0 Toy.world0).1 = Ok 137.
Proof. vm_compute. reflexivity. Qed.

Example count_primes_below_100 : count_primes 100 = 25.
Proof. vm_compute. reflexivity. Qed.

Example bench_cpu_small : (bench_cpu 100 Toy.world0).1 = Ok (25 # 2)%Q.
Proof. vm_compute. reflexivity. Qed.

Example run_timeout :
  (run Toy.spawn ["powercfg"; "/hibernate"] false 120 Toy.world0).1
    = Ok (1, "", "Timeout").
Proof. vm_compute. reflexivity. Qed.

(** C7, as stated, fails: when the query fails the function returns
    [None], not the string "unknown". *)
Lemma get_active_counterexample :
  (get_active_power_scheme_guid Toy.spawn Toy.world_blind).1 = Ok PyNone /\
  PyNone <> PyStr "unknown".
Proof. split; [vm_compute; reflexivity | discriminate]. Qed.

(** The script on the machine whose log directory cannot be created. *)
Lemma script_stops_without_log_dir_witness :
  log_dir_creatable (w_env Toy.world_no_log_dir) = false /\
  script Toy.main_enable Toy.world_no_log_dir
    = (Raise (Exn PermissionError "Access is denied"), Toy.world_no_log_dir).
Proof.
  split; [reflexivity|].
  apply (script_stops_without_log_dir Toy.main_enable). reflexivity.
Defined.

(** Where the directory can be created the same [main] runs. *)
Example script_runs_with_log_dir :
  (script Toy.main_enable Toy.world0).1 = Ok tt /\
  Toy.active (w_machine (script Toy.main_enable Toy.world0).2)
    = POWER_ULTIMATE_GUID.
Proof. split; vm_compute; reflexivity. Qed.

(** [restore_power] on the small machine before any [enable_ultimate]. *)
Lemma restore_without_state_witness :
  w_state Toy.world0 = None /\
  restore_power Toy.spawn Toy.world0 = (Ok false, Toy.world0).
Proof.
  split; [reflexivity|].
  apply (restore_without_state Toy.spawn Toy.world0). reflexivity.
Defined.

(** ** Examples for the further properties *)

(** Disabling "vlc" moves its value from the Run key to the shadow key. *)
Lemma toggle_startup_moves_witness :
  winreg_importable (w_env Toy.world0) = true /\
  value_at (hive_of "HKCU") (toggle_src true) "vlc" Toy.world0
    = Some Toy.vlc /\
  exists w',
    toggle_startup "vlc" "HKCU" true Toy.world0 = (Ok true, w') /\
    value_at (hive_of "HKCU") (toggle_src true) "vlc" w' = None /\
    value_at (hive_of "HKCU") (toggle_dst true) "vlc" w' = Some Toy.vlc.
Proof.
  split; [reflexivity|]. split; [vm_compute; reflexivity|].
  apply (toggle_startup_moves "vlc" "HKCU" true Toy.world0 Toy.vlc);
    vm_compute; reflexivity.
Defined.

(** Disabling "vlc" a second time finds nothing to move. *)
Lemma toggle_startup_twice_same_way_witness :
  winreg_importable (w_env Toy.world0) = true /\
  value_at (hive_of "HKCU") (toggle_src true) "vlc" Toy.world0
    = Some Toy.vlc /\
  exists w1,
    toggle_startup "vlc" "HKCU" true Toy.world0 = (Ok true, w1) /\
    toggle_startup "vlc" "HKCU" true w1 = (Ok false, w1).
Proof.
  split; [reflexivity|]. split; [vm_compute; reflexivity|].
  apply (toggle_startup_twice_same_way "vlc" "HKCU" true Toy.world0 Toy.vlc);
    vm_compute; reflexivity.
Defined.

(** Enabling the disabled "vlc" and disabling it again. *)
Lemma toggle_enable_disable_witness :
  winreg_importable (w_env ToyMore.world_vlc_disabled) = true /\
  key_values (hive_of "HKCU") SHADOW_KEY ToyMore.world_vlc_disabled
    = Some {[ "vlc" := Toy.vlc ]} /\
  ({[ "vlc" := Toy.vlc ]} : gmap string reg_value) !! "vlc" = Some Toy.vlc /\
  exists w1 w2,
    toggle_startup "vlc" "HKCU" false ToyMore.world_vlc_disabled
      = (Ok true, w1) /\
    toggle_startup "vlc" "HKCU" true w1 = (Ok true, w2) /\
    key_values (hive_of "HKCU") SHADOW_KEY w2
      = Some {[ "vlc" := Toy.vlc ]} /\
    value_at (hive_of "HKCU") RUN_KEY "vlc" w2 = None.
Proof.
  split; [reflexivity|]. split; [vm_compute; reflexivity|].
  split; [vm_compute; reflexivity|].
  apply (toggle_enable_disable "vlc" "HKCU" ToyMore.world_vlc_disabled
           {[ "vlc" := Toy.vlc ]} Toy.vlc);
    vm_compute; reflexivity.
Defined.

(** After "vlc" is disabled the list is the old one without it. *)
Lemma disabled_entry_not_listed_witness :
  winreg_importable (w_env Toy.world0) = true /\
  value_at (hive_of "HKCU") RUN_KEY "vlc" Toy.world0 = Some Toy.vlc /\
  forall tag path n data,
    (tag, path, n, data)
      ∈ listed (toggle_startup "vlc" "HKCU" true Toy.world0).2 <->
    (tag, path, n, data) ∈ listed Toy.world0 /\
    ~ (tag = hive_tag (hive_of "HKCU") /\ n = "vlc").
Proof.
  split; [reflexivity|]. split; [vm_compute; reflexivity|].
  apply (disabled_entry_not_listed "vlc" "HKCU" Toy.world0 Toy.vlc);
    vm_compute; reflexivity.
Defined.

(** The log lines of one [powercfg /list]. *)
Lemma run_logs_command_then_output_witness :
  w_log_faults Toy.world0 = [] /\
  w_log (run Toy.spawn LIST false 120 Toy.world0).2
    = w_log Toy.world0 ++ LRun LIST
        :: outcome_lines (Toy.spawn LIST false 120 (w_machine Toy.world0)).1.
Proof.
  split; [reflexivity|].
  apply (run_logs_command_then_output Toy.spawn LIST false 120 Toy.world0).
  reflexivity.
Defined.

(** A state file without a saved scheme. *)
Lemma restore_power_unusable_state_witness :
  w_state ToyMore.world_notes = Some ToyMore.notes /\
  Forall (λ l, PyStr.startswith "previous_scheme=" l = false)
         (PyStr.splitlines ToyMore.notes) /\
  restore_power Toy.spawn ToyMore.world_notes
    = (Ok false, ToyMore.world_notes).
Proof.
  assert (H : Forall (λ l, PyStr.startswith "previous_scheme=" l = false)
                     (PyStr.splitlines ToyMore.notes)).
  { vm_compute. repeat constructor. }
  split; [reflexivity|]. split; [exact H|].
  apply (restore_power_unusable_state Toy.spawn ToyMore.notes
           ToyMore.world_notes); [reflexivity | right; exact H].
Defined.

(** Of two saved schemes the second is restored, without its blanks. *)
Lemma restore_power_last_line_wins_witness :
  w_state ToyMore.world_two_saves = Some ToyMore.two_saves /\
  state_readable (w_env ToyMore.world_two_saves) = true /\
  PyStr.splitlines ToyMore.two_saves
    = ["previous_scheme=" +:+ Toy.guid_of Toy.Balanced]
      ++ ("previous_scheme=" +:+ ToyMore.padded) :: ["note"] /\
  Forall (λ l, PyStr.startswith "previous_scheme=" l = false) ["note"] /\
  PyStr.nonempty (PyStr.strip ToyMore.padded) = true /\
  PyStr.strip ToyMore.padded = Toy.guid_of Toy.HighPerformance /\
  exists r w',
    restore_power Toy.spawn ToyMore.world_two_saves = (Ok r, w') /\
    w_commands w'
      = w_commands ToyMore.world_two_saves
        ++ [SETACTIVE (PyStr.strip ToyMore.padded)].
Proof.
  assert (H : Forall (λ l, PyStr.startswith "previous_scheme=" l = false)
                     ["note"]) by (repeat constructor).
  split; [reflexivity|]. split; [reflexivity|].
  split; [vm_compute; reflexivity|]. split; [exact H|].
  split; [vm_compute; reflexivity|]. split; [vm_compute; reflexivity|].
  apply (restore_power_last_line_wins Toy.spawn ToyMore.two_saves
           ToyMore.padded
           ["previous_scheme=" +:+ Toy.guid_of Toy.Balanced] ["note"]
           ToyMore.world_two_saves);
    [reflexivity | reflexivity | vm_compute; reflexivity | exact H
    | vm_compute; reflexivity].
Defined.

(** On an empty disk nothing is cleaned. *)
Lemma clean_temp_missing_targets_witness :
  Forall (λ t, lookup_dir t (w_fs ToyMore.world_bare) = None)
         (temp_targets (w_env ToyMore.world_bare) true true) /\
  w_fs (clean_temp true true 7 ToyMore.world_bare).2
    = w_fs ToyMore.world_bare /\
  (7 = 0 \/ Z.abs (7 * 86400) < 2 ^ 1024 - 2 ^ 970 ->
   exists w', clean_temp true true 7 ToyMore.world_bare = (Ok 0, w')).
Proof.
  assert (H : Forall (λ t, lookup_dir t (w_fs ToyMore.world_bare) = None)
                     (temp_targets (w_env ToyMore.world_bare) true true)).
  { vm_compute. repeat constructor. }
  split; [exact H|].
  apply (clean_temp_missing_targets true true 7 ToyMore.world_bare H).
Defined.


(** The bytes of the small machine before and after a cleaning. *)
Lemma clean_temp_reports_bytes_gone_witness :
  (7 = 0 \/ Z.abs (7 * 86400) < 2 ^ 1024 - 2 ^ 970) /\
  exists freed w',
    clean_temp true false 7 Toy.world0 = (Ok freed, w') /\
    tree_size (w_fs w') + freed = tree_size (w_fs Toy.world0).
Proof.
  assert (H : 7 = 0 \/ Z.abs (7 * 86400) < 2 ^ 1024 - 2 ^ 970)
    by (right; vm_compute; reflexivity).
  split; [exact H|].
  apply (clean_temp_reports_bytes_gone true false 7 Toy.world0 H).
Defined.

(** The benchmark on the small machine, whose clock moves by two
    seconds. *)
Lemma bench_cpu_positive_from_three_witness :
  (0 < elapsed Toy.world0)%Q /\
  exists rate w',
    bench_cpu 100 Toy.world0 = (Ok rate, w') /\
    (0 <= rate)%Q /\
    ((0 < rate)%Q <-> 3 <= 100) /\
    0 <= count_primes 100 <= Z.max 0 (100 - 2).
Proof.
  split; [vm_compute; reflexivity|].
  apply (bench_cpu_positive_from_three 100 Toy.world0).
  vm_compute. reflexivity.
Defined.

(** The weaker assumption on [/setactive] also holds of a tool that
    takes a GUID in any letter case. *)
Lemma any_case_behaves : powercfg_behaves ToyMore.spawn_any_case Toy.active.
Proof.
  split.
  - intros shell t m. reflexivity.
  - intros shell t m. reflexivity.
  - intros shell t m. exact (query_keeps_active _ _ toy_behaves shell t m).
  - intros shell t m p g.
    exact (query_reports_active _ _ toy_behaves shell t m p g).
  - intros g shell t m p Hg.
    assert (Hlow : map PyStr.lower (SETACTIVE g) = SETACTIVE g).
    { destruct Hg as [->|[[[] l q] ->]]; vm_compute; reflexivity. }
    unfold ToyMore.spawn_any_case. rewrite Hlow.
    now apply (setactive_activates _ _ toy_behaves).
Qed.

Example any_case_accepts_upper_case :
  (ToyMore.spawn_any_case
     (SETACTIVE "8C5E7FDA-E8BF-4A96-9A85-A6E23A8C635C") false 120
     Toy.machine0).1 = Toy.done "" /\
  Toy.active (ToyMore.spawn_any_case
                (SETACTIVE "8C5E7FDA-E8BF-4A96-9A85-A6E23A8C635C") false 120
                Toy.machine0).2 = Toy.guid_of Toy.HighPerformance.
Proof. split; vm_compute; reflexivity. Qed.

(** An [older_days] whose seconds do not fit a float: line 137 raises
    and the files stay. *)
Example clean_temp_overflow :
  (clean_temp true false (2 ^ 1024) Toy.world0).1
    = Raise (Exn OverflowError "int too large to convert to float") /\
  w_fs (clean_temp true false (2 ^ 1024) Toy.world0).2 = Toy.fs0 /\
  visits true false (2 ^ 1024) Toy.world0 = [].
Proof. split; [|split]; vm_compute; reflexivity. Qed.

(** Ten days after the epoch a ten-day cutoff is zero and filters
    nothing; a nine-day cutoff leaves every file. *)
Example clean_temp_cutoff_zero :
  map (λ v, (f_name (v_file v), v_outcome v))
      (visits false false 10 ToyMore.world_day_ten)
    = [("cache.bin", Deleted 30); ("old.log", Deleted 100);
       ("locked.db", Failed (Exn PermissionError "unlink: file in use"));
       ("fresh.tmp", Deleted 7);
       ("locked.db", Failed (Exn PermissionError "unlink: file in use"))] /\
  map (λ v, (f_name (v_file v), v_outcome v))
      (visits false false 9 ToyMore.world_day_ten)
    = [("cache.bin", TooRecent); ("old.log", TooRecent);
       ("locked.db", TooRecent); ("fresh.tmp", TooRecent);
       ("cache.bin", TooRecent); ("old.log", TooRecent);
       ("locked.db", TooRecent); ("fresh.tmp", TooRecent)].
Proof. split; vm_compute; reflexivity. Qed.

(** A refused delete: the call raises, and "vlc" is then in the Run
    key and in the shadow key. *)
Example toggle_startup_delete_refused :
  (Guarded.toggle_startup ToyMore.no_delete "vlc" "HKCU" true Toy.world0).1
    = Raise ToyMore.denied /\
  value_at HKEY_CURRENT_USER RUN_KEY "vlc"
    (Guarded.toggle_startup ToyMore.no_delete "vlc" "HKCU" true Toy.world0).2
    = Some Toy.vlc /\
  value_at HKEY_CURRENT_USER SHADOW_KEY "vlc"
    (Guarded.toggle_startup ToyMore.no_delete "vlc" "HKCU" true Toy.world0).2
    = Some Toy.vlc.
Proof. split; [|split]; vm_compute; reflexivity. Qed.

(** A refused write: the tweak reports [False], having created the
    key and set nothing. *)
Example set_visual_fx_write_refused :
  (Guarded.set_visual_fx_best_performance ToyMore.no_set Toy.world0).1
    = Ok false /\
  key_values HKEY_CURRENT_USER VISUAL_EFFECTS_KEY
    (Guarded.set_visual_fx_best_performance ToyMore.no_set Toy.world0).2
    = Some ∅ /\
  key_values HKEY_CURRENT_USER VISUAL_EFFECTS_KEY Toy.world0 = None.
Proof. split; [|split]; vm_compute; reflexivity. Qed.
